(** * ice-scraper: event state tracking and calendar synchronisation

    A shallow embedding of the Go sources of mhp/ice-scraper:
    the Bolt persistence layout, [updateEvent], the polling and
    cancellation pass [checkEventsForDay], [checkForEvents], [addDays],
    the calendar reconciliation of calendar-event.go and the bearer-token
    round tripper.  Go strings are byte strings and are modelled by
    [string] (a list of 8-bit [ascii]); instants of [time.Time] are
    nanoseconds since the Unix epoch in [Z]; Go [int] values are [Z]. *)

From Stdlib Require Import ZArith List String Ascii Bool Lia Arith DecimalString.
From Stdlib Require Import Sorted Permutation.
Import ListNotations.
Open Scope string_scope.
Open Scope list_scope.
Open Scope Z_scope.

(* ===================================================================== *)
(** ** encoding/base32 and strings.ToLower *)
(* ===================================================================== *)

Module Base32.

(** A base32 digit: five bits, most significant first. *)
Definition quintet : Type := (bool * bool * bool * bool * bool)%type.

(** The eight bits of a byte, most significant first. *)
Definition bitsOfByte (c : ascii) : list bool :=
  let '(Ascii b0 b1 b2 b3 b4 b5 b6 b7) := c in
  [b7; b6; b5; b4; b3; b2; b1; b0].

Fixpoint bitsOfString (s : string) : list bool :=
  match s with
  | EmptyString => []
  | String c r => bitsOfByte c ++ bitsOfString r
  end.

(** RFC 4648: the bit stream is cut into groups of five bits; a final
    short group is completed with zero bits. *)
Fixpoint quintets (bs : list bool) : list quintet :=
  match bs with
  | [] => []
  | a :: b :: c :: d :: e :: rest => (a, b, c, d, e) :: quintets rest
  | [a; b; c; d] => [(a, b, c, d, false)]
  | [a; b; c] => [(a, b, c, false, false)]
  | [a; b] => [(a, b, false, false, false)]
  | [a] => [(a, false, false, false, false)]
  end.

Definition quintetValue (q : quintet) : nat :=
  let '(a, b, c, d, e) := q in
  (16 * Nat.b2n a + 8 * Nat.b2n b + 4 * Nat.b2n c + 2 * Nat.b2n d + Nat.b2n e)%nat.

(** [encodeHex] of encoding/base32: the "Extended Hex Alphabet". *)
Definition encodeHex : string := "0123456789ABCDEFGHIJKLMNOPQRSTUV".

Definition encodeChar (q : quintet) : ascii :=
  match String.get (quintetValue q) encodeHex with
  | Some c => c
  | None => "="%char
  end.

Fixpoint stringOfList (l : list ascii) : string :=
  match l with
  | [] => EmptyString
  | c :: r => String c (stringOfList r)
  end.

(** The bits carried by a sequence of digits, and the digit spelled by a
    lower-cased character of the alphabet (the decoding direction). *)
Definition bitsOfQuintets (qs : list quintet) : list bool :=
  flat_map (fun q : quintet => let '(a, b, c, d, e) := q in [a; b; c; d; e]) qs.

Definition quintetOfNat (v : nat) : quintet :=
  (Nat.testbit v 4, Nat.testbit v 3, Nat.testbit v 2, Nat.testbit v 1,
   Nat.testbit v 0).

Definition decodeLowerChar (c : ascii) : quintet :=
  let n := nat_of_ascii c in
  quintetOfNat (if (n <? 58)%nat then n - 48 else n - 87)%nat.

(** [HexEncoding.WithPadding(NoPadding).EncodeToString]. *)
Definition EncodeToString (src : string) : string :=
  stringOfList (map encodeChar (quintets (bitsOfString src))).

End Base32.

(** [idEncoder] of calendar-event.go. *)
Definition idEncoder : string -> string := Base32.EncodeToString.

Module Strings.

(** [strings.ToLower] on a byte: 'A'..'Z' move to 'a'..'z'. *)
Definition toLowerByte (c : ascii) : ascii :=
  let n := nat_of_ascii c in
  if ((65 <=? n) && (n <=? 90))%nat then ascii_of_nat (n + 32) else c.

(** [strings.ToLower], on ASCII input (the output of [idEncoder] is ASCII,
    for which Go lowers byte by byte). *)
Fixpoint ToLower (s : string) : string :=
  match s with
  | EmptyString => EmptyString
  | String c r => String (toLowerByte c) (ToLower r)
  end.

Definition isUpperByte (c : ascii) : bool :=
  let n := nat_of_ascii c in ((65 <=? n) && (n <=? 90))%nat.

(** No byte of [s] is an upper-case letter. *)
Fixpoint isLower (s : string) : bool :=
  match s with
  | EmptyString => true
  | String c r => negb (isUpperByte c) && isLower r
  end.

End Strings.

(** The [Id] field computed by [makeGCalEvent]:
    [strings.ToLower(idEncoder.EncodeToString([]byte(ev.SessionId)))]. *)
Definition gcalEventId (sessionId : string) : string :=
  Strings.ToLower (idEncoder sessionId).

(* ===================================================================== *)
(** ** The Bolt store *)
(* ===================================================================== *)

Module Bolt.

Section Bucket.
Context {K V : Type}.
Variable cmp : K -> K -> comparison.

(** The key/value pairs of a bucket, in the ascending key order in which
    a cursor visits them. *)
Definition bucket : Type := list (K * V).

(** [Bucket.Get] / [Bucket.Bucket]: [None] is Go's nil. *)
Fixpoint Get (k : K) (b : bucket) : option V :=
  match b with
  | [] => None
  | (k', v) :: r => match cmp k k' with Eq => Some v | _ => Get k r end
  end.

(** [Bucket.Put]: replaces the value of an existing key, otherwise
    inserts the pair at its place in key order. *)
Fixpoint Put (k : K) (v : V) (b : bucket) : bucket :=
  match b with
  | [] => [(k, v)]
  | (k', v') :: r =>
      match cmp k k' with
      | Eq => (k, v) :: r
      | Lt => (k, v) :: (k', v') :: r
      | Gt => (k', v') :: Put k v r
      end
  end.

(** [Cursor.Seek]: the cursor moves to the first key at or after [k];
    the result lists what the cursor yields from there on with [Next]. *)
Fixpoint Seek (k : K) (b : bucket) : bucket :=
  match b with
  | [] => []
  | (k', v) :: r => match cmp k' k with Lt => Seek k r | _ => b end
  end.

(** [Cursor.Last]. *)
Fixpoint Last (b : bucket) : option (K * V) :=
  match b with
  | [] => None
  | [kv] => Some kv
  | _ :: r => Last r
  end.

Definition Keys (b : bucket) : list K := map fst b.

(** The representation invariant: every key is below all later keys. *)
Fixpoint ascending (b : bucket) : Prop :=
  match b with
  | [] => True
  | (k, _) :: r => Forall (fun kv : K * V => cmp k (fst kv) = Lt) r /\ ascending r
  end.
End Bucket.

End Bolt.

(* ===================================================================== *)
(** ** Data model (booking-api.go, ice-events.go) *)
(* ===================================================================== *)

Definition ProductId : Type := string.

Record EventInfo : Type := {
  SessionId : string;
  ProductName : string;
  Location : string;
  StartTime : string;
  EndTime : string;
  TotalSpaces : Z;
  AvailableSpaces : Z;
  CapacityFreeAcademy : Z;
  AvailableFreeSpaces : Z
}.

Record EventContext : Type := {
  Day : string;
  Product : ProductId
}.

(** [timestampedEventInfo] embeds the [EventInfo] with a timestamp and the
    cancellation flag. *)
Record timestampedEventInfo : Type := {
  embeddedEventInfo : EventInfo;
  UpdatedAt : Z;
  Cancelled : bool
}.

(** A value stored under a sequence key of a session bucket: bytes that
    [json.Unmarshal] reads as a [timestampedEventInfo] (what
    [json.Marshal] of that record produced), or bytes it rejects. *)
Inductive value : Type :=
| Json (ev : timestampedEventInfo)
| Malformed (raw : string).

(** /day/events/session-id/: the snapshots under their 8-byte big-endian
    sequence keys (whose byte order is the numeric order of the key), and
    the bucket's sequence counter, a uint64. *)
Record sessionBucket : Type := {
  snapshots : Bolt.bucket (K := Z) (V := value);
  sequence : Z
}.

Definition eventsBucket : Type := Bolt.bucket (K := string) (V := sessionBucket).

(** /day/: the serialized product list under "products" and the nested
    "events" bucket, either of which may not exist yet. *)
Record dayBucket : Type := {
  products : option string;
  events : option eventsBucket
}.

Definition database : Type := Bolt.bucket (K := string) (V := dayBucket).

Definition emptySession : sessionBucket := {| snapshots := []; sequence := 0 |}.

(** [Bucket.NextSequence]: the counter is incremented as a uint64. *)
Definition NextSequence (b : sessionBucket) : Z * sessionBucket :=
  let id := (sequence b + 1) mod 2 ^ 64 in
  (id, {| snapshots := snapshots b; sequence := id |}).

Definition putSnapshot (key : Z) (v : value) (b : sessionBucket) : sessionBucket :=
  {| snapshots := Bolt.Put Z.compare key v (snapshots b); sequence := sequence b |}.

(** [Bucket.CreateBucketIfNotExists] on the events bucket: Bolt refuses an
    empty bucket name. *)
Definition CreateBucketIfNotExists (name : string) (evb : eventsBucket)
  : option (eventsBucket * sessionBucket) :=
  if (name =? "")%string then None
  else match Bolt.Get String.compare name evb with
       | Some b => Some (evb, b)
       | None => Some (Bolt.Put String.compare name emptySession evb, emptySession)
       end.

Inductive error : Type :=
| ErrNoSuchEvent
| ErrParseLastEvent (key : Z)
| ErrCreateSessionBucket
| ErrParseProducts
| ErrRetrieveEventInfo
| ErrWriteEvent (cause : error)
| ErrCancelEvent (cause : error).

(** What the store and the outside world see of a pass, in order. *)
Inductive logLine : Type := CreatingEventInfo | UpdatingEventInfo.

Inductive effect : Type :=
| Log (line : logLine) (day : string) (ev : timestampedEventInfo)
| CalendarSync (ev : timestampedEventInfo) (evCtx : EventContext)
| PutSnapshot (sessionId : string) (key : Z) (ev : timestampedEventInfo).

(** The events bucket after a call, what the call did, and its Go error
    ([None] is nil). *)
Record run : Type := {
  store : eventsBucket;
  trace : list effect;
  failure : option error
}.

Definition getMostRecentDetails (sessionBucket : sessionBucket)
  : error + timestampedEventInfo :=
  match Bolt.Last (snapshots sessionBucket) with
  | None => inl ErrNoSuchEvent
  | Some (k, Malformed _) => inl (ErrParseLastEvent k)
  | Some (_, Json lastEv) => inr lastEv
  end.

(** The condition under which [updateEvent] returns without writing. *)
Definition sameDetails (ev lastEv : timestampedEventInfo) : bool :=
  let e := embeddedEventInfo ev in
  let l := embeddedEventInfo lastEv in
  (ProductName e =? ProductName l)%string &&
  (Location e =? Location l)%string &&
  (StartTime e =? StartTime l)%string &&
  (EndTime e =? EndTime l)%string &&
  (TotalSpaces e =? TotalSpaces l) &&
  (AvailableSpaces e =? AvailableSpaces l) &&
  (CapacityFreeAcademy e =? CapacityFreeAcademy l) &&
  (AvailableFreeSpaces e =? AvailableFreeSpaces l) &&
  Bool.eqb (Cancelled ev) (Cancelled lastEv).

(** [updateEvent]: compare with the last poll result of the session and add
    the event if it differs or if this is the first poll of the session. *)
Definition updateEvent (eventsBucket : eventsBucket) (evCtx : EventContext)
    (ev : timestampedEventInfo) : run :=
  let sid := SessionId (embeddedEventInfo ev) in
  match CreateBucketIfNotExists sid eventsBucket with
  | None =>
      {| store := eventsBucket; trace := []; failure := Some ErrCreateSessionBucket |}
  | Some (evb, b) =>
      let write (line : logLine) :=
        let '(id, b1) := NextSequence b in
        {| store := Bolt.Put String.compare sid (putSnapshot id (Json ev) b1) evb;
           trace := [Log line (Day evCtx) ev; CalendarSync ev evCtx;
                     PutSnapshot sid id ev];
           failure := None |} in
      match getMostRecentDetails b with
      | inr lastEv =>
          if sameDetails ev lastEv
          then {| store := evb; trace := []; failure := None |}
          else write UpdatingEventInfo
      | inl _ => write CreatingEventInfo
      end
  end.

Fixpoint isSessionInList (seen : list string) (sessId : string) : bool :=
  match seen with
  | [] => false
  | id :: rest => if (id =? sessId)%string then true else isSessionInList rest sessId
  end.

(** What a pass reads from outside the store. *)
Record env : Type := {
  (** [parseTimeLocally day tim]; [None] is a parse error. *)
  parseTimeLocally : string -> string -> option Z;
  (** [getEventsInfo client day pid]; [None] is an error or a nil list. *)
  getEventsInfo : string -> ProductId -> option (list EventInfo);
  (** [json.Unmarshal] of the bytes stored under "products". *)
  unmarshalProducts : string -> option (list ProductId);
  (** [time.Now()] after the events of a product were fetched. *)
  pollTime : string -> ProductId -> Z;
  (** [time.Now()] before the stored sessions of a day are scanned. *)
  scanTime : string -> Z
}.

Section Pass.
Variable E : env.

(** The inner loop of [checkEventsForDay]: [for _, ev := range *evs]. *)
Fixpoint addEvents (evCtx : EventContext) (now : Z) (evs : list EventInfo)
    (evb : eventsBucket) (seen : list string) : run * list string :=
  match evs with
  | [] => ({| store := evb; trace := []; failure := None |}, seen)
  | ev :: rest =>
      let r := updateEvent evb evCtx
                 {| embeddedEventInfo := ev; UpdatedAt := now; Cancelled := false |} in
      match failure r with
      | Some err =>
          ({| store := store r; trace := trace r;
              failure := Some (ErrWriteEvent err) |}, seen)
      | None =>
          let '(r', seen') :=
            addEvents evCtx now rest (store r) (seen ++ [SessionId ev]) in
          ({| store := store r'; trace := trace r ++ trace r';
              failure := failure r' |}, seen')
      end
  end.

(** The outer loop: [for _, pid := range productsAvailable]. *)
Fixpoint pollProducts (day : string) (pids : list ProductId)
    (evb : eventsBucket) (seen : list string) : run * list string :=
  match pids with
  | [] => ({| store := evb; trace := []; failure := None |}, seen)
  | pid :: rest =>
      match getEventsInfo E day pid with
      | None =>
          ({| store := evb; trace := []; failure := Some ErrRetrieveEventInfo |},
           seen)
      | Some evs =>
          let '(r, seen1) :=
            addEvents {| Day := day; Product := pid |} (pollTime E day pid)
              evs evb seen in
          match failure r with
          | Some _ => (r, seen1)
          | None =>
              let '(r', seen2) := pollProducts day rest (store r) seen1 in
              ({| store := store r'; trace := trace r ++ trace r';
                  failure := failure r' |}, seen2)
          end
      end
  end.

(** The cancellation loop over the session keys the cursor yields, in key
    order.  [evCtx] is the context after the product loop. *)
Fixpoint cancelScan (evCtx : EventContext) (now : Z) (seen : list string)
    (sids : list string) (evb : eventsBucket) : run :=
  match sids with
  | [] => {| store := evb; trace := []; failure := None |}
  | sid :: rest =>
      match Bolt.Get String.compare sid evb with
      | None => cancelScan evCtx now seen rest evb
      | Some sessb =>
          match getMostRecentDetails sessb with
          | inl _ =>
              (* No recent details, so nothing to cancel: break *)
              {| store := evb; trace := []; failure := None |}
          | inr lastEv =>
              match parseTimeLocally E (Day evCtx)
                      (StartTime (embeddedEventInfo lastEv)) with
              | None => cancelScan evCtx now seen rest evb
              | Some t =>
                  if t <? now then
                    (* Session already started, ignore it: break *)
                    {| store := evb; trace := []; failure := None |}
                  else if isSessionInList seen sid then
                    cancelScan evCtx now seen rest evb
                  else
                    (* Event not yet started, and missing from list *)
                    let r := updateEvent evb evCtx
                               {| embeddedEventInfo := embeddedEventInfo lastEv;
                                  UpdatedAt := now; Cancelled := true |} in
                    match failure r with
                    | Some err =>
                        {| store := store r; trace := trace r;
                           failure := Some (ErrCancelEvent err) |}
                    | None =>
                        let r' := cancelScan evCtx now seen rest (store r) in
                        {| store := store r'; trace := trace r ++ trace r';
                           failure := failure r' |}
                    end
              end
          end
      end
  end.

(** The cancellation pass of [checkEventsForDay]: the cursor runs over the
    session keys of the events bucket from [First]. *)
Definition inferCancellations (evCtx : EventContext) (now : Z)
    (seen : list string) (evb : eventsBucket) : run :=
  cancelScan evCtx now seen (Bolt.Keys evb) evb.

(** [evCtx.Product] after [for _, pid := range productsAvailable]. *)
Definition lastProduct (evCtx : EventContext) (pids : list ProductId)
  : EventContext :=
  {| Day := Day evCtx; Product := last pids (Product evCtx) |}.

Definition checkEventsForDay (b : dayBucket) (evCtx : EventContext)
  : dayBucket * list effect * option error :=
  match match products b with
        | Some raw => unmarshalProducts E raw
        | None => None
        end with
  | None => (b, [], Some ErrParseProducts)
  | Some productsAvailable =>
      let evBucket := match events b with Some evb => evb | None => [] end in
      let '(r, sessionIdsSeen) :=
        pollProducts (Day evCtx) productsAvailable evBucket [] in
      match failure r with
      | Some err =>
          ({| products := products b; events := Some (store r) |},
           trace r, Some err)
      | None =>
          let r' := inferCancellations (lastProduct evCtx productsAvailable)
                      (scanTime E (Day evCtx)) sessionIdsSeen (store r) in
          ({| products := products b; events := Some (store r') |},
           trace r ++ trace r', failure r')
      end
  end.

(** The loop of [checkForEvents] over the days the cursor yields.  The
    second component lists the days handed to [checkEventsForDay], each
    with what its refresh did. *)
Fixpoint checkDays (onlyToday : bool) (days : list (string * dayBucket))
    (db : database)
  : database * list (string * list effect) * option error :=
  match days with
  | [] => (db, [], None)
  | (day, _) :: rest =>
      match Bolt.Get String.compare day db with
      | None => checkDays onlyToday rest db
      | Some b =>
          let '(b', tr, err) :=
            checkEventsForDay b {| Day := day; Product := "" |} in
          let db' := Bolt.Put String.compare day b' db in
          match err with
          | Some e => (db', [(day, tr)], Some e)
          | None =>
              if onlyToday then (db', [(day, tr)], None)
              else
                let '(db'', log, err') := checkDays onlyToday rest db' in
                (db'', (day, tr) :: log, err')
          end
      end
  end.

(** [checkForEvents]: [db.Update] keeps the writes of the transaction only
    when the function returns nil. *)
Definition checkForEvents (db : database) (todayKey : string)
    (onlyToday : bool)
  : database * list (string * list effect) * option error :=
  let '(db', log, err) :=
    checkDays onlyToday (Bolt.Seek String.compare todayKey db) db in
  match err with
  | Some e => (db, log, Some e)
  | None => (db', log, None)
  end.

End Pass.

(** The days that a run of [checkForEvents] refreshed, in order. *)
Definition daysChecked (log : list (string * list effect)) : list string :=
  map fst log.

(* ===================================================================== *)
(** ** fmt and encoding/json helpers *)
(* ===================================================================== *)

Module Fmt.

Definition decimal (n : N) : string := NilZero.string_of_uint (N.to_uint n).

Fixpoint zeros (k : nat) : string :=
  match k with O => "" | S k' => String "0"%char (zeros k') end.

(** The verb %0<width>d: zero padding up to [width], the sign counted in
    the width. *)
Definition padZero (width : nat) (z : Z) : string :=
  let digits := decimal (Z.abs_N z) in
  if z <? 0
  then ("-" ++ zeros (width - 1 - String.length digits) ++ digits)%string
  else (zeros (width - String.length digits) ++ digits)%string.

(** The verb %v on an int. *)
Definition int (z : Z) : string := padZero 0 z.

Definition quote : string := String (ascii_of_nat 34) "".
Definition newline : string := String (ascii_of_nat 10) "".

End Fmt.

(** Go's [int] and [int64] arithmetic wraps at 64 bits. *)
Definition wrapInt (z : Z) : Z := (z + 2 ^ 63) mod 2 ^ 64 - 2 ^ 63.

(** The calendar date that [Year()], [Month()] and [Day()] read off a
    [time.Time]. *)
Record civil : Type := { year : Z; month : Z; day : Z }.

(** [fmt.Sprintf("%04d-%02d-%02d", ts.Year(), ts.Month(), ts.Day())]. *)
Definition dayKey (ts : civil) : string :=
  (Fmt.padZero 4 (year ts) ++ "-" ++ Fmt.padZero 2 (month ts) ++ "-"
   ++ Fmt.padZero 2 (day ts))%string.

(** A Go slice: nil, or a (possibly empty) sequence of elements. *)
Inductive goSlice (A : Type) : Type :=
| NilSlice
| Slice (elems : list A).
Arguments NilSlice {A}.
Arguments Slice {A} elems.

Section Marshal.
(** The JSON string literal, quotes included, that encoding/json writes
    for a Go string. *)
Variable jsonString : string -> string.

Fixpoint joinComma (l : list string) : string :=
  match l with
  | [] => ""
  | [x] => x
  | x :: r => (x ++ "," ++ joinComma r)%string
  end.

(** [json.Marshal(prods)] for [prods []ProductId]. *)
Definition marshalProducts (prods : goSlice ProductId) : string :=
  match prods with
  | NilSlice => "null"
  | Slice l => ("[" ++ joinComma (map jsonString l) ++ "]")%string
  end.

(** [len(current)] for the result of [b.Get]: nil has length 0. *)
Definition lenBytes (current : option string) : nat :=
  match current with None => 0%nat | Some v => String.length v end.

(** One iteration of the loop of [addDays] on the database and the keys
    noted so far; [false] is the error return of the iteration. *)
Definition addDay (st : database * list string)
    (entry : civil * goSlice ProductId) : database * list string * bool :=
  let '(db, newKeys) := st in
  let '(ts, prods) := entry in
  let key := dayKey ts in
  match
    match Bolt.Get String.compare key db with
    | Some b => Some (db, b, newKeys)
    | None =>
        (* New day with events - create a bucket; Bolt refuses an empty name *)
        if (key =? "")%string then None
        else
          let b := {| products := None; events := None |} in
          Some (Bolt.Put String.compare key b db, b, newKeys ++ [key])
    end
  with
  | None => (db, newKeys, false)
  | Some (db1, b, newKeys1) =>
      let v := marshalProducts prods in
      (* Compare lengths rather than expecting product list to be sorted *)
      let current := products b in
      if negb (lenBytes current =? String.length v)%nat then
        (Bolt.Put String.compare key
           {| products := Some v; events := events b |} db1, newKeys1, true)
      else (db1, newKeys1, true)
  end.

Fixpoint addDaysLoop (st : database * list string)
    (dwi : list (civil * goSlice ProductId)) : database * list string * bool :=
  match dwi with
  | [] => (st, true)
  | entry :: rest =>
      match addDay st entry with
      | (st', true) => addDaysLoop st' rest
      | (st', false) => (st', false)
      end
  end.

(** [addDays]: [dwi] lists the entries of the map in the order in which
    [range] yields them.  The result is the database after [db.Update]
    (which keeps the writes only when the function returned nil), the
    newly added keys, and whether the error is nil. *)
Definition addDays (db : database) (dwi : list (civil * goSlice ProductId))
  : database * list string * bool :=
  match addDaysLoop (db, []) dwi with
  | (db', newKeys, true) => (db', newKeys, true)
  | (_, newKeys, false) => (db, newKeys, false)
  end.
End Marshal.

(* ===================================================================== *)
(** ** Calendar reconciliation (calendar-event.go) *)
(* ===================================================================== *)

Record GCalEvent : Type := {
  Id : string;
  Summary : string;
  Description : string;
  EventLocation : string;
  StartDateTime : Z;
  EndDateTime : Z
}.

Inductive calError : Type :=
| ErrNotFound
| ErrParsingStartTime
| ErrParsingEndTime
| ErrCreatingPutRequest
| ErrUpdatingEvent
| ErrParsingUpdatedEvent
| ErrInsertingEvent
| ErrParsingInsertedEvent.

(** What an HTTP exchange with the calendar service comes to. *)
Inductive httpOutcome : Type :=
| RequestRejected                            (* http.NewRequest failed *)
| TransportFailed                            (* the client returned an error *)
| Responded (status : Z) (bodyIsEvent : bool). (* status, body parses *)

Definition StatusNotFound : Z := 404.

(** [GCalClient] when it is not nil: how the service answers the PUT on an
    event identifier and the POST on the calendar. *)
Record calendarClient : Type := {
  doPut : string -> GCalEvent -> httpOutcome;
  doPost : string -> GCalEvent -> httpOutcome
}.

Inductive calEffect : Type :=
| LogCantConvert (err : calError)
| UpdateAttempt (calendarId : string) (ev : GCalEvent)
| LogNotFoundInserting
| InsertAttempt (calendarId : string) (ev : GCalEvent)
| LogUpdateFailed (err : calError).

Section Calendar.
Variable E : env.
(** [makeProductLink] and [ts.In(localTimezone).Format(time.Stamp)]. *)
Variable makeProductLink : ProductId -> string.
Variable formatStamp : Z -> string.
(** The package variables [GCalClient] and [GCalCalendarId]. *)
Variable GCalClient : option calendarClient.
Variable GCalCalendarId : string.

Definition makeGCalEvent (ev : EventInfo) (evCtx : EventContext) (ts : Z)
  : calError + GCalEvent :=
  let description :=
    (Fmt.int (wrapInt (CapacityFreeAcademy ev - AvailableFreeSpaces ev))
     ++ " Academy, "
     ++ Fmt.int (wrapInt (TotalSpaces ev - AvailableSpaces ev))
     ++ " other booked" ++ Fmt.newline
     ++ makeProductLink (Product evCtx) ++ Fmt.newline
     ++ "Last updated: " ++ formatStamp ts ++ Fmt.newline)%string in
  match parseTimeLocally E (Day evCtx) (StartTime ev) with
  | None => inl ErrParsingStartTime
  | Some startTime =>
      match parseTimeLocally E (Day evCtx) (EndTime ev) with
      | None => inl ErrParsingEndTime
      | Some endTime =>
          inr {| Id := gcalEventId (SessionId ev);
                 Summary := ProductName ev;
                 Description := description;
                 EventLocation := Location ev;
                 StartDateTime := startTime;
                 EndDateTime := endTime |}
      end
  end.

Definition insertCalendarEvent (c : calendarClient) (calendarId : string)
    (ev : GCalEvent) : option calError :=
  match doPost c calendarId ev with
  | RequestRejected | TransportFailed => Some ErrInsertingEvent
  | Responded _ bodyIsEvent =>
      if bodyIsEvent then None else Some ErrParsingInsertedEvent
  end.

Definition updateCalendarEvent (c : calendarClient) (calendarId : string)
    (ev : GCalEvent) : option calError :=
  match doPut c calendarId ev with
  | RequestRejected => Some ErrCreatingPutRequest
  | TransportFailed => Some ErrUpdatingEvent
  | Responded status bodyIsEvent =>
      (* If the update failed because the event doesn't exist,
         return an error to trigger an insert operation instead *)
      if status =? StatusNotFound then Some ErrNotFound
      else if bodyIsEvent then None else Some ErrParsingUpdatedEvent
  end.

Definition isErrNotFound (err : option calError) : bool :=
  match err with Some ErrNotFound => true | _ => false end.

Definition optionallyUpdateCalendar (ev : EventInfo) (evCtx : EventContext)
    (ts : Z) : list calEffect :=
  match GCalClient with
  | None => []
  | Some c =>
      match makeGCalEvent ev evCtx ts with
      | inl err => [LogCantConvert err]
      | inr calEv =>
          let err := updateCalendarEvent c GCalCalendarId calEv in
          let '(err1, tr) :=
            if isErrNotFound err
            then (insertCalendarEvent c GCalCalendarId calEv,
                  [UpdateAttempt GCalCalendarId calEv; LogNotFoundInserting;
                   InsertAttempt GCalCalendarId calEv])
            else (err, [UpdateAttempt GCalCalendarId calEv]) in
          match err1 with
          | Some e => tr ++ [LogUpdateFailed e]
          | None => tr
          end
      end
  end.
End Calendar.

Definition isInsertAttempt (e : calEffect) : bool :=
  match e with InsertAttempt _ _ => true | _ => false end.

(* ===================================================================== *)
(** ** The bearer-token round tripper *)
(* ===================================================================== *)

(** The fields of [GAuthenticator] that change or are consulted after
    construction. *)
Record GAuthenticator : Type := {
  currentToken : string;
  tokenValidity : Z;
  tokenFile : string
}.

(** The answer of the token endpoint, as [getToken] decodes it. *)
Record tokenResponse : Type := {
  AccessToken : string;
  ExpiresIn : Z;
  TokenType : string;
  Error : string;
  ErrorDescription : string
}.

(** How the exchange of [getToken] goes. *)
Inductive exchange : Type :=
| SigningFailed
| PostFailed
| ReadFailed
| ResponseMalformed
| Answered (response : tokenResponse).

Inductive authError : Type :=
| ErrSigning
| ErrRequestingAccessToken
| ErrReadingTokenResponse
| ErrParsingTokenResponse
| ErrNoAccessToken (code description : string)
| ErrUnknownTokenType (tokenType : string)
| ErrCantStoreAccessToken.

Inductive authEffect : Type :=
| Renewal
| Forward (authorization : string).

(** [validToken], with [now] the reading of [time.Now()]. *)
Definition validToken (ga : GAuthenticator) (now : Z) : bool :=
  if (currentToken ga =? "")%string || (tokenValidity ga <? now)
  then false else true.

Definition Second : Z := 1000000000.

(** [getToken]: [now] is its own reading of the clock, [x] the exchange
    with the token endpoint and [stored] whether [storeToken] succeeds. *)
Definition getToken (ga : GAuthenticator) (now : Z) (x : exchange)
    (stored : bool) : GAuthenticator * option authError :=
  match x with
  | SigningFailed => (ga, Some ErrSigning)
  | PostFailed => (ga, Some ErrRequestingAccessToken)
  | ReadFailed => (ga, Some ErrReadingTokenResponse)
  | ResponseMalformed => (ga, Some ErrParsingTokenResponse)
  | Answered response =>
      if negb (Error response =? "")%string then
        (ga, Some (ErrNoAccessToken (Error response) (ErrorDescription response)))
      else if negb (TokenType response =? "Bearer")%string then
        (ga, Some (ErrUnknownTokenType (TokenType response)))
      else
        let ga' := {| currentToken := AccessToken response;
                      tokenValidity := now + wrapInt (ExpiresIn response * Second);
                      tokenFile := tokenFile ga |} in
        if negb (tokenFile ga =? "")%string && negb stored
        then (ga', Some ErrCantStoreAccessToken)
        else (ga', None)
  end.

(** [RoundTrip]: the authenticator afterwards, what was done, and the
    error of the renewal if the request was not forwarded. *)
Definition RoundTrip (ga : GAuthenticator) (now renewedAt : Z) (x : exchange)
    (stored : bool) : GAuthenticator * list authEffect * option authError :=
  if negb (validToken ga now) then
    match getToken ga renewedAt x stored with
    | (ga', Some err) => (ga', [Renewal], Some err)
    | (ga', None) =>
        (ga', [Renewal; Forward ("Bearer " ++ currentToken ga')%string], None)
    end
  else (ga, [Forward ("Bearer " ++ currentToken ga)%string], None).

(* ===================================================================== *)
(** ** Invariants and observations of the store *)
(* ===================================================================== *)

(** The sequence keys in use do not exceed the counter, and the counter can
    be incremented once more without wrapping. *)
Definition sequenced (b : sessionBucket) : Prop :=
  0 <= sequence b < 2 ^ 64 - 1
  /\ Forall (fun kv : Z * value => fst kv <= sequence b) (snapshots b).

(** The values stored for a session, oldest first; empty when the session
    has no bucket. *)
Definition storedSequence (evb : eventsBucket) (sid : string) : list value :=
  match Bolt.Get String.compare sid evb with
  | Some b => map snd (snapshots b)
  | None => []
  end.

(** The latest snapshot of a session, when it has one that decodes. *)
Definition latestSnapshot (evb : eventsBucket) (sid : string)
  : option timestampedEventInfo :=
  match Bolt.Get String.compare sid evb with
  | Some b => match getMostRecentDetails b with
              | inr ev => Some ev
              | inl _ => None
              end
  | None => None
  end.

(** No snapshot repeats the comparable fields of the one before it. *)
Fixpoint diffTrail (l : list value) : Prop :=
  match l with
  | Json a :: ((Json b :: _) as r) => sameDetails b a = false /\ diffTrail r
  | _ :: r => diffTrail r
  | [] => True
  end.

(** The latest snapshot of every session bucket carries the session
    identifier under which the bucket is stored, as [updateEvent] writes
    it, and no bucket has the empty name, which Bolt refuses. *)
Definition wellKeyed (evb : eventsBucket) : Prop :=
  forall sid b, Bolt.Get String.compare sid evb = Some b ->
    sid <> ""
    /\ forall lastEv, getMostRecentDetails b = inr lastEv ->
         SessionId (embeddedEventInfo lastEv) = sid.

(** Every calendar sync of a trace is immediately followed by the write of
    the very snapshot it synchronised, and there is no other write. *)
Inductive syncThenPut : list effect -> Prop :=
| stp_done : syncThenPut []
| stp_log line day ev r : syncThenPut r -> syncThenPut (Log line day ev :: r)
| stp_write ev evCtx key r :
    syncThenPut r ->
    syncThenPut (CalendarSync ev evCtx
                 :: PutSnapshot (SessionId (embeddedEventInfo ev)) key ev :: r).

(** Every calendar sync of a trace comes after a write of its snapshot. *)
Definition persistedBeforeSync (tr : list effect) : Prop :=
  forall pre ev evCtx post,
    tr = pre ++ CalendarSync ev evCtx :: post ->
    exists key, In (PutSnapshot (SessionId (embeddedEventInfo ev)) key ev) pre.

(** The latest snapshot of session [sid] starts before [now]. *)
Definition startedBefore (E : env) (day : string) (now : Z)
    (evb : eventsBucket) (sid : string) : Prop :=
  exists lastEv t,
    latestSnapshot evb sid = Some lastEv
    /\ parseTimeLocally E day (StartTime (embeddedEventInfo lastEv)) = Some t
    /\ t < now.

(** What one iteration of the cancellation loop decides for a session:
    move on to the next session, leave the loop, or hand a cancelled copy
    of the latest snapshot to [updateEvent]. *)
Inductive decision : Type :=
| Skip
| Break
| Cancel (candidate : timestampedEventInfo).

Definition scanDecision (E : env) (evCtx : EventContext) (now : Z)
    (seen : list string) (evb : eventsBucket) (sid : string) : decision :=
  match Bolt.Get String.compare sid evb with
  | None => Skip
  | Some sessb =>
      match getMostRecentDetails sessb with
      | inl _ => Break
      | inr lastEv =>
          match parseTimeLocally E (Day evCtx)
                  (StartTime (embeddedEventInfo lastEv)) with
          | None => Skip
          | Some t =>
              if t <? now then Break
              else if isSessionInList seen sid then Skip
              else Cancel {| embeddedEventInfo := embeddedEventInfo lastEv;
                             UpdatedAt := now; Cancelled := true |}
          end
      end
  end.

(* ===================================================================== *)
(** ** Concrete collaborators, for the examples *)
(* ===================================================================== *)

Module Sample.

Definition digit (c : ascii) : option Z :=
  let n := Z.of_nat (nat_of_ascii c) in
  if (48 <=? n) && (n <=? 57) then Some (n - 48) else None.

Definition twoDigits (a b : ascii) : option Z :=
  match digit a, digit b with
  | Some x, Some y => Some (10 * x + y)
  | _, _ => None
  end.

Definition isLeap (y : Z) : bool :=
  ((y mod 4 =? 0) && negb (y mod 100 =? 0)) || (y mod 400 =? 0).

Definition daysIn (y m : Z) : Z :=
  if m =? 2 then (if isLeap y then 29 else 28)
  else if (m =? 4) || (m =? 6) || (m =? 9) || (m =? 11) then 30 else 31.

(** Days from 1970-01-01 to the given date of the Gregorian calendar. *)
Definition daysFromCivil (y m d : Z) : Z :=
  let y' := if m <=? 2 then y - 1 else y in
  let era := y' / 400 in
  let yoe := y' - era * 400 in
  let doy := (153 * (if 2 <? m then m - 3 else m + 9) + 2) / 5 + d - 1 in
  let doe := yoe * 365 + yoe / 4 - yoe / 100 + doy in
  era * 146097 + doe - 719468.

(** [parseTimeLocally] when [localTimezone] is [time.UTC] (the fallback of
    [initialiseLocalTimezone]), on a zero-padded day "2006-01-02" and time
    "15:04:05"; the instant in nanoseconds. *)
Definition parseTimeUTC (day tim : string) : option Z :=
  match day, tim with
  | String y1 (String y2 (String y3 (String y4 (String "-" (String m1
      (String m2 (String "-" (String d1 (String d2 EmptyString))))))))),
    String h1 (String h2 (String ":" (String n1 (String n2 (String ":"
      (String s1 (String s2 EmptyString))))))) =>
      match twoDigits y1 y2, twoDigits y3 y4, twoDigits m1 m2,
            twoDigits d1 d2, twoDigits h1 h2, twoDigits n1 n2,
            twoDigits s1 s2 with
      | Some yh, Some yl, Some m, Some d, Some h, Some n, Some sec =>
          let y := 100 * yh + yl in
          if (1 <=? m) && (m <=? 12) && (1 <=? d) && (d <=? daysIn y m)
             && (h <? 24) && (n <? 60) && (sec <? 60)
          then Some ((daysFromCivil y m d * 86400 + h * 3600 + n * 60 + sec)
                     * Second)
          else None
      | _, _, _, _, _, _, _ => None
      end
  | _, _ => None
  end.

(** The JSON literal of a string that needs no escaping. *)
Definition plainJsonString (s : string) : string :=
  (Fmt.quote ++ s ++ Fmt.quote)%string.

(** Reads back what [marshalProducts plainJsonString] writes: the state is
    whether a literal is open, the literal read so far and the list. *)
Fixpoint readItems (s : string) (open : bool) (cur : string)
    (acc : list ProductId) : option (list ProductId) :=
  match s with
  | EmptyString => None
  | String c r =>
      if open then
        if Ascii.eqb c (ascii_of_nat 34) then readItems r false "" (acc ++ [cur])
        else readItems r true (cur ++ String c "")%string acc
      else if Ascii.eqb c (ascii_of_nat 34) then readItems r true "" acc
      else if Ascii.eqb c ","%char then readItems r false "" acc
      else if Ascii.eqb c "]"%char
           then (match r with EmptyString => Some acc | _ => None end)
      else None
  end.

Definition unmarshalPlainProducts (raw : string) : option (list ProductId) :=
  match raw with
  | String "[" r => readItems r false "" []
  | _ => if (raw =? "null")%string then Some [] else None
  end.

(** A world in which the booking site answers [feed] and every clock
    reading is [now]. *)
Definition world (feed : string -> ProductId -> option (list EventInfo))
    (now : Z) : env :=
  {| parseTimeLocally := parseTimeUTC;
     getEventsInfo := feed;
     unmarshalProducts := unmarshalPlainProducts;
     pollTime := fun _ _ => now;
     scanTime := fun _ => now |}.

Definition nothingListed : string -> ProductId -> option (list EventInfo) :=
  fun _ _ => Some [].

Definition session (sid start : string) (available : Z) : EventInfo :=
  {| SessionId := sid; ProductName := "Patch Ice"; Location := "Arena";
     StartTime := start; EndTime := "23:00:00";
     TotalSpaces := 20; AvailableSpaces := available;
     CapacityFreeAcademy := 5; AvailableFreeSpaces := 5 |}.

Definition snapshot (sid start : string) (available seenAt : Z)
    (cancelled : bool) : timestampedEventInfo :=
  {| embeddedEventInfo := session sid start available;
     UpdatedAt := seenAt; Cancelled := cancelled |}.

Definition ctx : EventContext := {| Day := "2024-03-01"; Product := "p1" |}.

(** 2024-03-01 10:00:00 UTC. *)
Definition tenOClock : Z := 1709287200 * Second.

(** A session bucket holding one snapshot under sequence key 1. *)
Definition oneSnapshot (ev : timestampedEventInfo) : sessionBucket :=
  {| snapshots := [(1, Json ev)]; sequence := 1 |}.

(** The events bucket of a day on which session S1 was seen once, with
    five spaces available, starting at ten. *)
Definition seenOnce : eventsBucket :=
  [("S1", oneSnapshot (snapshot "S1" "10:00:00" 5 0 false))].

(** A day whose product list is p1 and that has no events bucket yet. *)
Definition freshDay : dayBucket :=
  {| products := Some (marshalProducts plainJsonString (Slice ["p1"]));
     events := None |}.

(** Two sessions of the day: A started at nine, B starts at eleven. *)
Definition twoSessions : eventsBucket :=
  [("A", oneSnapshot (snapshot "A" "09:00:00" 5 0 false));
   ("B", oneSnapshot (snapshot "B" "11:00:00" 5 0 false))].

(** Session A has a bucket but no snapshot; B starts at eleven. *)
Definition emptyThenB : eventsBucket :=
  [("A", emptySession);
   ("B", oneSnapshot (snapshot "B" "11:00:00" 5 0 false))].

Definition onlyB : eventsBucket :=
  [("B", oneSnapshot (snapshot "B" "11:00:00" 5 0 false))].

(** Sessions B and C start at eleven and at twelve. *)
Definition laterSessions : eventsBucket :=
  [("B", oneSnapshot (snapshot "B" "11:00:00" 5 0 false));
   ("C", oneSnapshot (snapshot "C" "12:00:00" 5 0 false))].

Definition dayWith (evb : eventsBucket) : dayBucket :=
  {| products := Some (marshalProducts plainJsonString (Slice ["p1"]));
     events := Some evb |}.

(** A calendar service that does not know the event yet: the update is
    answered 404, the insert 200 with the event in the body. *)
Definition unknownEvent : calendarClient :=
  {| doPut := fun _ _ => Responded 404 false;
     doPost := fun _ _ => Responded 200 true |}.

Definition noLink : ProductId -> string := fun _ => "".
Definition noStamp : Z -> string := fun _ => "".

(** A bearer token that expires at instant 100. *)
Definition expiresAt100 : GAuthenticator :=
  {| currentToken := "tok"; tokenValidity := 100; tokenFile := "" |}.

Definition freshToken : exchange :=
  Answered {| AccessToken := "new"; ExpiresIn := 3600; TokenType := "Bearer";
              Error := ""; ErrorDescription := "" |}.

Definition firstOfMarch : civil := {| year := 2024; month := 3; day := 1 |}.

(** A database with the days 28 February, 5 March and 9 March 2024, each
    with product p1 and no events yet. *)
Definition threeDays : database :=
  [("2024-02-28", freshDay); ("2024-03-05", freshDay);
   ("2024-03-09", freshDay)].

(** The booking site lists session S1 with the given number of available
    spaces. *)
Definition listsS1With (available : Z)
  : string -> ProductId -> option (list EventInfo) :=
  fun _ _ => Some [session "S1" "10:00:00" available].

(** A pass over the day at nine, an hour before S1 starts. *)
Definition passAtNine (feed : string -> ProductId -> option (list EventInfo))
    (b : dayBucket) : dayBucket * list effect * option error :=
  checkEventsForDay (world feed (tenOClock - 3600 * Second)) b
    {| Day := "2024-03-01"; Product := "" |}.

Definition eventsOf (b : dayBucket) : eventsBucket :=
  match events b with Some evb => evb | None => [] end.

(** The booking site lists session S1 for every product and day. *)
Definition listsS1 : string -> ProductId -> option (list EventInfo) :=
  fun _ _ => Some [session "S1" "10:00:00" 5].

End Sample.

(* ===================================================================== *)
(** ** Further observations of the store *)
(* ===================================================================== *)

(** The sequence keys of a session bucket ascend, start at 1 and do not
    exceed the counter of the bucket. *)
Definition tidy (b : sessionBucket) : Prop :=
  0 <= sequence b
  /\ Bolt.ascending Z.compare (snapshots b)
  /\ Forall (fun kv : Z * value => 1 <= fst kv <= sequence b) (snapshots b).

(** The snapshots that a trace writes. *)
Fixpoint written (tr : list effect) : list timestampedEventInfo :=
  match tr with
  | [] => []
  | PutSnapshot _ _ ev :: r => ev :: written r
  | _ :: r => written r
  end.

(** The session identifiers that the booking site lists for the products
    of a day, in the order in which the pass meets them. *)
Definition listedSessions (E : env) (day : string) (pids : list ProductId)
  : list string :=
  flat_map (fun pid => match getEventsInfo E day pid with
                       | Some evs => map SessionId evs
                       | None => []
                       end) pids.

(** The events bucket of a day, empty when the day has none yet (what
    [CreateBucketIfNotExists] hands to [checkEventsForDay]). *)
Definition eventsOfDay (b : dayBucket) : eventsBucket :=
  match events b with Some evb => evb | None => [] end.

(** The product list of a day as [checkEventsForDay] decodes it. *)
Definition productsOfDay (E : env) (b : dayBucket) : option (list ProductId) :=
  match products b with
  | Some raw => unmarshalProducts E raw
  | None => None
  end.

(* ===================================================================== *)
(** ** The "starting soon" trigger (ice-events.go) *)
(* ===================================================================== *)

(** [time.Minute * 5]. *)
Definition soonThreshold : Z := 5 * 60 * Second.

(** [t.Sub(u)]: the difference as a [time.Duration], an int64 count of
    nanoseconds; out of range it is the largest or smallest duration. *)
Definition Sub (t u : Z) : Z := Z.max (- 2 ^ 63) (Z.min (2 ^ 63 - 1) (t - u)).

(** The [ForEach] over the sessions of the events bucket, with the value of
    [eventStartingSoon] so far.  A start time that does not parse makes
    the callback return the error, which ends the [ForEach]; the caller
    drops that error. *)
Fixpoint eventStartingSoon (E : env) (todayKey : string) (today : Z)
    (evs : eventsBucket) (soon : bool) : bool :=
  match evs with
  | [] => soon
  | (_, sessb) :: rest =>
      match getMostRecentDetails sessb with
      | inr lastEv =>
          match parseTimeLocally E todayKey
                  (StartTime (embeddedEventInfo lastEv)) with
          | None => soon
          | Some t =>
              if t <? today then
                (* Session already started, ignore it *)
                eventStartingSoon E todayKey today rest soon
              else if Sub t today <? soonThreshold then
                eventStartingSoon E todayKey today rest true
              else eventStartingSoon E todayKey today rest soon
          end
      | inl _ => eventStartingSoon E todayKey today rest soon
      end
  end.

(** [checkIfEventsStartingSoon]: [today] is the reading of [time.Now()]
    and [todayKey] the key of its date.  The day is the one the cursor
    finds at or after [todayKey]; the refresh runs with [todayKey] as its
    day. *)
Definition checkIfEventsStartingSoon (E : env) (db : database)
    (todayKey : string) (today : Z) : database * list effect * option error :=
  match Bolt.Seek String.compare todayKey db with
  | [] =>
      (* No events today! *)
      (db, [], None)
  | (b, dayb) :: _ =>
      match events dayb with
      | None =>
          (* No events recorded yet *)
          (db, [], None)
      | Some evs =>
          if eventStartingSoon E todayKey today evs false then
            let '(dayb', tr, err) :=
              checkEventsForDay E dayb {| Day := todayKey; Product := "" |} in
            match err with
            | Some e => (db, tr, Some e)
            | None => (Bolt.Put String.compare b dayb' db, tr, None)
            end
          else (db, [], None)
      end
  end.

(** The day keys of the entries of a [DaysWithIce] map, in the order in
    which [addDays] meets them. *)
Definition dayKeys (dwi : list (civil * goSlice ProductId)) : list string :=
  map (fun entry => dayKey (fst entry)) dwi.

(* ===================================================================== *)
(** ** encoding/base64 and the booking link (calendar-event.go) *)
(* ===================================================================== *)

Module Base64.

(** A base64 digit: six bits, most significant first. *)
Definition sextet : Type := (bool * bool * bool * bool * bool * bool)%type.

(** RFC 4648: the bit stream is cut into groups of six bits; a final short
    group is completed with zero bits. *)
Fixpoint sextets (bs : list bool) : list sextet :=
  match bs with
  | [] => []
  | a :: b :: c :: d :: e :: f :: rest => (a, b, c, d, e, f) :: sextets rest
  | [a; b; c; d; e] => [(a, b, c, d, e, false)]
  | [a; b; c; d] => [(a, b, c, d, false, false)]
  | [a; b; c] => [(a, b, c, false, false, false)]
  | [a; b] => [(a, b, false, false, false, false)]
  | [a] => [(a, false, false, false, false, false)]
  end.

Definition sextetValue (q : sextet) : nat :=
  let '(a, b, c, d, e, f) := q in
  (32 * Nat.b2n a + 16 * Nat.b2n b + 8 * Nat.b2n c + 4 * Nat.b2n d
   + 2 * Nat.b2n e + Nat.b2n f)%nat.

(** [encodeURL] of encoding/base64: the URL and filename safe alphabet. *)
Definition encodeURL : string :=
  "ABCDEFGHIJKLMNOPQRSTUVWXYZabcdefghijklmnopqrstuvwxyz0123456789-_".

Definition encodeChar (q : sextet) : ascii :=
  match String.get (sextetValue q) encodeURL with
  | Some c => c
  | None => "="%char
  end.

(** The bits carried by a sequence of digits, and the digit spelled by a
    character of the alphabet (the decoding direction). *)
Definition bitsOfSextets (qs : list sextet) : list bool :=
  flat_map (fun q : sextet =>
              let '(a, b, c, d, e, f) := q in [a; b; c; d; e; f]) qs.

Definition sextetOfNat (v : nat) : sextet :=
  (Nat.testbit v 5, Nat.testbit v 4, Nat.testbit v 3, Nat.testbit v 2,
   Nat.testbit v 1, Nat.testbit v 0).

Definition decodeChar (c : ascii) : sextet :=
  let n := nat_of_ascii c in
  sextetOfNat (if (n =? 45)%nat then 62
               else if (n <? 58)%nat then n + 4
               else if (n <? 91)%nat then n - 65
               else if (n =? 95)%nat then 63
               else n - 71)%nat.

(** The characters of the URL-safe alphabet. *)
Definition isURLSafe (c : ascii) : bool :=
  let n := nat_of_ascii c in
  ((48 <=? n) && (n <=? 57) || (65 <=? n) && (n <=? 90)
   || (97 <=? n) && (n <=? 122) || (n =? 45) || (n =? 95))%nat.

(** [RawURLEncoding.EncodeToString]: no padding. *)
Definition EncodeToString (src : string) : string :=
  Base32.stringOfList (map encodeChar (sextets (Base32.bitsOfString src))).

End Base64.

Definition bookingDetailsUrl : string :=
  "https://bookings.national-ice-centre.com/booking/ice-sports-details!".

(** [makeProductLink]: the booking page of the product, its identifier
    base64-encoded after the `!`. *)
Definition makeProductLink (productId : ProductId) : string :=
  (bookingDetailsUrl ++ Base64.EncodeToString productId)%string.

(** [jwtHeader] of the token round tripper: the encoded JSON text
    {"alg":"RS256","typ":"JWT"}. *)
Definition jwtHeader : string :=
  Base64.EncodeToString
    ("{" ++ Fmt.quote ++ "alg" ++ Fmt.quote ++ ":" ++ Fmt.quote ++ "RS256"
     ++ Fmt.quote ++ "," ++ Fmt.quote ++ "typ" ++ Fmt.quote ++ ":" ++ Fmt.quote
     ++ "JWT" ++ Fmt.quote ++ "}")%string.

Definition isUpdateAttempt (e : calEffect) : bool :=
  match e with UpdateAttempt _ _ => true | _ => false end.

Definition isLogUpdateFailed (e : calEffect) : bool :=
  match e with LogUpdateFailed _ => true | _ => false end.

(* ===================================================================== *)
(** ** Dates of the ice calendar (checkForNewDays) *)
(* ===================================================================== *)

Definition isDigit (c : ascii) : bool :=
  let n := nat_of_ascii c in ((48 <=? n) && (n <=? 57))%nat.

Fixpoint allDigits (s : string) : bool :=
  match s with
  | EmptyString => true
  | String c r => isDigit c && allDigits r
  end.

(** The longest run of digits at the start of a string, and what follows. *)
Fixpoint spanDigits (s : string) : string * string :=
  match s with
  | EmptyString => ("", "")
  | String c r =>
      if isDigit c
      then let '(ds, rest) := spanDigits r in (String c ds, rest)
      else ("", s)
  end.

(** A match of [dateRe], /Date\(([0-9]+)\+([0-9]{4})\)/, at the start of
    the string: the two captured groups.  After the opening text the
    digits of the first group run up to the `+`, so they are the longest
    run of digits there. *)
Definition matchDateHere (s : string) : option (string * string) :=
  match s with
  | String "/" (String "D" (String "a" (String "t" (String "e" (String "(" r))))) =>
      let '(millis, r1) := spanDigits r in
      match millis, r1 with
      | String _ _,
        String "+" (String z1 (String z2 (String z3 (String z4
          (String ")" (String "/" _)))))) =>
          if isDigit z1 && isDigit z2 && isDigit z3 && isDigit z4
          then Some (millis, String z1 (String z2 (String z3 (String z4 ""))))
          else None
      | _, _ => None
      end
  | _ => None
  end.

(** [dateRe.FindStringSubmatch]: the leftmost match in the string. *)
Fixpoint findDate (s : string) : option (string * string) :=
  match matchDateHere s with
  | Some groups => Some groups
  | None =>
      match s with
      | EmptyString => None
      | String _ r => findDate r
      end
  end.

Fixpoint digitsValue (acc : Z) (s : string) : Z :=
  match s with
  | EmptyString => acc
  | String c r => digitsValue (10 * acc + (Z.of_nat (nat_of_ascii c) - 48)) r
  end.

(** [strconv.ParseInt(s, 10, 64)] on a string of digits: out of range for
    an int64 is an error. *)
Definition ParseInt64 (s : string) : option Z :=
  let v := digitsValue 0 s in
  if v <=? 2 ^ 63 - 1 then Some v else None.

(** [parseJSDate]: the instant of strings like /Date(1551398400000+0000)/,
    whole seconds; the timezone is ignored.  [None] is the error. *)
Definition parseJSDate (d : string) : option Z :=
  match findDate d with
  | None => None
  | Some (millis, _) =>
      match ParseInt64 millis with
      | None => None
      | Some ms => Some (Z.quot ms 1000 * Second)
      end
  end.

(* ===================================================================== *)
(** ** The summary views (showSummary, summariseDay) *)
(* ===================================================================== *)

Module Summary.
Record summary : Type := {
  StartTime : string;
  EndTime : string;
  Location : string;
  Academy : Z;
  Other : Z;
  Type_ : string
}.
End Summary.

(** The entry that [summariseDay] builds from a decoded event. *)
Definition summaryOf (ev : EventInfo) : Summary.summary :=
  {| Summary.StartTime := StartTime ev;
     Summary.EndTime := EndTime ev;
     Summary.Location := Location ev;
     Summary.Academy := wrapInt (CapacityFreeAcademy ev - AvailableFreeSpaces ev);
     Summary.Other := wrapInt (TotalSpaces ev - AvailableSpaces ev);
     Summary.Type_ := ProductName ev |}.

Section Summaries.
(** [json.Unmarshal] into an [EventInfo] of stored bytes that do not decode
    as a [timestampedEventInfo]: the summary reads fewer fields, so it may
    still accept them. *)
Variable unmarshalEventInfo : string -> option EventInfo.

(** [json.Unmarshal] of the last value of a session bucket into an
    [EventInfo]; [None] when the bucket is empty or the value does not
    decode. *)
Definition lastEventInfo (sessb : sessionBucket) : option EventInfo :=
  match Bolt.Last (snapshots sessb) with
  | Some (_, Json tev) => Some (embeddedEventInfo tev)
  | Some (_, Malformed raw) => unmarshalEventInfo raw
  | None => None
  end.

(** [todaysEvents] after the [ForEach] over the sessions. *)
Fixpoint todaysEvents (evs : eventsBucket) : list Summary.summary :=
  match evs with
  | [] => []
  | (_, sessb) :: rest =>
      match lastEventInfo sessb with
      | Some ev => summaryOf ev :: todaysEvents rest
      | None => todaysEvents rest
      end
  end.

(** [sort.SliceStable] with the less function
    [todaysEvents[i].StartTime < todaysEvents[j].StartTime]: an entry goes
    in front of the first entry that is not less than it. *)
Fixpoint insertStable (x : Summary.summary) (l : list Summary.summary)
  : list Summary.summary :=
  match l with
  | [] => [x]
  | y :: r =>
      if (Summary.StartTime y <? Summary.StartTime x)%string
      then y :: insertStable x r
      else x :: y :: r
  end.

Fixpoint sortStable (l : list Summary.summary) : list Summary.summary :=
  match l with
  | [] => []
  | x :: r => insertStable x (sortStable r)
  end.

Definition tab : string := String (ascii_of_nat 9) "".

(** One [Fprintf] of [summariseDay], with the verbs
    %s\t%s\t%s\t%s\t%d\t%d\t%s\n. *)
Definition summaryLine (day : string) (entry : Summary.summary) : string :=
  (day ++ tab ++ Summary.StartTime entry ++ tab ++ Summary.EndTime entry ++ tab
   ++ Summary.Location entry ++ tab ++ Fmt.int (Summary.Academy entry) ++ tab
   ++ Fmt.int (Summary.Other entry) ++ tab ++ Summary.Type_ entry
   ++ Fmt.newline)%string.

(** The loop over the sorted entries: the date is not repeated. *)
Fixpoint summaryLines (day : string) (entries : list Summary.summary)
  : list string :=
  match entries with
  | [] => []
  | entry :: rest => summaryLine day entry :: summaryLines "" rest
  end.

(** [summariseDay]: the lines written for a day. *)
Definition summariseDay (evs : eventsBucket) (day : string) : list string :=
  summaryLines day (sortStable (todaysEvents evs)).

Definition summaryHeader : string :=
  ("Date" ++ tab ++ "Start" ++ tab ++ "End" ++ tab ++ "Pad" ++ tab ++ "#Academy"
   ++ tab ++ "#Other" ++ tab ++ "Type" ++ Fmt.newline)%string.

(** What [showSummary] writes for one day: nothing without an events
    bucket. *)
Definition summaryOfDay (entry : string * dayBucket) : list string :=
  match events (snd entry) with
  | Some evs => summariseDay evs (fst entry)
  | None => []
  end.

(** The loop of [showSummary] over the days from the cursor position. *)
Fixpoint showDays (endTomorrow : bool) (count : Z)
    (days : list (string * dayBucket)) : list string :=
  match days with
  | [] => []
  | entry :: rest =>
      if endTomorrow then
        if count - 1 <=? 0 then summaryOfDay entry
        else summaryOfDay entry ++ showDays endTomorrow (count - 1) rest
      else summaryOfDay entry ++ showDays endTomorrow count rest
  end.

(** [showSummary]: the lines handed to the tab writer. *)
Definition showSummary (db : database) (startToday endTomorrow : bool)
    (todayKey : string) : list string :=
  let firstDay := if startToday then Bolt.Seek String.compare todayKey db
                  else db in
  let count := if startToday && endTomorrow then 2 else 0 in
  summaryHeader :: showDays endTomorrow count firstDay.
End Summaries.

(** The entries are in ascending order of start time. *)
Definition byStartTime (l : list Summary.summary) : Prop :=
  Sorted (fun a b => (Summary.StartTime b <? Summary.StartTime a)%string = false) l.

(* ===================================================================== *)
(** ** Well-formed stores *)
(* ===================================================================== *)

(** An events bucket as Bolt and [updateEvent] keep it: the session keys
    ascend, and every bucket's latest snapshot is filed under its own
    session identifier. *)
Definition wellFormedEvents (evb : eventsBucket) : Prop :=
  Bolt.ascending String.compare evb /\ wellKeyed evb.

(** A database whose day keys ascend and whose days have well-formed events
    buckets. *)
Definition wellFormedDatabase (db : database) : Prop :=
  Bolt.ascending String.compare db
  /\ forall day b, Bolt.Get String.compare day db = Some b ->
       wellFormedEvents (eventsOfDay b).


(* ===================================================================== *)
(** ** A second pass over the same listing *)
(* ===================================================================== *)

(** The counter of a session bucket has room for two more snapshots, and
    the sequence keys in use do not exceed it. *)
Definition roomy (b : sessionBucket) : Prop :=
  0 <= sequence b < 2 ^ 64 - 2
  /\ Forall (fun kv : Z * value => fst kv <= sequence b) (snapshots b).

(** The same booking site, timezone data and product decoder, read at
    other times. *)
Definition retimed (E : env) (pollTime' : string -> ProductId -> Z)
    (scanTime' : string -> Z) : env :=
  {| parseTimeLocally := parseTimeLocally E;
     getEventsInfo := getEventsInfo E;
     unmarshalProducts := unmarshalProducts E;
     pollTime := pollTime';
     scanTime := scanTime' |}.

(** The events that the booking site lists for the products of a day, in
    the order in which the pass meets them. *)
Definition listedEvents (E : env) (day : string) (pids : list ProductId)
  : list EventInfo :=
  flat_map (fun pid => match getEventsInfo E day pid with
                       | Some evs => evs
                       | None => []
                       end) pids.

(** The latest snapshot stored for the session of [ev] has the details of
    [ev] and is not marked cancelled. *)
Definition upToDate (evb : eventsBucket) (ev : EventInfo) : Prop :=
  SessionId ev <> ""
  /\ exists cur,
       latestSnapshot evb (SessionId ev) = Some cur
       /\ sameDetails {| embeddedEventInfo := ev; UpdatedAt := 0;
                         Cancelled := false |} cur = true.


(* ===================================================================== *)
(** ** Sessions and their snapshots *)
(* ===================================================================== *)

(** Every session bucket of the day has a latest snapshot that decodes.
    [updateEvent] is the only writer of session buckets, and it stores a
    snapshot in the transaction in which it creates the bucket. *)
Definition snapshotted (evb : eventsBucket) : Prop :=
  forall sid sessb, In (sid, sessb) evb ->
    exists lastEv, getMostRecentDetails sessb = inr lastEv.

Definition snapshottedDatabase (db : database) : Prop :=
  forall day b, In (day, b) db -> snapshotted (eventsOfDay b).

(** The cancellation scan as the specification words it: a session without
    a latest snapshot is skipped and the scan goes on with the next
    session.  Everything else is as in [cancelScan]. *)
Fixpoint cancelScanAsSpecified (E : env) (evCtx : EventContext) (now : Z)
    (seen : list string) (sids : list string) (evb : eventsBucket) : run :=
  match sids with
  | [] => {| store := evb; trace := []; failure := None |}
  | sid :: rest =>
      match Bolt.Get String.compare sid evb with
      | None => cancelScanAsSpecified E evCtx now seen rest evb
      | Some sessb =>
          match getMostRecentDetails sessb with
          | inl _ =>
              (* none exists: skip, nothing to cancel *)
              cancelScanAsSpecified E evCtx now seen rest evb
          | inr lastEv =>
              match parseTimeLocally E (Day evCtx)
                      (StartTime (embeddedEventInfo lastEv)) with
              | None => cancelScanAsSpecified E evCtx now seen rest evb
              | Some t =>
                  if t <? now then
                    {| store := evb; trace := []; failure := None |}
                  else if isSessionInList seen sid then
                    cancelScanAsSpecified E evCtx now seen rest evb
                  else
                    let r := updateEvent evb evCtx
                               {| embeddedEventInfo := embeddedEventInfo lastEv;
                                  UpdatedAt := now; Cancelled := true |} in
                    match failure r with
                    | Some err =>
                        {| store := store r; trace := trace r;
                           failure := Some (ErrCancelEvent err) |}
                    | None =>
                        let r' := cancelScanAsSpecified E evCtx now seen rest
                                    (store r) in
                        {| store := store r'; trace := trace r ++ trace r';
                           failure := failure r' |}
                    end
              end
          end
      end
  end.

(* ===================================================================== *)
(** * Properties *)
(* ===================================================================== *)

(** RFC 4648 test vectors for base32hex, without padding. *)
Example base32hex_foobar :
  map idEncoder [""; "f"; "fo"; "foo"; "foob"; "fooba"; "foobar"]
  = [""; "CO"; "CPNG"; "CPNMU"; "CPNMUOG"; "CPNMUOJ1"; "CPNMUOJ1E8"].
Proof. reflexivity. Qed.

Section Base32Facts.
Import Base32 Strings.

Lemma bitsOfString_length (s : string) :
  List.length (bitsOfString s) = (8 * String.length s)%nat.
Proof.
  induction s as [|c r IH]; [reflexivity|].
  destruct c; cbn [bitsOfString bitsOfByte String.length].
  rewrite length_app, IH. cbn [List.length]. lia.
Qed.

Lemma bitsOfString_inj (s1 s2 : string) :
  bitsOfString s1 = bitsOfString s2 -> s1 = s2.
Proof.
  revert s2; induction s1 as [|c1 r1 IH]; intros [|c2 r2] H.
  - reflexivity.
  - destruct c2; discriminate H.
  - destruct c1; discriminate H.
  - destruct c1, c2; cbn in H. injection H as -> -> -> -> -> -> -> -> H.
    f_equal. now apply IH.
Qed.

Lemma app_same_length_head {A} (a b c d : list A) :
  List.length a = List.length b -> a ++ c = b ++ d -> a = b.
Proof.
  revert b; induction a as [|x a IH]; intros [|y b] L E;
    try discriminate L; [reflexivity|].
  cbn in L, E. injection L as L. injection E as -> E.
  f_equal. now apply IH.
Qed.

(** Regrouping loses nothing: the digits spell the input bits followed by
    at most four zero bits. *)
Lemma quintets_bits_upto (n : nat) :
  forall bs : list bool, (List.length bs <= n)%nat ->
  exists k, (k <= 4)%nat /\ bitsOfQuintets (quintets bs) = bs ++ repeat false k.
Proof.
  induction n as [n IH] using (well_founded_induction lt_wf).
  intros bs Hlen.
  destruct bs as [|a [|b [|c [|d [|e rest]]]]].
  - exists 0%nat; split; [lia|reflexivity].
  - exists 4%nat; split; [lia|reflexivity].
  - exists 3%nat; split; [lia|reflexivity].
  - exists 2%nat; split; [lia|reflexivity].
  - exists 1%nat; split; [lia|reflexivity].
  - destruct (IH (List.length rest)) with (bs := rest) as (k & Hk & E).
    + cbn [List.length] in Hlen. lia.
    + lia.
    + exists k; split; [exact Hk|].
      cbn [quintets bitsOfQuintets flat_map app].
      change (flat_map _ (quintets rest)) with (bitsOfQuintets (quintets rest)).
      now rewrite E.
Qed.

Lemma quintets_inj (s1 s2 : string) :
  quintets (bitsOfString s1) = quintets (bitsOfString s2) -> s1 = s2.
Proof.
  intro H. apply bitsOfString_inj.
  destruct (quintets_bits_upto _ (bitsOfString s1) (le_n _)) as (k1 & H1 & E1).
  destruct (quintets_bits_upto _ (bitsOfString s2) (le_n _)) as (k2 & H2 & E2).
  rewrite H, E2 in E1.
  assert (L : List.length (bitsOfString s2 ++ repeat false k2)
              = List.length (bitsOfString s1 ++ repeat false k1)) by now rewrite E1.
  rewrite !length_app, !repeat_length, !bitsOfString_length in L.
  assert (Hs : List.length (bitsOfString s1) = List.length (bitsOfString s2))
    by (rewrite !bitsOfString_length; lia).
  symmetry. exact (app_same_length_head _ _ _ _ (eq_sym Hs) E1).
Qed.

Lemma decode_encode_lower (q : quintet) :
  decodeLowerChar (toLowerByte (encodeChar q)) = q.
Proof. destruct q as [[[[[] []] []] []] []]; reflexivity. Qed.

Lemma encode_lower_not_upper (q : quintet) :
  isUpperByte (toLowerByte (encodeChar q)) = false.
Proof. destruct q as [[[[[] []] []] []] []]; reflexivity. Qed.

Lemma ToLower_stringOfList (l : list ascii) :
  ToLower (stringOfList l) = stringOfList (map toLowerByte l).
Proof. induction l as [|c r IH]; cbn; [reflexivity | now rewrite IH]. Qed.

Lemma stringOfList_inj (l1 l2 : list ascii) :
  stringOfList l1 = stringOfList l2 -> l1 = l2.
Proof.
  revert l2; induction l1 as [|c r IH]; intros [|c' r'] H;
    try discriminate H; [reflexivity|].
  cbn in H. injection H as -> H. f_equal. now apply IH.
Qed.

Lemma lower_digits_inj (qs1 qs2 : list quintet) :
  map toLowerByte (map encodeChar qs1) = map toLowerByte (map encodeChar qs2) ->
  qs1 = qs2.
Proof.
  revert qs2; induction qs1 as [|q r IH]; intros [|q' r'] H;
    try discriminate H; [reflexivity|].
  cbn [map] in H. injection H as Hq H. f_equal; [|now apply IH].
  rewrite <- (decode_encode_lower q), <- (decode_encode_lower q').
  now rewrite Hq.
Qed.

Lemma gcalEventId_inj (s1 s2 : string) :
  gcalEventId s1 = gcalEventId s2 -> s1 = s2.
Proof.
  unfold gcalEventId, idEncoder, EncodeToString.
  rewrite !ToLower_stringOfList. intro H.
  apply stringOfList_inj, lower_digits_inj in H.
  now apply quintets_inj.
Qed.

Lemma gcalEventId_isLower (s : string) : isLower (gcalEventId s) = true.
Proof.
  unfold gcalEventId, idEncoder, EncodeToString.
  rewrite ToLower_stringOfList.
  induction (quintets (bitsOfString s)) as [|q r IH]; [reflexivity|].
  cbn [map stringOfList isLower].
  now rewrite encode_lower_not_upper, IH.
Qed.

Lemma ToLower_fixes_lower (s : string) : isLower s = true -> ToLower s = s.
Proof.
  induction s as [|c r IH]; [reflexivity|].
  cbn [isLower ToLower]. intros [Hc Hr]%andb_prop.
  rewrite (IH Hr). f_equal.
  unfold toLowerByte, isUpperByte in *.
  now destruct ((65 <=? nat_of_ascii c)%nat && (nat_of_ascii c <=? 90)%nat).
Qed.

End Base32Facts.

(** C9.  The identifier that [makeGCalEvent] gives a calendar event is
    [gcalEventId] of the session identifier and of nothing else: whatever
    the rest of the event, the context, the timestamp and the collaborators
    of the two calls, two events get the same identifier exactly when their
    session identifiers are equal (base32hex without padding, lower-cased,
    is injective), and the identifier contains no upper-case letter. *)
Theorem makeGCalEvent_id_deterministic_lowercase_injective
    (E1 E2 : env) (link1 link2 : ProductId -> string) (stamp1 stamp2 : Z -> string)
    (ev1 ev2 : EventInfo) (evCtx1 evCtx2 : EventContext) (ts1 ts2 : Z)
    (c1 c2 : GCalEvent) :
  makeGCalEvent E1 link1 stamp1 ev1 evCtx1 ts1 = inr c1 ->
  makeGCalEvent E2 link2 stamp2 ev2 evCtx2 ts2 = inr c2 ->
  Id c1 = gcalEventId (SessionId ev1)
  /\ (Id c1 = Id c2 <-> SessionId ev1 = SessionId ev2)
  /\ Strings.isLower (Id c1) = true
  /\ Strings.ToLower (Id c1) = Id c1.
Proof.
  unfold makeGCalEvent. intros H1 H2.
  destruct (parseTimeLocally E1 _ (StartTime ev1)); [|discriminate].
  destruct (parseTimeLocally E1 _ (EndTime ev1)); [|discriminate].
  destruct (parseTimeLocally E2 _ (StartTime ev2)); [|discriminate].
  destruct (parseTimeLocally E2 _ (EndTime ev2)); [|discriminate].
  injection H1 as <-. injection H2 as <-. cbn [Id].
  split; [reflexivity|]. split; [|split].
  - split; [apply gcalEventId_inj|now intros ->].
  - apply gcalEventId_isLower.
  - apply ToLower_fixes_lower, gcalEventId_isLower.
Qed.

Lemma makeGCalEvent_id_deterministic_lowercase_injective_witness :
  let W := Sample.world Sample.nothingListed 0 in
  let c1 := {| Id := "acog"; Summary := "Patch Ice";
               Description :=
                 ("0 Academy, 15 other booked" ++ Fmt.newline ++ Fmt.newline
                  ++ "Last updated: " ++ Fmt.newline)%string;
               EventLocation := "Arena";
               StartDateTime := Sample.tenOClock;
               EndDateTime := Sample.tenOClock + 13 * 3600 * Second |} in
  let c2 := {| Id := "acp0"; Summary := "Patch Ice";
               Description :=
                 ("0 Academy, 17 other booked" ++ Fmt.newline ++ Fmt.newline
                  ++ "Last updated: " ++ Fmt.newline)%string;
               EventLocation := "Arena";
               StartDateTime := Sample.tenOClock + 3600 * Second;
               EndDateTime := Sample.tenOClock + 13 * 3600 * Second |} in
  makeGCalEvent W Sample.noLink Sample.noStamp
    (Sample.session "S1" "10:00:00" 5) Sample.ctx 0 = inr c1
  /\ makeGCalEvent W Sample.noLink Sample.noStamp
       (Sample.session "S2" "11:00:00" 3) Sample.ctx 60 = inr c2
  /\ Id c1 <> Id c2.
Proof.
  intros W c1 c2.
  assert (H1 : makeGCalEvent W Sample.noLink Sample.noStamp
                 (Sample.session "S1" "10:00:00" 5) Sample.ctx 0 = inr c1)
    by (vm_compute; reflexivity).
  assert (H2 : makeGCalEvent W Sample.noLink Sample.noStamp
                 (Sample.session "S2" "11:00:00" 3) Sample.ctx 60 = inr c2)
    by (vm_compute; reflexivity).
  split; [exact H1|]. split; [exact H2|].
  intro Hid.
  apply (proj1 (proj2 (makeGCalEvent_id_deterministic_lowercase_injective
                         _ _ _ _ _ _ _ _ _ _ _ _ _ _ H1 H2))) in Hid.
  discriminate Hid.
Defined.

Example parseTimeUTC_first_of_march :
  Sample.parseTimeUTC "2024-03-01" "10:00:00" = Some Sample.tenOClock
  /\ Sample.parseTimeUTC "1970-01-01" "00:00:00" = Some 0
  /\ Sample.parseTimeUTC "2024-02-30" "10:00:00" = None
  /\ Sample.parseTimeUTC "2024-03-01" "ten" = None.
Proof. repeat split; reflexivity. Qed.

Example unmarshal_marshal_products :
  Sample.unmarshalPlainProducts
    (marshalProducts Sample.plainJsonString (Slice ["p1"; "p2"]))
  = Some ["p1"; "p2"]
  /\ dayKey {| year := 2024; month := 3; day := 1 |} = "2024-03-01"
  /\ dayKey {| year := 987; month := 12; day := 25 |} = "0987-12-25".
Proof. repeat split; reflexivity. Qed.

(* --------------------------------------------------------------------- *)
(** ** Buckets *)

Section BucketFacts.
Context {K V : Type}.
Variable cmp : K -> K -> comparison.
Hypothesis cmp_eq : forall a b, cmp a b = Eq <-> a = b.

Lemma Get_Put_same (k : K) (v : V) (b : Bolt.bucket (K := K) (V := V)) :
  Bolt.Get cmp k (Bolt.Put cmp k v b) = Some v.
Proof.
  assert (R : cmp k k = Eq) by now apply cmp_eq.
  induction b as [|[k' v'] r IH]; cbn.
  - now rewrite R.
  - destruct (cmp k k') eqn:C; cbn; rewrite ?R, ?C; auto.
Qed.

Lemma Get_Put_other (k k2 : K) (v : V) (b : Bolt.bucket (K := K) (V := V)) :
  k2 <> k -> Bolt.Get cmp k2 (Bolt.Put cmp k v b) = Bolt.Get cmp k2 b.
Proof.
  intro Hne.
  assert (N : cmp k2 k <> Eq) by (intro C; now apply cmp_eq in C).
  induction b as [|[k' v'] r IH]; cbn.
  - now destruct (cmp k2 k).
  - destruct (cmp k k') eqn:C; cbn.
    + apply cmp_eq in C; subst k'. now destruct (cmp k2 k).
    + now destruct (cmp k2 k).
    + now rewrite IH.
Qed.

Lemma Get_Some_In (k : K) (v : V) (b : Bolt.bucket (K := K) (V := V)) :
  Bolt.Get cmp k b = Some v -> In (k, v) b.
Proof.
  induction b as [|[k' v'] r IH]; cbn; [discriminate|].
  destruct (cmp k k') eqn:C; intro H; auto.
  injection H as ->. apply cmp_eq in C. subst. now left.
Qed.

Hypothesis cmp_antisym : forall a b, cmp a b = CompOpp (cmp b a).

Lemma Keys_Put_present (k : K) (v v0 : V) (b : Bolt.bucket (K := K) (V := V)) :
  Bolt.ascending cmp b ->
  Bolt.Get cmp k b = Some v0 -> Bolt.Keys (Bolt.Put cmp k v b) = Bolt.Keys b.
Proof.
  unfold Bolt.Keys.
  induction b as [|[k' v'] r IH]; cbn; [discriminate|].
  intros [Hall Hr].
  destruct (cmp k k') eqn:C; cbn; intro H.
  - apply cmp_eq in C. now subst.
  - exfalso. apply Get_Some_In in H.
    rewrite Forall_forall in Hall. specialize (Hall _ H). cbn in Hall.
    rewrite cmp_antisym, Hall in C. discriminate C.
  - f_equal. now apply IH.
Qed.

Lemma ascending_Keys (b b' : Bolt.bucket (K := K) (V := V)) :
  Bolt.Keys b' = Bolt.Keys b -> Bolt.ascending cmp b -> Bolt.ascending cmp b'.
Proof.
  unfold Bolt.Keys.
  revert b'; induction b as [|[k v] r IH]; intros [|[k' v'] r'] E;
    try discriminate E; [easy|].
  cbn in E. injection E as -> E. cbn. intros [Hall Hr]. split; [|now apply IH].
  rewrite Forall_forall in *. intros [k2 v2] Hin. cbn.
  assert (In k2 (map fst r)) as ([k3 v3] & <- & Hin3)%in_map_iff
    by (rewrite <- E; apply in_map_iff; now exists (k2, v2)).
  exact (Hall _ Hin3).
Qed.

Lemma ascending_NoDup (b : Bolt.bucket (K := K) (V := V)) :
  Bolt.ascending cmp b -> NoDup (Bolt.Keys b).
Proof.
  unfold Bolt.Keys.
  induction b as [|[k v] r IH]; cbn; [constructor|].
  intros [Hall Hr]. constructor; [|now apply IH].
  intros ([k' v'] & E & Hin)%in_map_iff. cbn in E. subst k'.
  rewrite Forall_forall in Hall. specialize (Hall _ Hin). cbn in Hall.
  now rewrite (proj2 (cmp_eq k k) eq_refl) in Hall.
Qed.

Lemma Get_In_key (k : K) (v : V) (b : Bolt.bucket (K := K) (V := V)) :
  In (k, v) b -> Bolt.Get cmp k b <> None.
Proof.
  assert (R : cmp k k = Eq) by now apply cmp_eq.
  induction b as [|[k' v'] r IH]; cbn; [tauto|].
  intros [H|H].
  - injection H as -> ->. now rewrite R.
  - destruct (cmp k k'); [discriminate| |]; now apply IH.
Qed.

Lemma Last_snoc (b : Bolt.bucket (K := K) (V := V)) (kv : K * V) :
  Bolt.Last (b ++ [kv]) = Some kv.
Proof.
  induction b as [|x r IH]; [reflexivity|].
  cbn [app Bolt.Last]. rewrite IH. now destruct (r ++ [kv]) eqn:D; [destruct r|].
Qed.

Lemma Last_cons (x : K * V) (b : Bolt.bucket (K := K) (V := V)) :
  b <> [] -> Bolt.Last (x :: b) = Bolt.Last b.
Proof. now destruct b. Qed.

End BucketFacts.

Lemma string_compare_eq (a b : string) : (a ?= b)%string = Eq <-> a = b.
Proof.
  split; [apply String.compare_eq_iff|intros ->].
  pose proof (String.compare_antisym b b) as H.
  now destruct (b ?= b)%string.
Qed.

Lemma Put_snoc (k : Z) (v : value) (b : Bolt.bucket) :
  Forall (fun kv : Z * value => fst kv < k) b ->
  Bolt.Put Z.compare k v b = b ++ [(k, v)].
Proof.
  induction 1 as [|[k' v'] r Hk _ IH]; [reflexivity|].
  cbn in *. rewrite (proj2 (Z.compare_gt_iff k k')) by lia. now rewrite IH.
Qed.

(* --------------------------------------------------------------------- *)
(** ** [updateEvent] *)

Lemma string_compare_antisym (a b : string) :
  (a ?= b)%string = CompOpp (b ?= a)%string.
Proof. apply String.compare_antisym. Qed.

Lemma events_Get_Put_same (sid : string) (b : sessionBucket) (evb : eventsBucket) :
  Bolt.Get String.compare sid (Bolt.Put String.compare sid b evb) = Some b.
Proof. apply Get_Put_same, string_compare_eq. Qed.

Lemma events_Get_Put_other (sid sid2 : string) (b : sessionBucket)
    (evb : eventsBucket) :
  sid2 <> sid ->
  Bolt.Get String.compare sid2 (Bolt.Put String.compare sid b evb)
  = Bolt.Get String.compare sid2 evb.
Proof. apply Get_Put_other, string_compare_eq. Qed.

Lemma sameDetails_spec (ev lastEv : timestampedEventInfo) :
  sameDetails ev lastEv = true <->
  ProductName (embeddedEventInfo ev) = ProductName (embeddedEventInfo lastEv)
  /\ Location (embeddedEventInfo ev) = Location (embeddedEventInfo lastEv)
  /\ StartTime (embeddedEventInfo ev) = StartTime (embeddedEventInfo lastEv)
  /\ EndTime (embeddedEventInfo ev) = EndTime (embeddedEventInfo lastEv)
  /\ TotalSpaces (embeddedEventInfo ev) = TotalSpaces (embeddedEventInfo lastEv)
  /\ AvailableSpaces (embeddedEventInfo ev)
     = AvailableSpaces (embeddedEventInfo lastEv)
  /\ CapacityFreeAcademy (embeddedEventInfo ev)
     = CapacityFreeAcademy (embeddedEventInfo lastEv)
  /\ AvailableFreeSpaces (embeddedEventInfo ev)
     = AvailableFreeSpaces (embeddedEventInfo lastEv)
  /\ Cancelled ev = Cancelled lastEv.
Proof.
  unfold sameDetails.
  rewrite !andb_true_iff, !String.eqb_eq, !Z.eqb_eq, Bool.eqb_true_iff.
  tauto.
Qed.

Lemma sameDetails_refl (ev : timestampedEventInfo) : sameDetails ev ev = true.
Proof. apply sameDetails_spec. repeat split. Qed.

Lemma CreateBucketIfNotExists_present (sid : string) (evb : eventsBucket)
    (b : sessionBucket) :
  sid <> "" -> Bolt.Get String.compare sid evb = Some b ->
  CreateBucketIfNotExists sid evb = Some (evb, b).
Proof.
  intros Hne Hget. unfold CreateBucketIfNotExists.
  rewrite (proj2 (String.eqb_neq sid "") Hne). now rewrite Hget.
Qed.

(** What a write leaves in the session bucket: the counter moves up by one
    and the snapshot goes to the end of the sequence. *)
Lemma write_appends (b : sessionBucket) (v : value) :
  sequenced b ->
  putSnapshot (fst (NextSequence b)) v (snd (NextSequence b))
  = {| snapshots := snapshots b ++ [(sequence b + 1, v)];
       sequence := sequence b + 1 |}.
Proof.
  intros [Hseq Hkeys]. unfold NextSequence, putSnapshot. cbn.
  rewrite Z.mod_small by lia. f_equal.
  apply Put_snoc. eapply Forall_impl; [|exact Hkeys]. cbn. intros; lia.
Qed.

Lemma updateEvent_unchanged (evb : eventsBucket) (evCtx : EventContext)
    (ev lastEv : timestampedEventInfo) (b : sessionBucket) :
  SessionId (embeddedEventInfo ev) <> "" ->
  Bolt.Get String.compare (SessionId (embeddedEventInfo ev)) evb = Some b ->
  getMostRecentDetails b = inr lastEv ->
  sameDetails ev lastEv = true ->
  updateEvent evb evCtx ev = {| store := evb; trace := []; failure := None |}.
Proof.
  intros Hne Hget Hlast Hsame. unfold updateEvent.
  rewrite (CreateBucketIfNotExists_present _ _ _ Hne Hget).
  now rewrite Hlast, Hsame.
Qed.

Lemma updateEvent_updated (evb : eventsBucket) (evCtx : EventContext)
    (ev lastEv : timestampedEventInfo) (b : sessionBucket) :
  SessionId (embeddedEventInfo ev) <> "" ->
  Bolt.Get String.compare (SessionId (embeddedEventInfo ev)) evb = Some b ->
  getMostRecentDetails b = inr lastEv ->
  sameDetails ev lastEv = false ->
  updateEvent evb evCtx ev
  = {| store := Bolt.Put String.compare (SessionId (embeddedEventInfo ev))
                  (putSnapshot (fst (NextSequence b)) (Json ev)
                     (snd (NextSequence b))) evb;
       trace := [Log UpdatingEventInfo (Day evCtx) ev; CalendarSync ev evCtx;
                 PutSnapshot (SessionId (embeddedEventInfo ev))
                   (fst (NextSequence b)) ev];
       failure := None |}.
Proof.
  intros Hne Hget Hlast Hsame. unfold updateEvent.
  rewrite (CreateBucketIfNotExists_present _ _ _ Hne Hget).
  now rewrite Hlast, Hsame.
Qed.

Lemma Last_values (b : Bolt.bucket (K := Z) (V := value)) (k : Z) (v : value) :
  Bolt.Last b = Some (k, v) -> exists l, map snd b = l ++ [v].
Proof.
  induction b as [|x r IH]; [discriminate|].
  destruct r as [|y r'].
  - cbn. intros [= ->]. now exists [].
  - intro H. change (Bolt.Last (y :: r') = Some (k, v)) in H.
    destruct (IH H) as (l & E). exists (snd x :: l).
    cbn [map] in *. now rewrite E.
Qed.

Lemma diffTrail_snoc (l : list value) (v : value) (ev : timestampedEventInfo) :
  diffTrail (l ++ [v]) ->
  (forall a, v = Json a -> sameDetails ev a = false) ->
  diffTrail (l ++ [v; Json ev]).
Proof.
  intros Hl Hv. induction l as [|x l IH].
  - cbn. destruct v as [a|raw]; [|exact I]. split; [now apply Hv|exact I].
  - destruct l as [|y l'].
    + cbn in *. destruct x as [a|raw], v as [c|raw'];
        cbn in *; intuition auto.
    + cbn [app] in *. destruct x as [a|raw], y as [c|raw'];
        cbn [diffTrail] in *; intuition auto.
Qed.

(** C1.  When a session has a latest snapshot, [updateEvent] appends the
    incoming record exactly when it differs from that snapshot in one of
    the nine compared fields (product name, location, start and end time,
    total and available spaces, academy capacity and availability, the
    cancellation flag).  With equal fields it returns without writing
    anything; with a difference the record becomes the new last element.
    Either way the session's sequence stays free of repeats and its last
    element carries the fields of the incoming record. *)
Theorem updateEvent_appends_exactly_on_difference
    (evb : eventsBucket) (evCtx : EventContext)
    (ev lastEv : timestampedEventInfo) (b : sessionBucket) :
  SessionId (embeddedEventInfo ev) <> "" ->
  Bolt.Get String.compare (SessionId (embeddedEventInfo ev)) evb = Some b ->
  sequenced b ->
  getMostRecentDetails b = inr lastEv ->
  let sid := SessionId (embeddedEventInfo ev) in
  let r := updateEvent evb evCtx ev in
  failure r = None
  /\ (sameDetails ev lastEv = true -> store r = evb /\ trace r = [])
  /\ (sameDetails ev lastEv = false ->
      storedSequence (store r) sid = storedSequence evb sid ++ [Json ev])
  /\ (storedSequence (store r) sid <> storedSequence evb sid ->
      ~ (ProductName (embeddedEventInfo ev) = ProductName (embeddedEventInfo lastEv)
         /\ Location (embeddedEventInfo ev) = Location (embeddedEventInfo lastEv)
         /\ StartTime (embeddedEventInfo ev) = StartTime (embeddedEventInfo lastEv)
         /\ EndTime (embeddedEventInfo ev) = EndTime (embeddedEventInfo lastEv)
         /\ TotalSpaces (embeddedEventInfo ev)
            = TotalSpaces (embeddedEventInfo lastEv)
         /\ AvailableSpaces (embeddedEventInfo ev)
            = AvailableSpaces (embeddedEventInfo lastEv)
         /\ CapacityFreeAcademy (embeddedEventInfo ev)
            = CapacityFreeAcademy (embeddedEventInfo lastEv)
         /\ AvailableFreeSpaces (embeddedEventInfo ev)
            = AvailableFreeSpaces (embeddedEventInfo lastEv)
         /\ Cancelled ev = Cancelled lastEv))
  /\ (forall sid', sid' <> sid ->
      storedSequence (store r) sid' = storedSequence evb sid')
  /\ (diffTrail (storedSequence evb sid) ->
      diffTrail (storedSequence (store r) sid))
  /\ (exists cur, latestSnapshot (store r) sid = Some cur
                  /\ sameDetails ev cur = true).
Proof.
  intros Hne Hget Hseq Hlast sid r.
  set (sid0 := SessionId (embeddedEventInfo ev)) in *. subst sid.
  assert (Hold : storedSequence evb sid0 = map snd (snapshots b))
    by (unfold storedSequence; now rewrite Hget).
  destruct (sameDetails ev lastEv) eqn:Hsame.
  - assert (Hr : r = {| store := evb; trace := []; failure := None |})
      by (eapply updateEvent_unchanged; eauto).
    rewrite Hr; cbn.
    split; [reflexivity|]. split; [auto|]. split; [discriminate|].
    split; [intro H; now contradiction H|]. split; [reflexivity|].
    split; [auto|].
    exists lastEv. unfold latestSnapshot. now rewrite Hget, Hlast.
  - assert (Hr := updateEvent_updated evb evCtx ev lastEv b Hne Hget Hlast Hsame).
    fold sid0 r in Hr. rewrite (write_appends b (Json ev) Hseq) in Hr.
    assert (Hnew : storedSequence (store r) sid0
                   = storedSequence evb sid0 ++ [Json ev]).
    { rewrite Hr, Hold. unfold storedSequence; cbn.
      rewrite events_Get_Put_same. cbn. now rewrite map_app. }
    split; [now rewrite Hr|]. split; [discriminate|]. split; [auto|].
    split; [|split; [|split]].
    + intros _ Hall. apply sameDetails_spec in Hall. congruence.
    + intros sid' Hsid'. rewrite Hr. unfold storedSequence; cbn.
      now rewrite events_Get_Put_other.
    + intro Htrail. rewrite Hnew, Hold in *.
      unfold getMostRecentDetails in Hlast.
      destruct (Bolt.Last (snapshots b)) as [[k v]|] eqn:HL; [|discriminate].
      destruct (Last_values _ _ _ HL) as (l & El). rewrite El in *.
      rewrite <- app_assoc. apply diffTrail_snoc; [exact Htrail|].
      intros a ->. now injection Hlast as ->.
    + exists ev. split; [|apply sameDetails_refl].
      rewrite Hr. unfold latestSnapshot; cbn. rewrite events_Get_Put_same.
      unfold getMostRecentDetails; cbn.
      now rewrite (Last_snoc (snapshots b) (sequence b + 1, Json ev)).
Qed.

Lemma updateEvent_appends_exactly_on_difference_witness :
  let ev := Sample.snapshot "S1" "10:00:00" 3 60 false in
  let lastEv := Sample.snapshot "S1" "10:00:00" 5 0 false in
  sequenced (Sample.oneSnapshot lastEv)
  /\ sameDetails ev lastEv = false
  /\ storedSequence (store (updateEvent Sample.seenOnce Sample.ctx ev)) "S1"
     = [Json lastEv; Json ev].
Proof.
  intros ev lastEv.
  assert (Hseq : sequenced (Sample.oneSnapshot lastEv)).
  { split; [cbn; lia|]. repeat constructor. cbn. lia. }
  split; [exact Hseq|]. split; [reflexivity|].
  refine (proj1 (proj2 (proj2
            (updateEvent_appends_exactly_on_difference Sample.seenOnce Sample.ctx
               ev lastEv (Sample.oneSnapshot lastEv) _ eq_refl Hseq eq_refl)))
          eq_refl).
  discriminate.
Defined.

(* --------------------------------------------------------------------- *)
(** ** The order of calendar sync and write *)

Lemma syncThenPut_app (a b : list effect) :
  syncThenPut a -> syncThenPut b -> syncThenPut (a ++ b).
Proof. induction 1; cbn; intros; try constructor; auto. Qed.

Lemma updateEvent_syncThenPut (evb : eventsBucket) (evCtx : EventContext)
    (ev : timestampedEventInfo) :
  syncThenPut (trace (updateEvent evb evCtx ev)).
Proof.
  unfold updateEvent.
  destruct (CreateBucketIfNotExists _ evb) as [[evb1 b]|]; [|constructor].
  destruct (getMostRecentDetails b) as [e|lastEv];
    [|destruct (sameDetails ev lastEv)]; cbn; repeat constructor.
Qed.

Section PassTraces.
Variable E : env.

Lemma addEvents_syncThenPut (evCtx : EventContext) (now : Z)
    (evs : list EventInfo) :
  forall evb seen,
    syncThenPut (trace (fst (addEvents evCtx now evs evb seen))).
Proof.
  induction evs as [|ev rest IH]; intros evb seen; cbn; [constructor|].
  pose proof (updateEvent_syncThenPut evb evCtx
                {| embeddedEventInfo := ev; UpdatedAt := now;
                   Cancelled := false |}) as H.
  destruct (failure (updateEvent evb evCtx _)); [exact H|].
  specialize (IH (store (updateEvent evb evCtx
                  {| embeddedEventInfo := ev; UpdatedAt := now;
                     Cancelled := false |})) (seen ++ [SessionId ev])).
  destruct (addEvents evCtx now rest _ _) as [r' seen']. cbn in *.
  now apply syncThenPut_app.
Qed.

Lemma pollProducts_syncThenPut (day : string) (pids : list ProductId) :
  forall evb seen,
    syncThenPut (trace (fst (pollProducts E day pids evb seen))).
Proof.
  induction pids as [|pid rest IH]; intros evb seen; cbn; [constructor|].
  destruct (getEventsInfo E day pid) as [evs|]; [|constructor].
  pose proof (addEvents_syncThenPut {| Day := day; Product := pid |}
                (pollTime E day pid) evs evb seen) as H.
  destruct (addEvents _ _ evs evb seen) as [r seen1]. cbn in H.
  destruct (failure r); [exact H|].
  specialize (IH (store r) seen1).
  destruct (pollProducts E day rest (store r) seen1) as [r' seen2]. cbn in *.
  now apply syncThenPut_app.
Qed.

Lemma cancelScan_syncThenPut (evCtx : EventContext) (now : Z)
    (seen sids : list string) :
  forall evb, syncThenPut (trace (cancelScan E evCtx now seen sids evb)).
Proof.
  induction sids as [|sid rest IH]; intro evb; cbn; [constructor|].
  destruct (Bolt.Get String.compare sid evb) as [sessb|]; [|apply IH].
  destruct (getMostRecentDetails sessb) as [e|lastEv]; [constructor|].
  destruct (parseTimeLocally E _ _) as [t|]; [|apply IH].
  destruct (t <? now); [constructor|].
  destruct (isSessionInList seen sid); [apply IH|].
  match goal with
  | |- context [updateEvent evb evCtx ?c] =>
      pose proof (updateEvent_syncThenPut evb evCtx c) as H;
      destruct (failure (updateEvent evb evCtx c)); [exact H|];
      cbn; apply syncThenPut_app; [exact H|apply IH]
  end.
Qed.

Lemma checkEventsForDay_syncThenPut (b : dayBucket) (evCtx : EventContext) :
  syncThenPut (snd (fst (checkEventsForDay E b evCtx))).
Proof.
  unfold checkEventsForDay.
  destruct (match products b with
            | Some raw => unmarshalProducts E raw
            | None => None
            end) as [pids|]; [|constructor].
  pose proof (pollProducts_syncThenPut (Day evCtx) pids
                (match events b with Some evb => evb | None => [] end) [])
    as H.
  destruct (pollProducts E (Day evCtx) pids _ []) as [r seen]. cbn in H.
  destruct (failure r); [exact H|]. cbn.
  apply syncThenPut_app; [exact H|apply cancelScan_syncThenPut].
Qed.
End PassTraces.

(** C2, as the code has it.  In a pass over a day every calendar sync is
    immediately followed by the write of the snapshot it synchronised, and
    nothing else is written: the sync is attempted first and the snapshot is
    put into its session bucket afterwards, whatever the sync came to. *)
Theorem checkEventsForDay_syncs_then_writes (E : env) (b : dayBucket)
    (evCtx : EventContext) :
  syncThenPut (snd (fst (checkEventsForDay E b evCtx))).
Proof. apply checkEventsForDay_syncThenPut. Qed.

(** C2, counterexample.  On a fresh day with one listed session, the pass
    syncs the new snapshot to the calendar before any write of it: the
    effects before the sync hold no [PutSnapshot]. *)
Lemma checkEventsForDay_syncs_before_write :
  let ev := Sample.snapshot "S1" "10:00:00" 5 0 false in
  let res := checkEventsForDay (Sample.world Sample.listsS1 0) Sample.freshDay
               {| Day := "2024-03-01"; Product := "" |} in
  snd res = None
  /\ snd (fst res) = [Log CreatingEventInfo "2024-03-01" ev;
                      CalendarSync ev Sample.ctx; PutSnapshot "S1" 1 ev]
  /\ ~ persistedBeforeSync (snd (fst res)).
Proof.
  intros ev res.
  assert (Htr : snd (fst res)
                = [Log CreatingEventInfo "2024-03-01" ev;
                   CalendarSync ev Sample.ctx; PutSnapshot "S1" 1 ev])
    by (vm_compute; reflexivity).
  split; [vm_compute; reflexivity|]. split; [exact Htr|].
  rewrite Htr. intro H.
  destruct (H [Log CreatingEventInfo "2024-03-01" ev] ev Sample.ctx
              [PutSnapshot "S1" 1 ev] eq_refl) as (key & [Hin|[]]).
  discriminate Hin.
Qed.

(* --------------------------------------------------------------------- *)
(** ** The cancellation scan *)

Lemma Last_Put {K V : Type} (cmp : K -> K -> comparison) (k : K) (v : V)
    (b : Bolt.bucket (K := K) (V := V)) :
  Bolt.Last (Bolt.Put cmp k v b) = Some (k, v)
  \/ Bolt.Last (Bolt.Put cmp k v b) = Bolt.Last b.
Proof.
  induction b as [|[k' v'] r IH]; [now left|].
  cbn [Bolt.Put]. destruct (cmp k k').
  - destruct r; [now left|now right].
  - now right.
  - assert (Hne : Bolt.Put cmp k v r <> []) by (destruct r as [|[? ?] ?]; cbn;
      [discriminate|destruct (cmp k k0); discriminate]).
    rewrite (Last_cons (k', v') _ Hne).
    destruct IH as [IH|IH]; [now left|right].
    rewrite IH. destruct r; [|reflexivity].
    cbn in IH. discriminate IH.
Qed.

Lemma updateEvent_failure (evb : eventsBucket) (evCtx : EventContext)
    (ev : timestampedEventInfo) :
  SessionId (embeddedEventInfo ev) <> "" ->
  failure (updateEvent evb evCtx ev) = None.
Proof.
  intro Hne. unfold updateEvent, CreateBucketIfNotExists.
  rewrite (proj2 (String.eqb_neq _ "") Hne).
  destruct (Bolt.Get String.compare _ evb) as [b|].
  - destruct (getMostRecentDetails b) as [e|l]; [|destruct (sameDetails ev l)];
      reflexivity.
  - reflexivity.
Qed.

Lemma updateEvent_other (evb : eventsBucket) (evCtx : EventContext)
    (ev : timestampedEventInfo) (sid : string) :
  sid <> SessionId (embeddedEventInfo ev) ->
  Bolt.Get String.compare sid (store (updateEvent evb evCtx ev))
  = Bolt.Get String.compare sid evb.
Proof.
  intro Hne. unfold updateEvent, CreateBucketIfNotExists.
  destruct (SessionId (embeddedEventInfo ev) =? "")%string; [reflexivity|].
  destruct (Bolt.Get String.compare (SessionId _) evb) as [b|].
  - destruct (getMostRecentDetails b) as [e|l]; [|destruct (sameDetails ev l)];
      cbn; rewrite ?events_Get_Put_other; auto.
  - cbn. now rewrite !events_Get_Put_other.
Qed.

(** After [updateEvent], the latest snapshot of the session is the event
    or what it was before. *)
Lemma updateEvent_latest (evb : eventsBucket) (evCtx : EventContext)
    (ev : timestampedEventInfo) (b' : sessionBucket) (cur : timestampedEventInfo) :
  Bolt.Get String.compare (SessionId (embeddedEventInfo ev))
    (store (updateEvent evb evCtx ev)) = Some b' ->
  getMostRecentDetails b' = inr cur ->
  cur = ev
  \/ exists b, Bolt.Get String.compare (SessionId (embeddedEventInfo ev)) evb
               = Some b /\ getMostRecentDetails b = inr cur.
Proof.
  unfold updateEvent, CreateBucketIfNotExists.
  destruct (SessionId (embeddedEventInfo ev) =? "")%string.
  { cbn. intros H1 H2. right. now exists b'. }
  assert (W : forall b0 : sessionBucket,
             getMostRecentDetails
               (putSnapshot (fst (NextSequence b0)) (Json ev) (snd (NextSequence b0)))
             = inr cur ->
             cur = ev \/ getMostRecentDetails b0 = inr cur).
  { intros b0. unfold getMostRecentDetails, putSnapshot, NextSequence.
    cbn [fst snd snapshots sequence].
    destruct (Last_Put Z.compare ((sequence b0 + 1) mod 2 ^ 64) (Json ev)
                (snapshots b0)) as [-> | ->]; [|now right].
    intros [= <-]. now left. }
  destruct (Bolt.Get String.compare (SessionId _) evb) as [b|] eqn:G.
  - destruct (getMostRecentDetails b) as [e|l] eqn:D;
      [|destruct (sameDetails ev l)]; cbn.
    + rewrite events_Get_Put_same. intros [= <-] H.
      destruct (W b H) as [?|H']; [now left|]. right. now exists b.
    + rewrite G. intros [= <-] H. right. now exists b.
    + rewrite events_Get_Put_same. intros [= <-] H.
      destruct (W b H) as [?|H']; [now left|]. right. now exists b.
  - cbn. rewrite events_Get_Put_same. intros [= <-] H.
    destruct (W emptySession H) as [?|H']; [now left|]. discriminate H'.
Qed.

Lemma updateEvent_wellKeyed (evb : eventsBucket) (evCtx : EventContext)
    (ev : timestampedEventInfo) :
  SessionId (embeddedEventInfo ev) <> "" ->
  wellKeyed evb -> wellKeyed (store (updateEvent evb evCtx ev)).
Proof.
  intros Hne Hwk sid b' Hget.
  destruct (string_dec sid (SessionId (embeddedEventInfo ev))) as [->|Hsid].
  - split; [exact Hne|]. intros cur Hcur.
    destruct (updateEvent_latest _ _ _ _ _ Hget Hcur) as [->|(b & Hb & Hl)];
      [reflexivity|].
    exact (proj2 (Hwk _ _ Hb) _ Hl).
  - rewrite updateEvent_other in Hget by exact Hsid. exact (Hwk _ _ Hget).
Qed.

Lemma updateEvent_Keys (evb : eventsBucket) (evCtx : EventContext)
    (ev : timestampedEventInfo) (b : sessionBucket) :
  Bolt.ascending String.compare evb ->
  Bolt.Get String.compare (SessionId (embeddedEventInfo ev)) evb = Some b ->
  Bolt.Keys (store (updateEvent evb evCtx ev)) = Bolt.Keys evb.
Proof.
  intros Hasc Hget. unfold updateEvent, CreateBucketIfNotExists.
  destruct (SessionId (embeddedEventInfo ev) =? "")%string; [reflexivity|].
  rewrite Hget.
  destruct (getMostRecentDetails b) as [e|l]; [|destruct (sameDetails ev l)];
    cbn; try reflexivity;
    eapply Keys_Put_present; eauto using string_compare_eq, string_compare_antisym.
Qed.

Section Scan.
Variable E : env.
Variable evCtx : EventContext.
Variable seen : list string.

Lemma cancelScan_cons (now : Z) (sid : string) (rest : list string)
    (evb : eventsBucket) :
  cancelScan E evCtx now seen (sid :: rest) evb
  = match scanDecision E evCtx now seen evb sid with
    | Skip => cancelScan E evCtx now seen rest evb
    | Break => {| store := evb; trace := []; failure := None |}
    | Cancel c =>
        let r := updateEvent evb evCtx c in
        match failure r with
        | Some err => {| store := store r; trace := trace r;
                         failure := Some (ErrCancelEvent err) |}
        | None =>
            let r' := cancelScan E evCtx now seen rest (store r) in
            {| store := store r'; trace := trace r ++ trace r';
               failure := failure r' |}
        end
    end.
Proof.
  unfold scanDecision. cbn [cancelScan].
  destruct (Bolt.Get String.compare sid evb) as [sessb|]; [|reflexivity].
  destruct (getMostRecentDetails sessb) as [e|lastEv]; [reflexivity|].
  destruct (parseTimeLocally E _ _) as [t|]; [|reflexivity].
  destruct (t <? now); [reflexivity|].
  now destruct (isSessionInList seen sid).
Qed.

(** What a [Cancel] decision stands for. *)
Lemma scanDecision_Cancel (now : Z) (evb : eventsBucket) (sid : string)
    (c : timestampedEventInfo) :
  scanDecision E evCtx now seen evb sid = Cancel c ->
  exists sessb lastEv t,
    Bolt.Get String.compare sid evb = Some sessb
    /\ getMostRecentDetails sessb = inr lastEv
    /\ parseTimeLocally E (Day evCtx) (StartTime (embeddedEventInfo lastEv))
       = Some t
    /\ now <= t
    /\ isSessionInList seen sid = false
    /\ c = {| embeddedEventInfo := embeddedEventInfo lastEv;
              UpdatedAt := now; Cancelled := true |}.
Proof.
  unfold scanDecision.
  destruct (Bolt.Get String.compare sid evb) as [sessb|]; [|discriminate].
  destruct (getMostRecentDetails sessb) as [e|lastEv] eqn:D; [discriminate|].
  destruct (parseTimeLocally E _ _) as [t|] eqn:P; [|discriminate].
  destruct (t <? now) eqn:L; [discriminate|].
  destruct (isSessionInList seen sid) eqn:S; [discriminate|].
  intros [= <-]. exists sessb, lastEv, t.
  apply Z.ltb_ge in L. repeat split; auto.
Qed.

Lemma scanDecision_Cancel_key (now : Z) (evb : eventsBucket) (sid : string)
    (c : timestampedEventInfo) :
  wellKeyed evb ->
  scanDecision E evCtx now seen evb sid = Cancel c ->
  SessionId (embeddedEventInfo c) = sid /\ sid <> "".
Proof.
  intros Hwk (sessb & lastEv & t & G & D & _ & _ & _ & ->)%scanDecision_Cancel.
  destruct (Hwk _ _ G) as [Hne Hk]. split; [|exact Hne]. exact (Hk _ D).
Qed.

Lemma scanDecision_ext (now : Z) (evb evb' : eventsBucket) (sid : string) :
  Bolt.Get String.compare sid evb' = Bolt.Get String.compare sid evb ->
  scanDecision E evCtx now seen evb' sid = scanDecision E evCtx now seen evb sid.
Proof. unfold scanDecision. now intros ->. Qed.

Lemma cancelScan_failure (now : Z) (sids : list string) :
  forall evb, wellKeyed evb ->
    failure (cancelScan E evCtx now seen sids evb) = None.
Proof.
  induction sids as [|sid rest IH]; intros evb Hwk; [reflexivity|].
  rewrite cancelScan_cons.
  destruct (scanDecision E evCtx now seen evb sid) as [| |c] eqn:Dec;
    [now apply IH|reflexivity|].
  destruct (scanDecision_Cancel_key _ _ _ _ Hwk Dec) as [Hk Hne].
  cbv zeta. rewrite updateEvent_failure by congruence. cbn [store failure trace].
  apply IH, updateEvent_wellKeyed; [congruence|exact Hwk].
Qed.

Lemma cancelScan_wellKeyed (now : Z) (sids : list string) :
  forall evb, wellKeyed evb ->
    wellKeyed (store (cancelScan E evCtx now seen sids evb)).
Proof.
  induction sids as [|sid rest IH]; intros evb Hwk; [exact Hwk|].
  rewrite cancelScan_cons.
  destruct (scanDecision E evCtx now seen evb sid) as [| |c] eqn:Dec;
    [now apply IH|exact Hwk|].
  destruct (scanDecision_Cancel_key _ _ _ _ Hwk Dec) as [Hk Hne].
  cbv zeta. rewrite updateEvent_failure by congruence. cbn [store failure trace].
  apply IH, updateEvent_wellKeyed; [congruence|exact Hwk].
Qed.

(** The scan leaves alone every session it does not visit. *)
Lemma cancelScan_untouched (now : Z) (s : string) (sids : list string) :
  forall evb, wellKeyed evb -> ~ In s sids ->
    Bolt.Get String.compare s (store (cancelScan E evCtx now seen sids evb))
    = Bolt.Get String.compare s evb.
Proof.
  induction sids as [|sid rest IH]; intros evb Hwk Hnin; [reflexivity|].
  rewrite cancelScan_cons.
  assert (Hs : s <> sid) by (intros ->; apply Hnin; now left).
  assert (Hrest : ~ In s rest) by (intro; apply Hnin; now right).
  destruct (scanDecision E evCtx now seen evb sid) as [| |c] eqn:Dec;
    [now apply IH|reflexivity|].
  destruct (scanDecision_Cancel_key _ _ _ _ Hwk Dec) as [Hk Hne].
  cbv zeta. rewrite updateEvent_failure by congruence. cbn [store failure trace].
  rewrite IH; [|apply updateEvent_wellKeyed; [congruence|exact Hwk]|exact Hrest].
  apply updateEvent_other. congruence.
Qed.

Lemma cancelScan_Keys (now : Z) (sids : list string) :
  forall evb, wellKeyed evb -> Bolt.ascending String.compare evb ->
    Bolt.Keys (store (cancelScan E evCtx now seen sids evb)) = Bolt.Keys evb.
Proof.
  induction sids as [|sid rest IH]; intros evb Hwk Hasc; [reflexivity|].
  rewrite cancelScan_cons.
  destruct (scanDecision E evCtx now seen evb sid) as [| |c] eqn:Dec;
    [now apply IH|reflexivity|].
  destruct (scanDecision_Cancel_key _ _ _ _ Hwk Dec) as [Hk Hne].
  destruct (scanDecision_Cancel _ _ _ _ Dec) as (sessb & _ & _ & G & _).
  assert (HK : Bolt.Keys (store (updateEvent evb evCtx c)) = Bolt.Keys evb)
    by (eapply updateEvent_Keys; [exact Hasc|rewrite Hk; exact G]).
  cbv zeta. rewrite updateEvent_failure by congruence. cbn [store failure trace].
  rewrite IH; [exact HK|apply updateEvent_wellKeyed; [congruence|exact Hwk]|].
  eapply ascending_Keys; eauto.
Qed.

Lemma startedBefore_Break (now : Z) (evb : eventsBucket) (sid : string) :
  startedBefore E (Day evCtx) now evb sid ->
  scanDecision E evCtx now seen evb sid = Break.
Proof.
  intros (lastEv & t & L & P & Lt). unfold latestSnapshot in L.
  unfold scanDecision.
  destruct (Bolt.Get String.compare sid evb) as [sessb|]; [|discriminate].
  destruct (getMostRecentDetails sessb) as [e|l]; [discriminate|].
  injection L as ->. rewrite P.
  now rewrite (proj2 (Z.ltb_lt t now) Lt).
Qed.

Lemma startedBefore_ext (now : Z) (evb evb' : eventsBucket) (sid : string) :
  Bolt.Get String.compare sid evb' = Bolt.Get String.compare sid evb ->
  startedBefore E (Day evCtx) now evb sid ->
  startedBefore E (Day evCtx) now evb' sid.
Proof.
  intros G (lastEv & t & L & P & Lt). exists lastEv, t.
  unfold latestSnapshot in *. now rewrite G.
Qed.

(** The scan goes no further than a session that has started. *)
Lemma cancelScan_stops (now : Z) (sid : string) (post : list string)
    (pre : list string) :
  forall evb, wellKeyed evb -> startedBefore E (Day evCtx) now evb sid ->
    cancelScan E evCtx now seen (pre ++ sid :: post) evb
    = cancelScan E evCtx now seen pre evb.
Proof.
  induction pre as [|k pre IH]; intros evb Hwk Hst.
  - cbn [app]. rewrite cancelScan_cons.
    now rewrite (startedBefore_Break _ _ _ Hst).
  - cbn [app]. rewrite !cancelScan_cons.
    destruct (scanDecision E evCtx now seen evb k) as [| |c] eqn:Dec;
      [now apply IH|reflexivity|].
    destruct (scanDecision_Cancel_key _ _ _ _ Hwk Dec) as [Hk Hne].
    assert (Hsid : sid <> k).
    { intros ->. rewrite (startedBefore_Break _ _ _ Hst) in Dec.
      discriminate Dec. }
    cbv zeta. rewrite updateEvent_failure by congruence.
    rewrite IH; [reflexivity|apply updateEvent_wellKeyed; [congruence|exact Hwk]|].
    eapply startedBefore_ext; [|exact Hst].
    apply updateEvent_other. congruence.
Qed.

(** The scan never writes to a session that has started. *)
Lemma cancelScan_spares_started (now : Z) (sid : string) (sids : list string) :
  forall evb, wellKeyed evb -> startedBefore E (Day evCtx) now evb sid ->
    Bolt.Get String.compare sid (store (cancelScan E evCtx now seen sids evb))
    = Bolt.Get String.compare sid evb.
Proof.
  intros evb Hwk Hst.
  destruct (in_dec string_dec sid sids) as [Hin|Hnin];
    [|now apply cancelScan_untouched].
  apply in_split in Hin as (pre & post & ->).
  rewrite cancelScan_stops by assumption.
  clear post. revert evb Hwk Hst.
  induction pre as [|k pre IH]; intros evb Hwk Hst; [reflexivity|].
  rewrite cancelScan_cons.
  destruct (scanDecision E evCtx now seen evb k) as [| |c] eqn:Dec;
    [now apply IH|reflexivity|].
  destruct (scanDecision_Cancel_key _ _ _ _ Hwk Dec) as [Hk Hne].
  assert (Hsid : sid <> k).
  { intros ->. rewrite (startedBefore_Break _ _ _ Hst) in Dec.
    discriminate Dec. }
  assert (Hoth : Bolt.Get String.compare sid (store (updateEvent evb evCtx c))
                 = Bolt.Get String.compare sid evb)
    by (apply updateEvent_other; congruence).
  cbv zeta. rewrite updateEvent_failure by congruence. cbn [store failure trace].
  rewrite IH; [exact Hoth|apply updateEvent_wellKeyed; [congruence|exact Hwk]|].
  eapply startedBefore_ext; [exact Hoth|exact Hst].
Qed.
End Scan.

(* --------------------------------------------------------------------- *)
(** ** Sessions that have started *)

Lemma wellKeyed_nil : wellKeyed [].
Proof. intros sid b H. discriminate H. Qed.

Lemma wellKeyed_cons (k : string) (b : sessionBucket) (evb : eventsBucket) :
  k <> "" ->
  (forall lastEv, getMostRecentDetails b = inr lastEv ->
     SessionId (embeddedEventInfo lastEv) = k) ->
  wellKeyed evb -> wellKeyed ((k, b) :: evb).
Proof.
  intros Hne Hb Hwk sid b' H. cbn in H.
  destruct (sid ?= k)%string eqn:C; try exact (Hwk _ _ H).
  apply string_compare_eq in C. subst sid. injection H as <-. now split.
Qed.

Lemma wellKeyed_twoSessions : wellKeyed Sample.twoSessions.
Proof.
  repeat (apply wellKeyed_cons;
          [discriminate
          |intros lastEv H; cbn in H; injection H as <-; reflexivity|]).
  apply wellKeyed_nil.
Qed.

(** C3, as the code has it.  A session whose latest snapshot starts
    strictly before now is never written to by the cancellation pass, and
    the pass goes no further than such a session: its result is that of
    scanning the sessions before it in key order.  (A start time equal to
    now gives no such protection.) *)
Theorem inferCancellations_spares_started_sessions (E : env)
    (evCtx : EventContext) (now : Z) (seen : list string)
    (evb : eventsBucket) (sid : string) :
  wellKeyed evb ->
  startedBefore E (Day evCtx) now evb sid ->
  Bolt.Get String.compare sid (store (inferCancellations E evCtx now seen evb))
  = Bolt.Get String.compare sid evb
  /\ forall pre post, Bolt.Keys evb = pre ++ sid :: post ->
       inferCancellations E evCtx now seen evb
       = cancelScan E evCtx now seen pre evb.
Proof.
  intros Hwk Hst. unfold inferCancellations. split.
  - now apply cancelScan_spares_started.
  - intros pre post ->. now apply cancelScan_stops.
Qed.

Lemma inferCancellations_spares_started_sessions_witness :
  let W := Sample.world Sample.nothingListed Sample.tenOClock in
  wellKeyed Sample.twoSessions
  /\ startedBefore W "2024-03-01" Sample.tenOClock Sample.twoSessions "A"
  /\ Bolt.Get String.compare "A"
       (store (inferCancellations W Sample.ctx Sample.tenOClock []
                 Sample.twoSessions))
     = Some (Sample.oneSnapshot (Sample.snapshot "A" "09:00:00" 5 0 false))
  /\ inferCancellations W Sample.ctx Sample.tenOClock [] Sample.twoSessions
     = {| store := Sample.twoSessions; trace := []; failure := None |}.
Proof.
  intro W.
  assert (Hst : startedBefore W "2024-03-01" Sample.tenOClock
                  Sample.twoSessions "A").
  { exists (Sample.snapshot "A" "09:00:00" 5 0 false),
      (Sample.tenOClock - 3600 * Second).
    split; [reflexivity|]. split; [reflexivity|]. reflexivity. }
  split; [exact wellKeyed_twoSessions|]. split; [exact Hst|].
  destruct (inferCancellations_spares_started_sessions W Sample.ctx
              Sample.tenOClock [] Sample.twoSessions "A"
              wellKeyed_twoSessions Hst) as [H1 H2].
  split; [exact H1|]. exact (H2 [] ["B"] eq_refl).
Defined.

(** C3, counterexample.  Session S1 starts at ten and the pass runs at ten
    sharp without having seen S1: the start time is not before now, and S1
    is marked cancelled. *)
Lemma inferCancellations_cancels_session_starting_now :
  let W := Sample.world Sample.nothingListed Sample.tenOClock in
  let ev := Sample.snapshot "S1" "10:00:00" 5 0 false in
  latestSnapshot Sample.seenOnce "S1" = Some ev
  /\ parseTimeLocally W "2024-03-01" (StartTime (embeddedEventInfo ev))
     = Some Sample.tenOClock
  /\ Sample.tenOClock <= Sample.tenOClock
  /\ storedSequence
       (store (inferCancellations W Sample.ctx Sample.tenOClock []
                 Sample.seenOnce)) "S1"
     = [Json ev; Json (Sample.snapshot "S1" "10:00:00" 5 Sample.tenOClock true)]
  /\ Bolt.Get String.compare "S1"
       (store (inferCancellations W Sample.ctx Sample.tenOClock []
                 Sample.seenOnce))
     <> Bolt.Get String.compare "S1" Sample.seenOnce.
Proof.
  intros W ev. split; [reflexivity|]. split; [reflexivity|].
  split; [apply Z.le_refl|]. split; [vm_compute; reflexivity|].
  vm_compute. discriminate.
Qed.

(* --------------------------------------------------------------------- *)
(** ** Sessions without a snapshot *)

(** A store that the program does not build (see the section on stored
    sessions and their snapshots below): session A has a bucket without any
    snapshot and precedes session B, which starts in an hour and is missing
    from the listing.  There the coded loop leaves at A: nothing is
    cancelled for B and the pass reports no effect.  Without A in front of
    it, B is marked cancelled. *)
Theorem checkEventsForDay_ends_scan_at_session_without_snapshot :
  let W := Sample.world Sample.nothingListed Sample.tenOClock in
  let dayCtx := {| Day := "2024-03-01"; Product := "" |} in
  scanDecision W Sample.ctx Sample.tenOClock [] Sample.emptyThenB "A" = Break
  /\ checkEventsForDay W (Sample.dayWith Sample.emptyThenB) dayCtx
     = (Sample.dayWith Sample.emptyThenB, [], None)
  /\ storedSequence
       (store (inferCancellations W Sample.ctx Sample.tenOClock []
                 Sample.emptyThenB)) "B"
     = [Json (Sample.snapshot "B" "11:00:00" 5 0 false)]
  /\ storedSequence
       (store (inferCancellations W Sample.ctx Sample.tenOClock []
                 Sample.onlyB)) "B"
     = [Json (Sample.snapshot "B" "11:00:00" 5 0 false);
        Json (Sample.snapshot "B" "11:00:00" 5 Sample.tenOClock true)].
Proof.
  intros W dayCtx. repeat split; vm_compute; reflexivity.
Qed.

(* --------------------------------------------------------------------- *)
(** ** Repeating the cancellation pass *)

Lemma sameDetails_cancelled (emb : EventInfo) (u1 u2 : Z)
    (cur : timestampedEventInfo) :
  embeddedEventInfo cur = emb -> Cancelled cur = true ->
  sameDetails {| embeddedEventInfo := emb; UpdatedAt := u1; Cancelled := true |}
    cur = true.
Proof.
  intros <- Hc. apply sameDetails_spec. cbn. now rewrite Hc.
Qed.

(** Where the cancelled copy of the latest snapshot of a session lands: the
    latest snapshot afterwards has the same event details and is marked
    cancelled. *)
Lemma cancel_lands (evb : eventsBucket) (evCtx : EventContext) (now : Z)
    (sid : string) (sessb : sessionBucket) (lastEv : timestampedEventInfo) :
  sid <> "" ->
  SessionId (embeddedEventInfo lastEv) = sid ->
  Bolt.Get String.compare sid evb = Some sessb ->
  sequenced sessb ->
  getMostRecentDetails sessb = inr lastEv ->
  let c := {| embeddedEventInfo := embeddedEventInfo lastEv;
              UpdatedAt := now; Cancelled := true |} in
  exists wb cur,
    Bolt.Get String.compare sid (store (updateEvent evb evCtx c)) = Some wb
    /\ getMostRecentDetails wb = inr cur
    /\ embeddedEventInfo cur = embeddedEventInfo lastEv
    /\ Cancelled cur = true
    /\ (Cancelled lastEv = false ->
        wb = {| snapshots := snapshots sessb ++ [(sequence sessb + 1, Json c)];
                sequence := sequence sessb + 1 |}).
Proof.
  intros Hne Hk Hget Hseq Hlast c.
  assert (Hc : SessionId (embeddedEventInfo c) = sid) by exact Hk.
  destruct (sameDetails c lastEv) eqn:Hsame.
  - rewrite (updateEvent_unchanged evb evCtx c lastEv sessb); cbn [store];
      rewrite ?Hc; auto.
    exists sessb, lastEv. repeat split; auto.
    + apply sameDetails_spec in Hsame. cbn in Hsame. intuition congruence.
    + intro Hf. apply sameDetails_spec in Hsame. cbn in Hsame.
      intuition congruence.
  - rewrite (updateEvent_updated evb evCtx c lastEv sessb); cbn [store];
      rewrite ?Hc; auto.
    rewrite (write_appends sessb (Json c) Hseq), events_Get_Put_same.
    eexists _, c. split; [reflexivity|]. split; [|repeat split].
    unfold getMostRecentDetails; cbn [snapshots].
    now rewrite (Last_snoc (snapshots sessb) (sequence sessb + 1, Json c)).
Qed.

Section Repeat.
Variable E : env.
Variable evCtx : EventContext.
Variable seen : list string.

Lemma scanDecision_later (now now' : Z) (evb : eventsBucket) (sid : string) :
  now <= now' ->
  match scanDecision E evCtx now seen evb sid with
  | Skip => scanDecision E evCtx now' seen evb sid = Skip
            \/ scanDecision E evCtx now' seen evb sid = Break
  | Break => scanDecision E evCtx now' seen evb sid = Break
  | Cancel _ => True
  end.
Proof.
  intro Hle. unfold scanDecision.
  destruct (Bolt.Get String.compare sid evb) as [sessb|]; [|now left].
  destruct (getMostRecentDetails sessb) as [e|lastEv]; [reflexivity|].
  destruct (parseTimeLocally E _ _) as [t|]; [|now left].
  destruct (t <? now) eqn:L.
  - apply Z.ltb_lt in L. now rewrite (proj2 (Z.ltb_lt t now')) by lia.
  - destruct (isSessionInList seen sid); [|exact I].
    destruct (t <? now'); [now right|now left].
Qed.

(** The decision on a session whose latest snapshot is a cancelled one
    with a known start time. *)
Lemma scanDecision_on_cancelled (now' : Z) (evb : eventsBucket)
    (sid : string) (wb : sessionBucket) (cur : timestampedEventInfo) (t : Z) :
  Bolt.Get String.compare sid evb = Some wb ->
  getMostRecentDetails wb = inr cur ->
  parseTimeLocally E (Day evCtx) (StartTime (embeddedEventInfo cur)) = Some t ->
  isSessionInList seen sid = false ->
  scanDecision E evCtx now' seen evb sid = Break
  \/ scanDecision E evCtx now' seen evb sid
     = Cancel {| embeddedEventInfo := embeddedEventInfo cur;
                 UpdatedAt := now'; Cancelled := true |}.
Proof.
  intros G D P S. unfold scanDecision. rewrite G, D, P, S.
  destruct (t <? now'); [now left|now right].
Qed.

(** A second scan, not earlier than the first, writes nothing. *)
Lemma cancelScan_settled (now now' : Z) (sids : list string) :
  now <= now' ->
  forall evb,
    NoDup sids -> wellKeyed evb ->
    (forall k b, In k sids -> Bolt.Get String.compare k evb = Some b ->
                 sequenced b) ->
    cancelScan E evCtx now' seen sids
      (store (cancelScan E evCtx now seen sids evb))
    = {| store := store (cancelScan E evCtx now seen sids evb);
         trace := []; failure := None |}.
Proof.
  intro Hle. induction sids as [|sid rest IH]; intros evb Hnd Hwk Hroom;
    [reflexivity|].
  apply NoDup_cons_iff in Hnd as [Hnin Hnd].
  assert (Hroom' : forall evb', wellKeyed evb' ->
            (forall k, k <> sid -> Bolt.Get String.compare k evb'
                                   = Bolt.Get String.compare k evb) ->
            forall k b, In k rest ->
              Bolt.Get String.compare k evb' = Some b -> sequenced b).
  { intros evb' _ Hsame k b Hin Hg. apply (Hroom k b); [now right|].
    rewrite <- Hsame; [exact Hg|]. intros ->. now apply Hnin. }
  rewrite (cancelScan_cons E evCtx seen now sid rest evb).
  pose proof (scanDecision_later now now' evb sid Hle) as Hlater.
  destruct (scanDecision E evCtx now seen evb sid) as [| |c] eqn:Dec.
  - (* the session was passed over *)
    rewrite cancelScan_cons.
    rewrite (scanDecision_ext E evCtx seen now' evb)
      by (now apply cancelScan_untouched).
    destruct Hlater as [-> | ->]; [|reflexivity].
    apply IH; auto. apply Hroom'; auto.
  - (* the scan ended here *)
    cbn [store]. rewrite cancelScan_cons. now rewrite Hlater.
  - (* a cancelled copy was handed to updateEvent *)
    destruct (scanDecision_Cancel_key _ _ _ _ _ _ _ Hwk Dec) as [Hk Hne].
    destruct (scanDecision_Cancel _ _ _ _ _ _ _ Dec)
      as (sessb & lastEv & t & G & D & P & Ht & S & ->).
    cbn [embeddedEventInfo] in Hk.
    destruct (cancel_lands evb evCtx now sid sessb lastEv Hne Hk G
                (Hroom _ _ (or_introl eq_refl) G) D)
      as (wb & cur & Gw & Dw & Ecur & Ccur & _).
    set (c := {| embeddedEventInfo := embeddedEventInfo lastEv;
                 UpdatedAt := now; Cancelled := true |}) in *.
    assert (Hwk0 : wellKeyed (store (updateEvent evb evCtx c)))
      by (apply updateEvent_wellKeyed; [cbn; congruence|exact Hwk]).
    cbv zeta. rewrite updateEvent_failure by (cbn; congruence).
    cbn [store trace failure].
    set (r' := cancelScan E evCtx now seen rest (store (updateEvent evb evCtx c))).
    assert (Gr : Bolt.Get String.compare sid (store r') = Some wb)
      by (unfold r'; rewrite cancelScan_untouched; auto).
    assert (Hsettled : cancelScan E evCtx now' seen rest (store r')
                       = {| store := store r'; trace := []; failure := None |}).
    { apply IH; auto. apply Hroom'; auto.
      intros k Hk'. apply updateEvent_other. cbn. congruence. }
    rewrite cancelScan_cons.
    destruct (scanDecision_on_cancelled now' (store r') sid wb cur t Gr Dw)
      as [-> | ->]; auto; [now rewrite Ecur|].
    assert (Hun : updateEvent (store r') evCtx
                    {| embeddedEventInfo := embeddedEventInfo cur;
                       UpdatedAt := now'; Cancelled := true |}
                  = {| store := store r'; trace := []; failure := None |}).
    { apply (updateEvent_unchanged _ _ _ cur wb); cbn [embeddedEventInfo];
        try (rewrite Ecur, Hk); auto.
      now apply sameDetails_cancelled. }
    cbv zeta. rewrite Hun. cbn [store trace failure]. now rewrite Hsettled.
Qed.

(** A session the scan reaches, that is missing from the listing and not
    yet marked cancelled, gets the cancelled copy of its latest snapshot
    appended. *)
Lemma cancelScan_cancels (now : Z) (sid : string) (post : list string)
    (sessb : sessionBucket) (lastEv : timestampedEventInfo) (t : Z)
    (pre : list string) :
  forall evb,
    NoDup (pre ++ sid :: post) -> wellKeyed evb ->
    (forall k, In k pre -> scanDecision E evCtx now seen evb k <> Break) ->
    Bolt.Get String.compare sid evb = Some sessb ->
    sequenced sessb ->
    getMostRecentDetails sessb = inr lastEv ->
    parseTimeLocally E (Day evCtx) (StartTime (embeddedEventInfo lastEv))
    = Some t ->
    now <= t ->
    isSessionInList seen sid = false ->
    Cancelled lastEv = false ->
    Bolt.Get String.compare sid
      (store (cancelScan E evCtx now seen (pre ++ sid :: post) evb))
    = Some {| snapshots :=
                snapshots sessb
                ++ [(sequence sessb + 1,
                     Json {| embeddedEventInfo := embeddedEventInfo lastEv;
                             UpdatedAt := now; Cancelled := true |})];
              sequence := sequence sessb + 1 |}.
Proof.
  induction pre as [|k pre IH];
    intros evb Hnd Hwk Hreach G Hseq D P Ht S Hc.
  - cbn [app] in *. apply NoDup_cons_iff in Hnd as [Hnin _].
    destruct (Hwk _ _ G) as [Hne Hk]. specialize (Hk _ D).
    rewrite cancelScan_cons. unfold scanDecision.
    rewrite G, D, P, S, (proj2 (Z.ltb_ge t now) Ht).
    destruct (cancel_lands evb evCtx now sid sessb lastEv Hne Hk G Hseq D)
      as (wb & cur & Gw & _ & _ & _ & Hwb).
    cbv zeta. rewrite updateEvent_failure by (cbn; congruence).
    cbn [store]. rewrite cancelScan_untouched; auto.
    + rewrite Gw. f_equal. now apply Hwb.
    + apply updateEvent_wellKeyed; [cbn; congruence|exact Hwk].
  - cbn [app] in *. apply NoDup_cons_iff in Hnd as [Hnin Hnd].
    assert (Hks : sid <> k) by (intros ->; apply Hnin, in_elt).
    rewrite cancelScan_cons.
    destruct (scanDecision E evCtx now seen evb k) as [| |c] eqn:Dec.
    + apply IH; auto. intros k' Hk'. apply Hreach. now right.
    + exfalso. apply (Hreach k); [now left|exact Dec].
    + destruct (scanDecision_Cancel_key _ _ _ _ _ _ _ Hwk Dec) as [Hk Hne].
      assert (Hoth : forall k', k' <> k ->
                Bolt.Get String.compare k' (store (updateEvent evb evCtx c))
                = Bolt.Get String.compare k' evb)
        by (intros k' Hk'; apply updateEvent_other; congruence).
      cbv zeta. rewrite updateEvent_failure by congruence. cbn [store].
      apply IH; auto.
      * apply updateEvent_wellKeyed; [congruence|exact Hwk].
      * intros k' Hk'. rewrite (scanDecision_ext E evCtx seen now evb).
        -- apply Hreach. now right.
        -- apply Hoth. intros ->. now apply Hnin, in_or_app; left.
      * now rewrite Hoth.
Qed.
End Repeat.

(** C5, as the code has it.  On a store whose session buckets are keyed
    and sequenced as [updateEvent] leaves them, the cancellation pass does
    not fail; a session that the scan reaches (no session before it in key
    order makes the scan leave the loop), that starts no earlier than now,
    is missing from the listing and is not yet marked cancelled, gets one
    cancelled copy of its latest snapshot appended; and a second pass with
    the same listing, run no earlier than the first, writes nothing. *)
Theorem inferCancellations_cancels_once (E : env) (evCtx : EventContext)
    (now now' : Z) (seen : list string) (evb : eventsBucket) :
  wellKeyed evb ->
  Bolt.ascending String.compare evb ->
  Forall (fun kb : string * sessionBucket => sequenced (snd kb)) evb ->
  now <= now' ->
  let r1 := inferCancellations E evCtx now seen evb in
  failure r1 = None
  /\ (forall pre sid post lastEv t,
        Bolt.Keys evb = pre ++ sid :: post ->
        (forall k, In k pre -> scanDecision E evCtx now seen evb k <> Break) ->
        latestSnapshot evb sid = Some lastEv ->
        parseTimeLocally E (Day evCtx) (StartTime (embeddedEventInfo lastEv))
        = Some t ->
        now <= t ->
        isSessionInList seen sid = false ->
        Cancelled lastEv = false ->
        storedSequence (store r1) sid
        = storedSequence evb sid
          ++ [Json {| embeddedEventInfo := embeddedEventInfo lastEv;
                      UpdatedAt := now; Cancelled := true |}])
  /\ inferCancellations E evCtx now' seen (store r1)
     = {| store := store r1; trace := []; failure := None |}.
Proof.
  intros Hwk Hasc Hseq Hle r1.
  assert (Hnd : NoDup (Bolt.Keys evb))
    by (eapply ascending_NoDup; eauto using string_compare_eq).
  assert (Hroom : forall k b, Bolt.Get String.compare k evb = Some b ->
                              sequenced b).
  { intros k b G. apply (Get_Some_In _ string_compare_eq) in G.
    rewrite Forall_forall in Hseq. exact (Hseq _ G). }
  split; [now apply cancelScan_failure|]. split.
  - intros pre sid post lastEv t HK Hreach HL P Ht S Hc.
    unfold latestSnapshot in HL. unfold storedSequence at 2.
    destruct (Bolt.Get String.compare sid evb) as [sessb|] eqn:G;
      [|discriminate].
    destruct (getMostRecentDetails sessb) as [e|l] eqn:D; [discriminate|].
    injection HL as ->.
    unfold storedSequence, r1, inferCancellations. rewrite HK in *.
    rewrite (cancelScan_cancels E evCtx seen now sid post sessb lastEv t pre);
      eauto.
    cbn [snapshots]. now rewrite map_app.
  - unfold r1, inferCancellations.
    rewrite cancelScan_Keys by assumption.
    apply cancelScan_settled; eauto.
Qed.

Lemma inferCancellations_cancels_once_witness :
  let W := Sample.world Sample.nothingListed Sample.tenOClock in
  let evB := Sample.snapshot "B" "11:00:00" 5 0 false in
  let r1 := inferCancellations W Sample.ctx Sample.tenOClock ["C"]
              Sample.laterSessions in
  wellKeyed Sample.laterSessions
  /\ Bolt.ascending String.compare Sample.laterSessions
  /\ Forall (fun kb : string * sessionBucket => sequenced (snd kb))
       Sample.laterSessions
  /\ storedSequence (store r1) "B"
     = [Json evB; Json (Sample.snapshot "B" "11:00:00" 5 Sample.tenOClock true)]
  /\ inferCancellations W Sample.ctx (Sample.tenOClock + 60 * Second) ["C"]
       (store r1)
     = {| store := store r1; trace := []; failure := None |}.
Proof.
  intros W evB r1.
  assert (Hwk : wellKeyed Sample.laterSessions).
  { repeat (apply wellKeyed_cons;
            [discriminate
            |intros lastEv H; cbn in H; injection H as <-; reflexivity|]).
    apply wellKeyed_nil. }
  assert (Hasc : Bolt.ascending String.compare Sample.laterSessions)
    by (cbn; repeat split; repeat constructor).
  assert (Hseq : Forall (fun kb : string * sessionBucket => sequenced (snd kb))
                   Sample.laterSessions).
  { repeat constructor; cbn; lia. }
  assert (Hle : Sample.tenOClock <= Sample.tenOClock + 60 * Second)
    by (unfold Second; lia).
  destruct (inferCancellations_cancels_once W Sample.ctx Sample.tenOClock
              (Sample.tenOClock + 60 * Second) ["C"] Sample.laterSessions
              Hwk Hasc Hseq Hle) as (_ & Hcancel & Hsettled).
  split; [exact Hwk|]. split; [exact Hasc|]. split; [exact Hseq|].
  split; [|exact Hsettled].
  refine (Hcancel [] "B" ["C"] evB (Sample.tenOClock + 3600 * Second)
            eq_refl _ eq_refl eq_refl _ eq_refl eq_refl).
  - intros k [].
  - unfold Second. lia.
Defined.

(** C5, counterexample.  Session A started at nine and precedes session B,
    which starts at eleven, is missing from the listing and is not marked
    cancelled.  The pass at ten leaves the loop at A and appends nothing
    for B. *)
Lemma inferCancellations_leaves_future_session_behind_started_one :
  let W := Sample.world Sample.nothingListed Sample.tenOClock in
  let evB := Sample.snapshot "B" "11:00:00" 5 0 false in
  let r1 := inferCancellations W Sample.ctx Sample.tenOClock []
              Sample.twoSessions in
  latestSnapshot Sample.twoSessions "B" = Some evB
  /\ parseTimeLocally W "2024-03-01" (StartTime (embeddedEventInfo evB))
     = Some (Sample.tenOClock + 3600 * Second)
  /\ Sample.tenOClock < Sample.tenOClock + 3600 * Second
  /\ isSessionInList [] "B" = false
  /\ Cancelled evB = false
  /\ storedSequence (store r1) "B" = [Json evB]
  /\ trace r1 = [].
Proof.
  intros W evB r1. repeat split; vm_compute; reflexivity.
Qed.

(* --------------------------------------------------------------------- *)
(** ** The bearer token *)

Lemma validToken_false_iff (ga : GAuthenticator) (now : Z) :
  validToken ga now = false <-> currentToken ga = "" \/ tokenValidity ga < now.
Proof.
  unfold validToken.
  destruct (currentToken ga =? "")%string eqn:T;
    destruct (tokenValidity ga <? now) eqn:V; cbn;
    rewrite ?String.eqb_eq, ?String.eqb_neq, ?Z.ltb_lt, ?Z.ltb_ge in *;
    split; auto; try discriminate; intros [?|?]; solve [congruence | lia].
Qed.

(** C6, as the code has it.  [RoundTrip] renews the token exactly when it
    is empty or its expiry lies strictly before now.  In that case the
    renewal comes first; if it succeeds the request is forwarded with the
    new token in the Authorization header, and if it fails nothing is
    forwarded.  Otherwise, and so also when the expiry equals now, the
    request is forwarded with the current token and no renewal. *)
Theorem RoundTrip_renews_when_token_empty_or_expired (ga : GAuthenticator)
    (now renewedAt : Z) (x : exchange) (stored : bool) :
  let res := RoundTrip ga now renewedAt x stored in
  let renewed := getToken ga renewedAt x stored in
  (currentToken ga = "" \/ tokenValidity ga < now ->
     fst (fst res) = fst renewed
     /\ snd res = snd renewed
     /\ (snd renewed = None ->
         snd (fst res)
         = [Renewal; Forward ("Bearer " ++ currentToken (fst renewed))%string])
     /\ (snd renewed <> None -> snd (fst res) = [Renewal]))
  /\ (~ (currentToken ga = "" \/ tokenValidity ga < now) ->
      res = (ga, [Forward ("Bearer " ++ currentToken ga)%string], None)).
Proof.
  intros res renewed. unfold res, RoundTrip. fold renewed.
  destruct (validToken ga now) eqn:V; cbn [negb].
  - split.
    + intro H. apply validToken_false_iff in H. congruence.
    + reflexivity.
  - split.
    + intros _. destruct renewed as [ga' [err|]]; cbn;
        repeat split; congruence.
    + intro H. exfalso. apply H. now apply validToken_false_iff.
Qed.

Lemma RoundTrip_renews_when_token_empty_or_expired_witness :
  tokenValidity Sample.expiresAt100 < 101
  /\ snd (fst (RoundTrip Sample.expiresAt100 101 102 Sample.freshToken true))
     = [Renewal; Forward "Bearer new"]
  /\ ~ (currentToken Sample.expiresAt100 = "" \/ tokenValidity Sample.expiresAt100 < 100)
  /\ RoundTrip Sample.expiresAt100 100 102 Sample.freshToken true
     = (Sample.expiresAt100, [Forward "Bearer tok"], None).
Proof.
  assert (Hexp : tokenValidity Sample.expiresAt100 < 101) by (cbn; lia).
  assert (Hval : ~ (currentToken Sample.expiresAt100 = ""
                    \/ tokenValidity Sample.expiresAt100 < 100))
    by (cbn; intros [H|H]; [discriminate H|lia]).
  destruct (RoundTrip_renews_when_token_empty_or_expired Sample.expiresAt100
              101 102 Sample.freshToken true) as [Hrenew _].
  destruct (RoundTrip_renews_when_token_empty_or_expired Sample.expiresAt100
              100 102 Sample.freshToken true) as [_ Hkeep].
  split; [exact Hexp|].
  split; [exact (proj1 (proj2 (proj2 (Hrenew (or_intror Hexp)))) eq_refl)|].
  split; [exact Hval|exact (Hkeep Hval)].
Defined.

(** C6, counterexample.  The token expires at instant 100 and the request
    is made at instant 100: the expiry is at (not before) the current time,
    yet the token counts as valid and the request is forwarded with it,
    without any renewal. *)
Lemma RoundTrip_does_not_renew_at_expiry :
  tokenValidity Sample.expiresAt100 <= 100
  /\ validToken Sample.expiresAt100 100 = true
  /\ RoundTrip Sample.expiresAt100 100 100 Sample.freshToken true
     = (Sample.expiresAt100, [Forward "Bearer tok"], None)
  /\ RoundTrip Sample.expiresAt100 101 101 Sample.freshToken true
     = ({| currentToken := "new"; tokenValidity := 101 + 3600 * Second;
           tokenFile := "" |},
        [Renewal; Forward "Bearer new"], None).
Proof. repeat split; vm_compute; congruence. Qed.

(* --------------------------------------------------------------------- *)
(** ** Update, then insert *)

Lemma updateCalendarEvent_ErrNotFound (c : calendarClient) (calendarId : string)
    (ev : GCalEvent) :
  updateCalendarEvent c calendarId ev = Some ErrNotFound <->
  exists body, doPut c calendarId ev = Responded StatusNotFound body.
Proof.
  unfold updateCalendarEvent.
  destruct (doPut c calendarId ev) as [| |status body] eqn:P.
  - split; [discriminate|intros (b & H); discriminate H].
  - split; [discriminate|intros (b & H); discriminate H].
  - destruct (status =? StatusNotFound) eqn:S.
    + apply Z.eqb_eq in S. subst. split; eauto.
    + apply Z.eqb_neq in S. split.
      * destruct body; discriminate.
      * intros (b & [= H _]). contradiction.
Qed.

(** C7.  When the snapshot converts to a calendar event, the sync attempts
    the update once and first; it attempts the insert exactly when the
    update was answered with status 404, and then right after the update;
    a successful update ends the sync, and any other failure of the update
    is logged and ends the sync, both without an insert. *)
Theorem optionallyUpdateCalendar_inserts_exactly_on_not_found
    (E : env) (makeProductLink : ProductId -> string) (formatStamp : Z -> string)
    (c : calendarClient) (GCalCalendarId : string)
    (ev : EventInfo) (evCtx : EventContext) (ts : Z) (calEv : GCalEvent) :
  makeGCalEvent E makeProductLink formatStamp ev evCtx ts = inr calEv ->
  let tr := optionallyUpdateCalendar E makeProductLink formatStamp (Some c)
              GCalCalendarId ev evCtx ts in
  let updated := updateCalendarEvent c GCalCalendarId calEv in
  (existsb isInsertAttempt tr = true <->
   exists body, doPut c GCalCalendarId calEv = Responded StatusNotFound body)
  /\ (updated = Some ErrNotFound ->
      exists logged,
        tr = [UpdateAttempt GCalCalendarId calEv; LogNotFoundInserting;
              InsertAttempt GCalCalendarId calEv] ++ logged
        /\ existsb isInsertAttempt logged = false)
  /\ (updated = None -> tr = [UpdateAttempt GCalCalendarId calEv])
  /\ (forall err, updated = Some err -> err <> ErrNotFound ->
      tr = [UpdateAttempt GCalCalendarId calEv; LogUpdateFailed err]).
Proof.
  intros Hmk tr updated.
  rewrite <- updateCalendarEvent_ErrNotFound. fold updated.
  unfold tr, optionallyUpdateCalendar. rewrite Hmk. fold updated.
  destruct updated as [[| | | | | | |]|]; cbn [isErrNotFound];
    try (split; [split; [discriminate|discriminate]|];
         split; [discriminate|]; split; [discriminate|];
         intros err [= <-] _; reflexivity).
  - (* not found *)
    split; [split; [reflexivity|]|].
    { intros _. now destruct (insertCalendarEvent c GCalCalendarId calEv). }
    split.
    { intros _. destruct (insertCalendarEvent c GCalCalendarId calEv) as [e|];
        [exists [LogUpdateFailed e]|exists []]; now split. }
    split; [discriminate|]. intros err [= <-] H. now contradiction H.
  - (* updated *)
    split; [split; [discriminate|discriminate]|].
    split; [discriminate|]. split; [reflexivity|]. discriminate.
Qed.

Lemma optionallyUpdateCalendar_inserts_exactly_on_not_found_witness :
  let W := Sample.world Sample.nothingListed 0 in
  let ev := Sample.session "S1" "10:00:00" 5 in
  let calEv := {| Id := "acog";
                  Summary := "Patch Ice";
                  Description :=
                    ("0 Academy, 15 other booked" ++ Fmt.newline ++ Fmt.newline
                     ++ "Last updated: " ++ Fmt.newline)%string;
                  EventLocation := "Arena";
                  StartDateTime := Sample.tenOClock;
                  EndDateTime := Sample.tenOClock + 13 * 3600 * Second |} in
  makeGCalEvent W Sample.noLink Sample.noStamp ev Sample.ctx 0 = inr calEv
  /\ doPut Sample.unknownEvent "cal" calEv = Responded StatusNotFound false
  /\ existsb isInsertAttempt
       (optionallyUpdateCalendar W Sample.noLink Sample.noStamp
          (Some Sample.unknownEvent) "cal" ev Sample.ctx 0) = true.
Proof.
  intros W ev calEv.
  assert (Hmk : makeGCalEvent W Sample.noLink Sample.noStamp ev Sample.ctx 0
                = inr calEv) by (vm_compute; reflexivity).
  split; [exact Hmk|]. split; [reflexivity|].
  apply (proj1 (optionallyUpdateCalendar_inserts_exactly_on_not_found W
                  Sample.noLink Sample.noStamp Sample.unknownEvent "cal" ev
                  Sample.ctx 0 calEv Hmk)).
  now exists false.
Defined.

(* --------------------------------------------------------------------- *)
(** ** The product list of a day *)

Lemma string_length_append (a b : string) :
  String.length (a ++ b)%string = (String.length a + String.length b)%nat.
Proof. induction a as [|c a IH]; cbn; [reflexivity|now rewrite IH]. Qed.

Lemma dayKey_not_empty (ts : civil) : dayKey ts <> "".
Proof.
  unfold dayKey. intro H.
  apply (f_equal String.length) in H.
  rewrite !string_length_append in H. cbn in H. lia.
Qed.

Lemma marshalProducts_length (jsonString : string -> string)
    (prods : goSlice ProductId) :
  (2 <= String.length (marshalProducts jsonString prods))%nat.
Proof.
  destruct prods as [|l]; cbn [marshalProducts]; [cbn; lia|].
  rewrite !string_length_append. cbn. lia.
Qed.

Lemma database_Get_Put_same (key : string) (b : dayBucket) (db : database) :
  Bolt.Get String.compare key (Bolt.Put String.compare key b db) = Some b.
Proof. apply Get_Put_same, string_compare_eq. Qed.

(** C8.  One iteration of [addDays] succeeds and leaves under "products"
    the new serialized list if its length differs from that of the stored
    value, and the stored value otherwise.  With equal lengths the database
    is left as it was, whatever the new list holds; a day that had no
    bucket has no stored value, of length 0, and always gets the list. *)
Theorem addDay_replaces_products_iff_length_differs
    (jsonString : string -> string) (db : database) (newKeys : list string)
    (ts : civil) (prods : goSlice ProductId) :
  let v := marshalProducts jsonString prods in
  let current := match Bolt.Get String.compare (dayKey ts) db with
                 | Some b => products b
                 | None => None
                 end in
  let res := addDay jsonString (db, newKeys) (ts, prods) in
  snd res = true
  /\ (exists b', Bolt.Get String.compare (dayKey ts) (fst (fst res)) = Some b'
                 /\ products b'
                    = if (lenBytes current =? String.length v)%nat
                      then current else Some v)
  /\ (forall b, Bolt.Get String.compare (dayKey ts) db = Some b ->
                lenBytes (products b) = String.length v ->
                fst (fst res) = db)
  /\ (Bolt.Get String.compare (dayKey ts) db = None ->
      exists b', Bolt.Get String.compare (dayKey ts) (fst (fst res)) = Some b'
                 /\ products b' = Some v
                 /\ snd (fst res) = newKeys ++ [dayKey ts]).
Proof.
  intros v current res. unfold res, current, addDay. fold v.
  pose proof (marshalProducts_length jsonString prods) as Hlen. fold v in Hlen.
  destruct (Bolt.Get String.compare (dayKey ts) db) as [b|] eqn:G.
  - destruct (lenBytes (products b) =? String.length v)%nat eqn:L;
      cbn [negb fst snd].
    + split; [reflexivity|]. split; [exists b; now split|].
      split; [reflexivity|discriminate].
    + split; [reflexivity|].
      split; [eexists; split; [apply database_Get_Put_same|reflexivity]|].
      split; [|discriminate].
      intros b0 [= <-] E. apply Nat.eqb_neq in L. contradiction.
  - rewrite (proj2 (String.eqb_neq _ "") (dayKey_not_empty ts)).
    cbn [products lenBytes events].
    assert (L : (0 =? String.length v)%nat = false)
      by (apply Nat.eqb_neq; lia).
    rewrite L. cbn [negb fst snd].
    split; [reflexivity|].
    split; [eexists; split; [apply database_Get_Put_same|reflexivity]|].
    split; [discriminate|]. intros _.
    eexists; split; [apply database_Get_Put_same|]. now split.
Qed.

Lemma addDay_replaces_products_iff_length_differs_witness :
  let two := Slice ["p1"; "p2"] in
  let swapped := Slice ["p2"; "p1"] in
  let three := Slice ["p1"; "p2"; "p3"] in
  let stored := marshalProducts Sample.plainJsonString two in
  let db := [("2024-03-01", {| products := Some stored; events := None |})] in
  lenBytes (Some stored)
  = String.length (marshalProducts Sample.plainJsonString swapped)
  /\ fst (fst (addDay Sample.plainJsonString (db, [])
                 (Sample.firstOfMarch, swapped))) = db
  /\ fst (fst (addDay Sample.plainJsonString (db, [])
                 (Sample.firstOfMarch, three)))
     = [("2024-03-01",
         {| products := Some (marshalProducts Sample.plainJsonString three);
            events := None |})].
Proof.
  intros two swapped three stored db.
  split; [reflexivity|]. split; [|reflexivity].
  exact (proj1 (proj2 (proj2
           (addDay_replaces_products_iff_length_differs Sample.plainJsonString
              db [] Sample.firstOfMarch swapped)))
           {| products := Some stored; events := None |} eq_refl eq_refl).
Defined.

(* --------------------------------------------------------------------- *)
(** ** Refreshing today only *)

Lemma Seek_first (todayKey : string) (pre post : database) (d : string)
    (b : dayBucket) :
  (forall k, In k (Bolt.Keys pre) -> (k <? todayKey)%string = true) ->
  (d <? todayKey)%string = false ->
  Bolt.Seek String.compare todayKey (pre ++ (d, b) :: post) = (d, b) :: post.
Proof.
  intros Hpre Hd. induction pre as [|[k v] pre IH]; cbn [app Bolt.Seek].
  - unfold String.ltb in Hd. now destruct (d ?= todayKey)%string.
  - assert (Hk : (k <? todayKey)%string = true) by (apply Hpre; now left).
    unfold String.ltb in Hk.
    destruct (k ?= todayKey)%string; try discriminate Hk.
    apply IH. intros k' Hk'. apply Hpre. now right.
Qed.

Lemma Seek_none (todayKey : string) (db : database) :
  (forall k, In k (Bolt.Keys db) -> (k <? todayKey)%string = true) ->
  Bolt.Seek String.compare todayKey db = [].
Proof.
  intros Hall. induction db as [|[k v] db IH]; [reflexivity|].
  cbn [Bolt.Seek].
  assert (Hk : (k <? todayKey)%string = true) by (apply Hall; now left).
  unfold String.ltb in Hk.
  destruct (k ?= todayKey)%string; try discriminate Hk.
  apply IH. intros k' Hk'. apply Hall. now right.
Qed.

(** C10.  In today-only mode [checkForEvents] refreshes exactly one day:
    the first stored day whose key is not below today's key, whether or not
    that is today's date; the days before it and after it are not
    refreshed. *)
Theorem checkForEvents_onlyToday_refreshes_first_day_from_today
    (E : env) (db pre post : database) (todayKey d : string) (b : dayBucket) :
  db = pre ++ (d, b) :: post ->
  (forall k, In k (Bolt.Keys pre) -> (k <? todayKey)%string = true) ->
  (d <? todayKey)%string = false ->
  daysChecked (snd (fst (checkForEvents E db todayKey true))) = [d].
Proof.
  intros -> Hpre Hd. unfold checkForEvents.
  rewrite (Seek_first todayKey pre post d b Hpre Hd). cbn [checkDays].
  destruct (Bolt.Get String.compare d (pre ++ (d, b) :: post)) as [b0|] eqn:G.
  - destruct (checkEventsForDay E b0 _) as [[b' tr] [e|]]; reflexivity.
  - exfalso.
    refine (Get_In_key _ string_compare_eq d b (pre ++ (d, b) :: post) _ G).
    apply in_or_app. right. now left.
Qed.

Lemma checkForEvents_onlyToday_refreshes_first_day_from_today_witness :
  let W := Sample.world Sample.listsS1 0 in
  ("2024-02-28" <? "2024-03-01")%string = true
  /\ ("2024-03-05" <? "2024-03-01")%string = false
  /\ Bolt.Get String.compare "2024-03-01" Sample.threeDays = None
  /\ daysChecked
       (snd (fst (checkForEvents W Sample.threeDays
                    (dayKey Sample.firstOfMarch) true)))
     = ["2024-03-05"].
Proof.
  intro W. split; [reflexivity|]. split; [reflexivity|]. split; [reflexivity|].
  apply (checkForEvents_onlyToday_refreshes_first_day_from_today W
           Sample.threeDays [("2024-02-28", Sample.freshDay)]
           [("2024-03-09", Sample.freshDay)] (dayKey Sample.firstOfMarch)
           "2024-03-05" Sample.freshDay eq_refl).
  - intros k [<-|[]]. reflexivity.
  - reflexivity.
Defined.

(** With no stored day at or after today, nothing is refreshed. *)
Lemma checkForEvents_nothing_from_today (E : env) (db : database)
    (todayKey : string) (onlyToday : bool) :
  (forall k, In k (Bolt.Keys db) -> (k <? todayKey)%string = true) ->
  checkForEvents E db todayKey onlyToday = (db, [], None).
Proof.
  intro Hall. unfold checkForEvents. now rewrite (Seek_none _ _ Hall).
Qed.

(** In full mode every stored day from today on is refreshed, here with
    the session the site lists written to each of them. *)
Example checkForEvents_all_days :
  daysChecked
    (snd (fst (checkForEvents (Sample.world Sample.listsS1 0) Sample.threeDays
                 "2024-03-01" false)))
  = ["2024-03-05"; "2024-03-09"].
Proof. vm_compute. reflexivity. Qed.

(* --------------------------------------------------------------------- *)
(** ** A day in the life of a session *)

(** Session S1 is first seen with five spaces available: created, one
    snapshot.  The next poll is the same: nothing is written.  Then three
    spaces: updated, two snapshots.  Then S1 is missing from the listing an
    hour before its start: a third snapshot, marked cancelled; and a
    further pass without S1 adds nothing. *)
Example session_S1_over_five_passes :
  let nine := Sample.tenOClock - 3600 * Second in
  let b1 := fst (fst (Sample.passAtNine (Sample.listsS1With 5) Sample.freshDay)) in
  let b2 := fst (fst (Sample.passAtNine (Sample.listsS1With 5) b1)) in
  let b3 := fst (fst (Sample.passAtNine (Sample.listsS1With 3) b2)) in
  let b4 := fst (fst (Sample.passAtNine Sample.nothingListed b3)) in
  let b5 := fst (fst (Sample.passAtNine Sample.nothingListed b4)) in
  storedSequence (Sample.eventsOf b1) "S1"
  = [Json (Sample.snapshot "S1" "10:00:00" 5 nine false)]
  /\ b2 = b1
  /\ snd (fst (Sample.passAtNine (Sample.listsS1With 5) b1)) = []
  /\ storedSequence (Sample.eventsOf b3) "S1"
     = [Json (Sample.snapshot "S1" "10:00:00" 5 nine false);
        Json (Sample.snapshot "S1" "10:00:00" 3 nine false)]
  /\ storedSequence (Sample.eventsOf b4) "S1"
     = [Json (Sample.snapshot "S1" "10:00:00" 5 nine false);
        Json (Sample.snapshot "S1" "10:00:00" 3 nine false);
        Json (Sample.snapshot "S1" "10:00:00" 3 nine true)]
  /\ b5 = b4.
Proof. repeat split; vm_compute; reflexivity. Qed.

(* ===================================================================== *)
(** * Further properties of the code *)
(* ===================================================================== *)

(* --------------------------------------------------------------------- *)
(** ** More on [updateEvent] *)

Lemma Put_Put_same {K V : Type} (cmp : K -> K -> comparison)
    (cmp_eq : forall a b, cmp a b = Eq <-> a = b) (k : K) (v v0 : V)
    (b : Bolt.bucket (K := K) (V := V)) :
  Bolt.Put cmp k v (Bolt.Put cmp k v0 b) = Bolt.Put cmp k v b.
Proof.
  assert (R : cmp k k = Eq) by now apply cmp_eq.
  induction b as [|[k' v'] r IH]; cbn; [now rewrite R|].
  destruct (cmp k k') eqn:C; cbn; rewrite ?R, ?C; [reflexivity..|].
  now rewrite IH.
Qed.

Lemma sameDetails_trans (a b c : timestampedEventInfo) :
  sameDetails a b = true -> sameDetails b c = true -> sameDetails a c = true.
Proof.
  rewrite !sameDetails_spec. intuition congruence.
Qed.

Lemma sequenced_emptySession : sequenced emptySession.
Proof. split; [cbn; lia|constructor]. Qed.

(** The first poll of a session. *)
Lemma updateEvent_created (evb : eventsBucket) (evCtx : EventContext)
    (ev : timestampedEventInfo) :
  SessionId (embeddedEventInfo ev) <> "" ->
  Bolt.Get String.compare (SessionId (embeddedEventInfo ev)) evb = None ->
  updateEvent evb evCtx ev
  = {| store := Bolt.Put String.compare (SessionId (embeddedEventInfo ev))
                  {| snapshots := [(1, Json ev)]; sequence := 1 |} evb;
       trace := [Log CreatingEventInfo (Day evCtx) ev; CalendarSync ev evCtx;
                 PutSnapshot (SessionId (embeddedEventInfo ev)) 1 ev];
       failure := None |}.
Proof.
  intros Hne Hget. unfold updateEvent, CreateBucketIfNotExists.
  rewrite (proj2 (String.eqb_neq _ "") Hne), Hget.
  cbn. f_equal. apply Put_Put_same, string_compare_eq.
Qed.

(** With a bucket for the session, [updateEvent] either leaves everything
    as it is or puts the event under the next sequence key. *)
Lemma updateEvent_present (evb : eventsBucket) (evCtx : EventContext)
    (ev : timestampedEventInfo) (b : sessionBucket) :
  SessionId (embeddedEventInfo ev) <> "" ->
  Bolt.Get String.compare (SessionId (embeddedEventInfo ev)) evb = Some b ->
  (exists lastEv, getMostRecentDetails b = inr lastEv
                  /\ sameDetails ev lastEv = true
                  /\ updateEvent evb evCtx ev
                     = {| store := evb; trace := []; failure := None |})
  \/ (exists line,
        (forall lastEv, getMostRecentDetails b = inr lastEv ->
                        sameDetails ev lastEv = false)
        /\ updateEvent evb evCtx ev
           = {| store := Bolt.Put String.compare
                           (SessionId (embeddedEventInfo ev))
                           (putSnapshot (fst (NextSequence b)) (Json ev)
                              (snd (NextSequence b))) evb;
                trace := [Log line (Day evCtx) ev; CalendarSync ev evCtx;
                          PutSnapshot (SessionId (embeddedEventInfo ev))
                            (fst (NextSequence b)) ev];
                failure := None |}).
Proof.
  intros Hne Hget. unfold updateEvent.
  rewrite (CreateBucketIfNotExists_present _ _ _ Hne Hget).
  destruct (getMostRecentDetails b) as [e|lastEv] eqn:D.
  - right. exists CreatingEventInfo. split; [discriminate|reflexivity].
  - destruct (sameDetails ev lastEv) eqn:S.
    + left. exists lastEv. now repeat split.
    + right. exists UpdatingEventInfo. split; [|reflexivity].
      now intros l [= <-].
Qed.

Lemma storedSequence_Put_same (sid : string) (b : sessionBucket)
    (evb : eventsBucket) :
  storedSequence (Bolt.Put String.compare sid b evb) sid = map snd (snapshots b).
Proof. unfold storedSequence. now rewrite events_Get_Put_same. Qed.

(** X1.  [updateEvent] fails exactly when the session identifier of the
    event is empty (the bucket for the session cannot be created); then it
    leaves the events bucket as it was and neither logs, syncs nor writes
    anything. *)
Theorem updateEvent_fails_exactly_on_empty_session_id (evb : eventsBucket)
    (evCtx : EventContext) (ev : timestampedEventInfo) :
  let r := updateEvent evb evCtx ev in
  (failure r <> None <-> SessionId (embeddedEventInfo ev) = "")
  /\ (failure r <> None ->
      failure r = Some ErrCreateSessionBucket /\ store r = evb /\ trace r = []).
Proof.
  intro r. unfold r.
  destruct (string_dec (SessionId (embeddedEventInfo ev)) "") as [He|Hne].
  - unfold updateEvent, CreateBucketIfNotExists. rewrite He. cbn.
    split; [split; [reflexivity|discriminate]|]. now intros _.
  - rewrite (updateEvent_failure _ _ _ Hne).
    split; [split; [intro H; now contradiction H|contradiction]|].
    intro H. now contradiction H.
Qed.

(** X2.  The first poll of a session whose identifier is not empty and that
    has no bucket yet creates the bucket with the event as its only
    snapshot, under sequence key 1; the event is logged as created, synced
    to the calendar and written, and it is the latest snapshot of the
    session afterwards.  The buckets of other sessions stay as they are. *)
Theorem updateEvent_creates_session_on_first_poll (evb : eventsBucket)
    (evCtx : EventContext) (ev : timestampedEventInfo) :
  SessionId (embeddedEventInfo ev) <> "" ->
  Bolt.Get String.compare (SessionId (embeddedEventInfo ev)) evb = None ->
  let sid := SessionId (embeddedEventInfo ev) in
  let r := updateEvent evb evCtx ev in
  failure r = None
  /\ Bolt.Get String.compare sid (store r)
     = Some {| snapshots := [(1, Json ev)]; sequence := 1 |}
  /\ latestSnapshot (store r) sid = Some ev
  /\ trace r = [Log CreatingEventInfo (Day evCtx) ev; CalendarSync ev evCtx;
                PutSnapshot sid 1 ev]
  /\ forall sid', sid' <> sid ->
       Bolt.Get String.compare sid' (store r)
       = Bolt.Get String.compare sid' evb.
Proof.
  intros Hne Hget sid r. unfold r, sid.
  rewrite (updateEvent_created _ _ _ Hne Hget). cbn [store trace failure].
  split; [reflexivity|]. split; [apply events_Get_Put_same|].
  split; [unfold latestSnapshot; now rewrite events_Get_Put_same|].
  split; [reflexivity|]. intros sid' Hs. now apply events_Get_Put_other.
Qed.

Lemma updateEvent_creates_session_on_first_poll_witness :
  let ev := Sample.snapshot "S2" "12:00:00" 7 0 false in
  Bolt.Get String.compare "S2" Sample.seenOnce = None
  /\ store (updateEvent Sample.seenOnce Sample.ctx ev)
     = [("S1", Sample.oneSnapshot (Sample.snapshot "S1" "10:00:00" 5 0 false));
        ("S2", Sample.oneSnapshot ev)]
  /\ latestSnapshot (store (updateEvent Sample.seenOnce Sample.ctx ev)) "S2"
     = Some ev.
Proof.
  intro ev. split; [reflexivity|]. split; [reflexivity|].
  refine (proj1 (proj2 (proj2
            (updateEvent_creates_session_on_first_poll Sample.seenOnce
               Sample.ctx ev _ eq_refl)))).
  discriminate.
Defined.

(** What [updateEvent] does to the stored sequence of the session of the
    event, when the counter of its bucket has room. *)
Lemma updateEvent_sequence (evb : eventsBucket) (evCtx : EventContext)
    (ev : timestampedEventInfo) :
  (forall b, Bolt.Get String.compare (SessionId (embeddedEventInfo ev)) evb
             = Some b -> sequenced b) ->
  let sid := SessionId (embeddedEventInfo ev) in
  let r := updateEvent evb evCtx ev in
  (r = {| store := evb; trace := []; failure := failure r |}
   /\ (failure r = None ->
       exists cur, latestSnapshot evb sid = Some cur
                   /\ sameDetails ev cur = true))
  \/ (storedSequence (store r) sid = storedSequence evb sid ++ [Json ev]
      /\ latestSnapshot (store r) sid = Some ev
      /\ written (trace r) = [ev]
      /\ failure r = None).
Proof.
  intros Hseq sid r. unfold r, sid.
  destruct (string_dec (SessionId (embeddedEventInfo ev)) "") as [He|Hne].
  { left. unfold updateEvent, CreateBucketIfNotExists. rewrite He. cbn.
    split; [reflexivity|discriminate]. }
  destruct (Bolt.Get String.compare (SessionId (embeddedEventInfo ev)) evb)
    as [b|] eqn:G.
  - destruct (updateEvent_present evb evCtx ev b Hne G)
      as [(lastEv & D & S & ->)|(line & _ & ->)].
    + left. split; [reflexivity|]. intros _. exists lastEv.
      unfold latestSnapshot. now rewrite G, D.
    + right. rewrite (write_appends b (Json ev) (Hseq b eq_refl)).
      cbn [store trace failure written].
      rewrite storedSequence_Put_same. cbn [snapshots].
      unfold storedSequence at 1, latestSnapshot.
      rewrite G, events_Get_Put_same, map_app.
      unfold getMostRecentDetails. cbn [snapshots].
      rewrite (Last_snoc (snapshots b) (sequence b + 1, Json ev)).
      now repeat split.
  - right. rewrite (updateEvent_created _ _ _ Hne G).
    cbn [store trace failure written].
    rewrite storedSequence_Put_same. unfold storedSequence, latestSnapshot.
    rewrite G, events_Get_Put_same. now repeat split.
Qed.

(** X3.  The history of a session is append-only: when the counter of the
    session's bucket has room, [updateEvent] leaves the stored sequence of
    the session as it was or appends the event to it, one snapshot at
    most, and it never touches the sequence of another session. *)
Theorem updateEvent_history_is_append_only (evb : eventsBucket)
    (evCtx : EventContext) (ev : timestampedEventInfo) :
  (forall b, Bolt.Get String.compare (SessionId (embeddedEventInfo ev)) evb
             = Some b -> sequenced b) ->
  let sid := SessionId (embeddedEventInfo ev) in
  let r := updateEvent evb evCtx ev in
  (storedSequence (store r) sid = storedSequence evb sid
   \/ storedSequence (store r) sid = storedSequence evb sid ++ [Json ev])
  /\ forall sid', sid' <> sid ->
       storedSequence (store r) sid' = storedSequence evb sid'.
Proof.
  intros Hseq sid r. split.
  - destruct (updateEvent_sequence evb evCtx ev Hseq) as [[H _]|[H _]].
    + left. fold r in H. now rewrite H.
    + now right.
  - intros sid' Hs. unfold storedSequence, r.
    now rewrite updateEvent_other.
Qed.

Lemma updateEvent_history_is_append_only_witness :
  let ev := Sample.snapshot "S1" "10:00:00" 3 60 false in
  let lastEv := Sample.snapshot "S1" "10:00:00" 5 0 false in
  (forall b, Bolt.Get String.compare "S1" Sample.seenOnce = Some b ->
             sequenced b)
  /\ (storedSequence (store (updateEvent Sample.seenOnce Sample.ctx ev)) "S1"
      = [Json lastEv]
      \/ storedSequence (store (updateEvent Sample.seenOnce Sample.ctx ev)) "S1"
         = [Json lastEv] ++ [Json ev]).
Proof.
  intros ev lastEv.
  assert (H : forall b, Bolt.Get String.compare "S1" Sample.seenOnce = Some b ->
                        sequenced b).
  { intros b [= <-]. split; [cbn; lia|]. repeat constructor. cbn. lia. }
  split; [exact H|].
  exact (proj1 (updateEvent_history_is_append_only Sample.seenOnce Sample.ctx
                  ev H)).
Defined.

(** X4.  Polling the same details again writes nothing: after
    [updateEvent] took an event, a second event for the same session with
    the same nine compared fields (whatever its timestamp and context) is
    dropped without log, sync or write. *)
Theorem updateEvent_twice_writes_once (evb : eventsBucket)
    (evCtx evCtx' : EventContext) (ev ev' : timestampedEventInfo) :
  SessionId (embeddedEventInfo ev) <> "" ->
  (forall b, Bolt.Get String.compare (SessionId (embeddedEventInfo ev)) evb
             = Some b -> sequenced b) ->
  SessionId (embeddedEventInfo ev') = SessionId (embeddedEventInfo ev) ->
  sameDetails ev' ev = true ->
  updateEvent (store (updateEvent evb evCtx ev)) evCtx' ev'
  = {| store := store (updateEvent evb evCtx ev); trace := [];
       failure := None |}.
Proof.
  intros Hne Hseq Hsid Hsame.
  pose proof (updateEvent_failure evb evCtx ev Hne) as Hf.
  assert (Hcur : exists cur,
             latestSnapshot (store (updateEvent evb evCtx ev))
               (SessionId (embeddedEventInfo ev)) = Some cur
             /\ sameDetails ev cur = true).
  { destruct (updateEvent_sequence evb evCtx ev Hseq) as [[H1 H2]|(_ & H & _)].
    - rewrite H1. cbn [store]. now apply H2.
    - exists ev. split; [exact H|apply sameDetails_refl]. }
  destruct Hcur as (cur & Hl & Hs). unfold latestSnapshot in Hl.
  destruct (Bolt.Get String.compare (SessionId (embeddedEventInfo ev))
              (store (updateEvent evb evCtx ev))) as [b'|] eqn:G;
    [|discriminate].
  destruct (getMostRecentDetails b') as [e|l] eqn:D; [discriminate|].
  injection Hl as ->.
  apply (updateEvent_unchanged _ _ _ cur b'); rewrite ?Hsid; auto.
  now apply (sameDetails_trans _ ev).
Qed.

Lemma updateEvent_twice_writes_once_witness :
  let ev := Sample.snapshot "S1" "10:00:00" 3 60 false in
  let ev' := Sample.snapshot "S1" "10:00:00" 3 120 false in
  let evb1 := store (updateEvent Sample.seenOnce Sample.ctx ev) in
  sameDetails ev' ev = true
  /\ storedSequence evb1 "S1"
     = [Json (Sample.snapshot "S1" "10:00:00" 5 0 false); Json ev]
  /\ updateEvent evb1 Sample.ctx ev'
     = {| store := evb1; trace := []; failure := None |}.
Proof.
  intros ev ev' evb1. split; [reflexivity|]. split; [reflexivity|].
  apply (updateEvent_twice_writes_once Sample.seenOnce Sample.ctx Sample.ctx
           ev ev'); try reflexivity; try discriminate.
  intros b [= <-]. split; [cbn; lia|]. repeat constructor. cbn. lia.
Defined.

Lemma ascending_snoc (l : Bolt.bucket (K := Z) (V := value)) (k : Z) (v : value) :
  Bolt.ascending Z.compare l ->
  Forall (fun kv : Z * value => fst kv < k) l ->
  Bolt.ascending Z.compare (l ++ [(k, v)]).
Proof.
  induction l as [|[k' v'] r IH]; cbn; [now split|].
  intros [Hall Hr] Hlt. apply Forall_cons_iff in Hlt as [Hk Hlt]. cbn in Hk.
  split; [|now apply IH].
  apply Forall_app. split; [exact Hall|].
  constructor; [|constructor]. cbn. now apply Z.compare_lt_iff.
Qed.

(** X5.  [updateEvent] keeps the session buckets tidy: if in every bucket
    the sequence keys ascend, start at 1 and do not exceed the counter, and
    the counter of the event's session can still be incremented, the same
    holds of every bucket afterwards. *)
Theorem updateEvent_keeps_buckets_tidy (evb : eventsBucket)
    (evCtx : EventContext) (ev : timestampedEventInfo) :
  (forall sid b, Bolt.Get String.compare sid evb = Some b -> tidy b) ->
  (forall b, Bolt.Get String.compare (SessionId (embeddedEventInfo ev)) evb
             = Some b -> sequence b < 2 ^ 64 - 1) ->
  forall sid b, Bolt.Get String.compare sid (store (updateEvent evb evCtx ev))
                = Some b -> tidy b.
Proof.
  intros Htidy Hroom sid b'.
  destruct (string_dec sid (SessionId (embeddedEventInfo ev))) as [->|Hs];
    [|rewrite updateEvent_other by exact Hs; apply Htidy].
  destruct (string_dec (SessionId (embeddedEventInfo ev)) "") as [He|Hne].
  { unfold updateEvent, CreateBucketIfNotExists. rewrite He. cbn.
    rewrite <- He. apply Htidy. }
  destruct (Bolt.Get String.compare (SessionId (embeddedEventInfo ev)) evb)
    as [b|] eqn:G.
  - destruct (Htidy _ _ G) as (H0 & Hasc & Hkeys).
    assert (Hseq : sequenced b).
    { split; [specialize (Hroom b eq_refl); lia|].
      eapply Forall_impl; [|exact Hkeys]. intros [k0 v0] Hk0. cbn in *. lia. }
    destruct (updateEvent_present evb evCtx ev b Hne G)
      as [(lastEv & _ & _ & ->)|(line & _ & ->)]; cbn [store].
    + rewrite G. intros [= <-]. now repeat split.
    + rewrite (write_appends b (Json ev) Hseq), events_Get_Put_same.
      intros [= <-]. unfold tidy. cbn [snapshots sequence]. split; [lia|]. split.
      * apply ascending_snoc; [exact Hasc|].
        eapply Forall_impl; [|exact Hkeys]. intros [k0 v0] Hk0. cbn in *. lia.
      * apply Forall_app. split.
        -- eapply Forall_impl; [|exact Hkeys]. intros [k0 v0] Hk0. cbn in *. lia.
        -- constructor; [cbn; lia|constructor].
  - rewrite (updateEvent_created _ _ _ Hne G). cbn [store].
    rewrite events_Get_Put_same. intros [= <-]. unfold tidy.
    cbn [snapshots sequence].
    split; [lia|]. split; [now split|]. constructor; [cbn; lia|constructor].
Qed.

Lemma updateEvent_keeps_buckets_tidy_witness :
  let ev := Sample.snapshot "S1" "10:00:00" 3 60 false in
  (forall sid b, Bolt.Get String.compare sid Sample.seenOnce = Some b -> tidy b)
  /\ tidy {| snapshots := [(1, Json (Sample.snapshot "S1" "10:00:00" 5 0 false));
                           (2, Json ev)];
             sequence := 2 |}.
Proof.
  intro ev.
  assert (H : forall sid b, Bolt.Get String.compare sid Sample.seenOnce = Some b ->
                            tidy b).
  { intros sid b. cbn. destruct (sid ?= "S1")%string; try discriminate.
    intros [= <-]. unfold tidy, Sample.oneSnapshot. cbn [snapshots sequence].
    split; [lia|]. split; [now split|].
    constructor; [cbn; lia|constructor]. }
  split; [exact H|].
  apply (updateEvent_keeps_buckets_tidy Sample.seenOnce Sample.ctx ev H) with "S1".
  - intros b [= <-]. cbn. lia.
  - reflexivity.
Defined.

(* --------------------------------------------------------------------- *)
(** ** What a pass over a day writes *)

Lemma isSessionInList_In (seen : list string) (sessId : string) :
  isSessionInList seen sessId = true <-> In sessId seen.
Proof.
  induction seen as [|id rest IH]; cbn; [split; [discriminate|tauto]|].
  destruct (id =? sessId)%string eqn:C.
  - apply String.eqb_eq in C. split; auto.
  - apply String.eqb_neq in C. rewrite IH. split; [auto|intros [?|?]; tauto].
Qed.

Lemma written_app (a b : list effect) : written (a ++ b) = written a ++ written b.
Proof.
  induction a as [|e a IH]; [reflexivity|].
  destruct e; cbn; now rewrite IH.
Qed.

Lemma updateEvent_written (evb : eventsBucket) (evCtx : EventContext)
    (ev x : timestampedEventInfo) :
  In x (written (trace (updateEvent evb evCtx ev))) -> x = ev.
Proof.
  unfold updateEvent.
  destruct (CreateBucketIfNotExists _ evb) as [[evb1 b]|]; [|intros []].
  destruct (getMostRecentDetails b) as [e|l]; [|destruct (sameDetails ev l)];
    cbn; intuition.
Qed.

Lemma updateEvent_wellKeyed_always (evb : eventsBucket) (evCtx : EventContext)
    (ev : timestampedEventInfo) :
  wellKeyed evb -> wellKeyed (store (updateEvent evb evCtx ev)).
Proof.
  intro Hwk.
  destruct (string_dec (SessionId (embeddedEventInfo ev)) "") as [He|Hne].
  - unfold updateEvent, CreateBucketIfNotExists. now rewrite He.
  - now apply updateEvent_wellKeyed.
Qed.

Section PassWrites.
Variable E : env.

Lemma addEvents_facts (evCtx : EventContext) (now : Z) (evs : list EventInfo) :
  forall evb seen,
    let res := addEvents evCtx now evs evb seen in
    (wellKeyed evb -> wellKeyed (store (fst res)))
    /\ (forall x, In x (written (trace (fst res))) ->
                  Cancelled x = false /\ UpdatedAt x = now
                  /\ In (embeddedEventInfo x) evs)
    /\ (failure (fst res) = None -> snd res = seen ++ map SessionId evs)
    /\ ((forall ev, In ev evs -> SessionId ev <> "") -> failure (fst res) = None).
Proof.
  induction evs as [|ev rest IH]; intros evb seen; cbn [addEvents].
  - cbn [fst snd store trace failure written map].
    split; [auto|]. split; [intros x []|].
    split; [intros _; now rewrite app_nil_r|reflexivity].
  - set (c := {| embeddedEventInfo := ev; UpdatedAt := now; Cancelled := false |}).
    pose proof (updateEvent_written evb evCtx c) as Hw.
    pose proof (updateEvent_wellKeyed_always evb evCtx c) as Hk.
    destruct (failure (updateEvent evb evCtx c)) as [err|] eqn:F.
    + cbn [fst snd store trace failure]. split; [exact Hk|]. split.
      * intros x Hx. rewrite (Hw x Hx). cbn. repeat split. now left.
      * split; [discriminate|]. intros Hne.
        rewrite updateEvent_failure in F; [discriminate F|].
        cbn. apply Hne. now left.
    + specialize (IH (store (updateEvent evb evCtx c)) (seen ++ [SessionId ev])).
      destruct (addEvents evCtx now rest _ _) as [r' seen'].
      cbn [fst snd store trace failure] in *.
      destruct IH as (IH1 & IH2 & IH3 & IH4).
      split; [auto|]. split; [|split].
      * intros x Hx. rewrite written_app in Hx.
        apply in_app_or in Hx as [Hx|Hx].
        -- rewrite (Hw x Hx). cbn. repeat split. now left.
        -- destruct (IH2 x Hx) as (? & ? & ?). repeat split; auto. now right.
      * intros Hf. rewrite (IH3 Hf), <- app_assoc. reflexivity.
      * intros Hne. apply IH4. intros e He. apply Hne. now right.
Qed.

Lemma pollProducts_facts (day : string) (pids : list ProductId) :
  forall evb seen,
    let res := pollProducts E day pids evb seen in
    (wellKeyed evb -> wellKeyed (store (fst res)))
    /\ (forall x, In x (written (trace (fst res))) -> Cancelled x = false)
    /\ (failure (fst res) = None ->
        snd res = seen ++ listedSessions E day pids
        /\ forall pid, In pid pids -> getEventsInfo E day pid <> None)
    /\ ((forall pid, In pid pids ->
           exists evs, getEventsInfo E day pid = Some evs
                       /\ forall ev, In ev evs -> SessionId ev <> "") ->
        failure (fst res) = None).
Proof.
  induction pids as [|pid rest IH]; intros evb seen; cbn [pollProducts].
  - cbn [fst snd store trace failure written listedSessions flat_map].
    split; [auto|]. split; [intros x []|].
    split; [intros _; split; [now rewrite app_nil_r|intros p []]|reflexivity].
  - unfold listedSessions. cbn [flat_map]. fold (listedSessions E day rest).
    destruct (getEventsInfo E day pid) as [evs|] eqn:G.
    + pose proof (addEvents_facts {| Day := day; Product := pid |}
                    (pollTime E day pid) evs evb seen) as HA.
      destruct (addEvents _ _ evs evb seen) as [r seen1].
      cbn [fst snd] in HA. destruct HA as (A1 & A2 & A3 & A4).
      destruct (failure r) as [err|] eqn:F.
      * cbn [fst snd]. split; [exact A1|]. split; [intros x Hx; apply (A2 x Hx)|].
        split; [rewrite F; discriminate|].
        intros Hall. destruct (Hall pid (or_introl eq_refl))
          as (evs' & Ge & Hne). rewrite G in Ge. injection Ge as <-.
        rewrite ?F. exact (A4 Hne).
      * specialize (IH (store r) seen1).
        destruct (pollProducts E day rest (store r) seen1) as [r' seen2].
        cbn [fst snd store trace failure] in *.
        destruct IH as (I1 & I2 & I3 & I4).
        split; [auto|]. split; [|split].
        -- intros x Hx. rewrite written_app in Hx.
           apply in_app_or in Hx as [Hx|Hx]; [apply (A2 x Hx)|now apply I2].
        -- intros Hf. destruct (I3 Hf) as [-> Hrest]. rewrite (A3 eq_refl).
           split; [now rewrite <- app_assoc|].
           intros p [<-|Hp]; [now rewrite G|now apply Hrest].
        -- intros Hall. apply I4. intros p Hp. apply Hall. now right.
    + cbn [fst snd store trace failure written]. split; [auto|].
      split; [intros x []|]. split; [discriminate|].
      intros Hall. destruct (Hall pid (or_introl eq_refl)) as (evs & Ge & _).
      rewrite G in Ge. discriminate Ge.
Qed.

Lemma cancelScan_written (evCtx : EventContext) (now : Z) (seen : list string)
    (sids : list string) :
  forall evb, wellKeyed evb ->
    forall x, In x (written (trace (cancelScan E evCtx now seen sids evb))) ->
      Cancelled x = true /\ UpdatedAt x = now
      /\ ~ In (SessionId (embeddedEventInfo x)) seen.
Proof.
  induction sids as [|sid rest IH]; intros evb Hwk x; [intros []|].
  rewrite cancelScan_cons.
  destruct (scanDecision E evCtx now seen evb sid) as [| |c] eqn:Dec;
    [now apply IH|intros []|].
  destruct (scanDecision_Cancel_key _ _ _ _ _ _ _ Hwk Dec) as [Hk Hne].
  destruct (scanDecision_Cancel _ _ _ _ _ _ _ Dec)
    as (sessb & lastEv & t & _ & _ & _ & _ & S & Hc).
  cbv zeta. rewrite updateEvent_failure by congruence.
  cbn [store trace failure]. rewrite written_app.
  intros [Hx|Hx]%in_app_or.
  - apply updateEvent_written in Hx. subst x. rewrite Hk. subst c. cbn.
    repeat split. rewrite <- isSessionInList_In. now rewrite S.
  - revert Hx. apply IH. apply updateEvent_wellKeyed; [congruence|exact Hwk].
Qed.

Lemma cancelScan_spares_listed (evCtx : EventContext) (now : Z)
    (seen : list string) (sid : string) (sids : list string) :
  In sid seen ->
  forall evb, wellKeyed evb ->
    Bolt.Get String.compare sid (store (cancelScan E evCtx now seen sids evb))
    = Bolt.Get String.compare sid evb.
Proof.
  intros Hin. apply isSessionInList_In in Hin.
  induction sids as [|k rest IH]; intros evb Hwk; [reflexivity|].
  rewrite cancelScan_cons.
  destruct (scanDecision E evCtx now seen evb k) as [| |c] eqn:Dec;
    [now apply IH|reflexivity|].
  destruct (scanDecision_Cancel_key _ _ _ _ _ _ _ Hwk Dec) as [Hk Hne].
  destruct (scanDecision_Cancel _ _ _ _ _ _ _ Dec)
    as (_ & _ & _ & _ & _ & _ & _ & S & _).
  assert (Hs : sid <> k) by (intros ->; congruence).
  cbv zeta. rewrite updateEvent_failure by congruence. cbn [store].
  rewrite IH by (apply updateEvent_wellKeyed; [congruence|exact Hwk]).
  apply updateEvent_other. congruence.
Qed.
End PassWrites.

(** X6.  When the booking site answers for every product of the day and no
    listed session has an empty identifier, polling the products succeeds
    and the list of session identifiers seen is, appended to the list it
    started from, exactly the identifiers the site listed, product by
    product and in listing order. *)
Theorem pollProducts_sees_what_is_listed (E : env) (day : string)
    (pids : list ProductId) (evb : eventsBucket) (seen : list string) :
  (forall pid, In pid pids ->
     exists evs, getEventsInfo E day pid = Some evs
                 /\ forall ev, In ev evs -> SessionId ev <> "") ->
  failure (fst (pollProducts E day pids evb seen)) = None
  /\ snd (pollProducts E day pids evb seen) = seen ++ listedSessions E day pids.
Proof.
  intro Hall.
  destruct (pollProducts_facts E day pids evb seen) as (_ & _ & H3 & H4).
  split; [now apply H4|]. now apply H3, H4.
Qed.

Lemma pollProducts_sees_what_is_listed_witness :
  let W := Sample.world (Sample.listsS1With 5) 0 in
  (forall pid, In pid ["p1"; "p2"] ->
     exists evs, getEventsInfo W "2024-03-01" pid = Some evs
                 /\ forall ev, In ev evs -> SessionId ev <> "")
  /\ snd (pollProducts W "2024-03-01" ["p1"; "p2"] [] []) = ["S1"; "S1"].
Proof.
  intro W.
  assert (H : forall pid, In pid ["p1"; "p2"] ->
                exists evs, getEventsInfo W "2024-03-01" pid = Some evs
                            /\ forall ev, In ev evs -> SessionId ev <> "").
  { intros pid _. exists [Sample.session "S1" "10:00:00" 5].
    split; [reflexivity|]. intros ev [<-|[]]. discriminate. }
  split; [exact H|].
  exact (proj2 (pollProducts_sees_what_is_listed W "2024-03-01" ["p1"; "p2"]
                  [] [] H)).
Defined.

(** X7.  A session that was seen in the listing is never written to by the
    cancellation pass, whatever its start time and whatever the other
    sessions of the day are. *)
Theorem inferCancellations_spares_listed_sessions (E : env)
    (evCtx : EventContext) (now : Z) (seen : list string)
    (evb : eventsBucket) (sid : string) :
  wellKeyed evb ->
  In sid seen ->
  Bolt.Get String.compare sid (store (inferCancellations E evCtx now seen evb))
  = Bolt.Get String.compare sid evb.
Proof.
  intros Hwk Hin. unfold inferCancellations.
  now apply cancelScan_spares_listed.
Qed.

Lemma inferCancellations_spares_listed_sessions_witness :
  let W := Sample.world Sample.nothingListed Sample.tenOClock in
  wellKeyed Sample.laterSessions
  /\ In "C" ["C"]
  /\ Bolt.Get String.compare "C"
       (store (inferCancellations W Sample.ctx Sample.tenOClock ["C"]
                 Sample.laterSessions))
     = Some (Sample.oneSnapshot (Sample.snapshot "C" "12:00:00" 5 0 false)).
Proof.
  intro W.
  assert (Hwk : wellKeyed Sample.laterSessions).
  { repeat (apply wellKeyed_cons;
            [discriminate
            |intros lastEv H; cbn in H; injection H as <-; reflexivity|]).
    apply wellKeyed_nil. }
  split; [exact Hwk|]. split; [now left|].
  exact (inferCancellations_spares_listed_sessions W Sample.ctx
           Sample.tenOClock ["C"] Sample.laterSessions "C" Hwk
           (or_introl eq_refl)).
Defined.

(** X8.  In a pass over a day, a snapshot marked cancelled is written only
    for a session that the booking site did not list in that pass, and only
    when the site answered for every product of the day: if the fetch fails
    for some product, the pass writes no cancelled snapshot at all. *)
Theorem checkEventsForDay_cancels_only_unlisted_sessions (E : env)
    (b : dayBucket) (evCtx : EventContext) (pids : list ProductId)
    (x : timestampedEventInfo) :
  productsOfDay E b = Some pids ->
  wellKeyed (eventsOfDay b) ->
  In x (written (snd (fst (checkEventsForDay E b evCtx)))) ->
  Cancelled x = true ->
  ~ In (SessionId (embeddedEventInfo x)) (listedSessions E (Day evCtx) pids)
  /\ forall pid, In pid pids -> getEventsInfo E (Day evCtx) pid <> None.
Proof.
  unfold productsOfDay, eventsOfDay, checkEventsForDay.
  intros -> Hwk.
  pose proof (pollProducts_facts E (Day evCtx) pids
                (match events b with Some evb => evb | None => [] end) [])
    as HP.
  destruct (pollProducts E (Day evCtx) pids _ []) as [r seen].
  cbn [fst snd] in HP. destruct HP as (P1 & P2 & P3 & _).
  destruct (failure r) as [err|] eqn:F; cbn [fst snd].
  - intros Hx Hc. rewrite (P2 x Hx) in Hc. discriminate Hc.
  - rewrite written_app. intros [Hx|Hx]%in_app_or Hc.
    + rewrite (P2 x Hx) in Hc. discriminate Hc.
    + destruct (P3 eq_refl) as [Hseen Hall]. cbn [app] in Hseen.
      split; [|exact Hall]. rewrite <- Hseen.
      unfold inferCancellations in Hx.
      exact (proj2 (proj2 (cancelScan_written E _ _ _ _ _ (P1 Hwk) x Hx))).
Qed.

Lemma checkEventsForDay_cancels_only_unlisted_sessions_witness :
  let W := Sample.world Sample.nothingListed Sample.tenOClock in
  let x := Sample.snapshot "B" "11:00:00" 5 Sample.tenOClock true in
  productsOfDay W (Sample.dayWith Sample.onlyB) = Some ["p1"]
  /\ In x (written (snd (fst (checkEventsForDay W (Sample.dayWith Sample.onlyB)
                                {| Day := "2024-03-01"; Product := "" |}))))
  /\ ~ In "B" (listedSessions W "2024-03-01" ["p1"]).
Proof.
  intros W x.
  assert (Hp : productsOfDay W (Sample.dayWith Sample.onlyB) = Some ["p1"])
    by reflexivity.
  assert (Hx : In x (written (snd (fst (checkEventsForDay W
                                          (Sample.dayWith Sample.onlyB)
                                          {| Day := "2024-03-01";
                                             Product := "" |})))))
    by (vm_compute; now left).
  split; [exact Hp|]. split; [exact Hx|].
  refine (proj1 (checkEventsForDay_cancels_only_unlisted_sessions W
                   (Sample.dayWith Sample.onlyB)
                   {| Day := "2024-03-01"; Product := "" |} ["p1"] x Hp _ Hx
                   eq_refl)).
  apply wellKeyed_cons; [discriminate| |apply wellKeyed_nil].
  intros lastEv H. cbn in H. injection H as <-. reflexivity.
Defined.

(* --------------------------------------------------------------------- *)
(** ** The days that [checkForEvents] refreshes *)

Lemma database_Get_Put_other (key key2 : string) (b : dayBucket) (db : database) :
  key2 <> key ->
  Bolt.Get String.compare key2 (Bolt.Put String.compare key b db)
  = Bolt.Get String.compare key2 db.
Proof. apply Get_Put_other, string_compare_eq. Qed.

Lemma checkEventsForDay_products (E : env) (b : dayBucket) (evCtx : EventContext) :
  products (fst (fst (checkEventsForDay E b evCtx))) = products b.
Proof.
  unfold checkEventsForDay.
  destruct (match products b with
            | Some raw => unmarshalProducts E raw
            | None => None
            end) as [pids|]; [|reflexivity].
  destruct (pollProducts E (Day evCtx) pids _ []) as [r seen].
  now destruct (failure r).
Qed.

Lemma Seek_incl (todayKey : string) (db : database) (kb : string * dayBucket) :
  In kb (Bolt.Seek String.compare todayKey db) -> In kb db.
Proof.
  induction db as [|[k v] db IH]; [intros []|].
  cbn [Bolt.Seek]. destruct (k ?= todayKey)%string; auto.
  intro H. right. now apply IH.
Qed.

Section Days.
Variable E : env.

Lemma checkDays_log (onlyToday : bool) (days : list (string * dayBucket)) :
  forall db,
    (forall d, In d (Bolt.Keys days) -> Bolt.Get String.compare d db <> None) ->
    exists rest,
      Bolt.Keys days
      = daysChecked (snd (fst (checkDays E onlyToday days db))) ++ rest
      /\ (onlyToday = false ->
          snd (checkDays E onlyToday days db) = None -> rest = []).
Proof.
  induction days as [|[d b0] days IH]; intros db Hpres.
  - exists []. now split.
  - cbn [checkDays].
    destruct (Bolt.Get String.compare d db) as [b|] eqn:G;
      [|exfalso; apply (Hpres d); [now left|exact G]].
    destruct (checkEventsForDay E b {| Day := d; Product := "" |})
      as [[b' tr] [e|]].
    + exists (Bolt.Keys days). split; [reflexivity|discriminate].
    + destruct onlyToday.
      * exists (Bolt.Keys days). split; [reflexivity|discriminate].
      * destruct (IH (Bolt.Put String.compare d b' db)) as (rest & E1 & E2).
        { intros k Hk. destruct (string_dec k d) as [->|Hkd].
          - rewrite database_Get_Put_same. discriminate.
          - rewrite database_Get_Put_other by exact Hkd.
            apply Hpres. now right. }
        destruct (checkDays E false days (Bolt.Put String.compare d b' db))
          as [[db'' log] err'].
        cbn [fst snd daysChecked map] in *.
        exists rest. split; [unfold Bolt.Keys in *; cbn; now rewrite E1|].
        exact E2.
Qed.

Lemma checkDays_keeps (onlyToday : bool) (days : list (string * dayBucket)) :
  forall db,
    Bolt.ascending String.compare db ->
    let db' := fst (fst (checkDays E onlyToday days db)) in
    Bolt.Keys db' = Bolt.Keys db
    /\ forall k, option_map products (Bolt.Get String.compare k db')
                 = option_map products (Bolt.Get String.compare k db).
Proof.
  induction days as [|[d b0] days IH]; intros db Hasc; cbn [checkDays].
  - now split.
  - destruct (Bolt.Get String.compare d db) as [b|] eqn:G; [|now apply IH].
    pose proof (checkEventsForDay_products E b {| Day := d; Product := "" |})
      as Hp.
    destruct (checkEventsForDay E b {| Day := d; Product := "" |})
      as [[b' tr] err]. cbn [fst] in Hp.
    assert (HK : Bolt.Keys (Bolt.Put String.compare d b' db) = Bolt.Keys db)
      by (eapply Keys_Put_present;
          eauto using string_compare_eq, string_compare_antisym).
    assert (HP : forall k,
               option_map products
                 (Bolt.Get String.compare k (Bolt.Put String.compare d b' db))
               = option_map products (Bolt.Get String.compare k db)).
    { intro k. destruct (string_dec k d) as [->|Hkd].
      - rewrite database_Get_Put_same, G. cbn. now rewrite Hp.
      - now rewrite database_Get_Put_other. }
    destruct err as [e|]; [now split|].
    destruct onlyToday; [now split|].
    specialize (IH (Bolt.Put String.compare d b' db)
                  (ascending_Keys _ _ _ HK Hasc)).
    destruct (checkDays E false days (Bolt.Put String.compare d b' db))
      as [[db'' log] err'].
    cbn [fst snd] in *. destruct IH as [IK IP].
    split; [now rewrite IK|]. intro k. now rewrite IP.
Qed.
End Days.

(** X9.  The days that [checkForEvents] refreshes are, in order, the stored
    days from today's key on, up to the day at which it stops; in full mode
    a run without error refreshes every one of them.  A run that ends in
    an error leaves the database as it was. *)
Theorem checkForEvents_refreshes_days_in_order (E : env) (db : database)
    (todayKey : string) (onlyToday : bool) :
  let res := checkForEvents E db todayKey onlyToday in
  (exists rest,
     Bolt.Keys (Bolt.Seek String.compare todayKey db)
     = daysChecked (snd (fst res)) ++ rest
     /\ (onlyToday = false -> snd res = None -> rest = []))
  /\ (snd res <> None -> fst (fst res) = db).
Proof.
  intro res. unfold res, checkForEvents.
  destruct (checkDays_log E onlyToday (Bolt.Seek String.compare todayKey db) db)
    as (rest & E1 & E2).
  { intros d ([k b] & <- & Hin)%in_map_iff. cbn.
    apply (Get_In_key _ string_compare_eq k b). now apply Seek_incl in Hin. }
  destruct (checkDays E onlyToday _ db) as [[db' log] [e|]];
    cbn [fst snd] in *.
  - split; [exists rest; split; [exact E1|discriminate]|reflexivity].
  - split; [exists rest; now split|]. intro H. now contradiction H.
Qed.

(** X10.  [checkForEvents] never adds or removes a day and never changes a
    product list: on a database whose day keys ascend, the day keys and the
    value stored under "products" of every day are afterwards what they
    were before. *)
Theorem checkForEvents_keeps_days_and_products (E : env) (db : database)
    (todayKey : string) (onlyToday : bool) :
  Bolt.ascending String.compare db ->
  let db' := fst (fst (checkForEvents E db todayKey onlyToday)) in
  Bolt.Keys db' = Bolt.Keys db
  /\ forall k, option_map products (Bolt.Get String.compare k db')
               = option_map products (Bolt.Get String.compare k db).
Proof.
  intros Hasc db'. unfold db', checkForEvents.
  pose proof (checkDays_keeps E onlyToday
                (Bolt.Seek String.compare todayKey db) db Hasc) as H.
  destruct (checkDays E onlyToday _ db) as [[db1 log] [e|]];
    cbn [fst snd] in *; [now split|exact H].
Qed.

Lemma checkForEvents_keeps_days_and_products_witness :
  let db' := fst (fst (checkForEvents (Sample.world Sample.listsS1 0)
                         Sample.threeDays "2024-03-01" false)) in
  Bolt.ascending String.compare Sample.threeDays
  /\ Bolt.Keys db' = ["2024-02-28"; "2024-03-05"; "2024-03-09"]
  /\ option_map products (Bolt.Get String.compare "2024-03-05" db')
     = Some (products Sample.freshDay).
Proof.
  intro db'.
  assert (Hasc : Bolt.ascending String.compare Sample.threeDays)
    by (cbn; repeat split; repeat constructor).
  destruct (checkForEvents_keeps_days_and_products
              (Sample.world Sample.listsS1 0) Sample.threeDays "2024-03-01"
              false Hasc) as [HK HP].
  split; [exact Hasc|]. split; [exact HK|exact (HP "2024-03-05")].
Defined.

(* --------------------------------------------------------------------- *)
(** ** Sessions that start soon *)

Lemma Sub_soon (t today : Z) :
  today <= t ->
  (Sub t today <? soonThreshold) = (t <? today + soonThreshold).
Proof.
  intro Hle. unfold Sub, soonThreshold, Second.
  destruct (t <? today + 5 * 60 * 1000000000) eqn:C.
  - apply Z.ltb_lt in C. apply Z.ltb_lt. lia.
  - apply Z.ltb_ge in C. apply Z.ltb_ge. lia.
Qed.

Lemma eventStartingSoon_true (E : env) (todayKey : string) (today : Z)
    (evs : eventsBucket) :
  eventStartingSoon E todayKey today evs true = true.
Proof.
  induction evs as [|[k sessb] rest IH]; [reflexivity|].
  cbn [eventStartingSoon].
  destruct (getMostRecentDetails sessb) as [e|l]; [exact IH|].
  destruct (parseTimeLocally E todayKey _) as [t|]; [|reflexivity].
  destruct (t <? today); [exact IH|].
  destruct (Sub t today <? soonThreshold); exact IH.
Qed.

Lemma eventStartingSoon_idle (E : env) (todayKey : string) (today : Z)
    (pre post : eventsBucket) :
  (forall sid sessb lastEv t,
     In (sid, sessb) pre -> getMostRecentDetails sessb = inr lastEv ->
     parseTimeLocally E todayKey (StartTime (embeddedEventInfo lastEv)) = Some t ->
     t < today \/ today + soonThreshold <= t) ->
  (post = []
   \/ exists sid sessb lastEv rest,
        post = (sid, sessb) :: rest
        /\ getMostRecentDetails sessb = inr lastEv
        /\ parseTimeLocally E todayKey (StartTime (embeddedEventInfo lastEv))
           = None) ->
  eventStartingSoon E todayKey today (pre ++ post) false = false.
Proof.
  intros Hpre Hpost. induction pre as [|[k sessb] pre IH]; cbn [app].
  - destruct Hpost as [->|(sid & sessb & lastEv & rest & -> & D & P)];
      [reflexivity|]. cbn [eventStartingSoon]. now rewrite D, P.
  - cbn [eventStartingSoon].
    assert (IH' : eventStartingSoon E todayKey today (pre ++ post) false = false)
      by (apply IH; intros s0 sb0 l0 t0 Hin HD HP;
          exact (Hpre s0 sb0 l0 t0 (or_intror Hin) HD HP)).
    destruct (getMostRecentDetails sessb) as [e|l] eqn:D; [exact IH'|].
    destruct (parseTimeLocally E todayKey (StartTime (embeddedEventInfo l)))
      as [t|] eqn:P; [|reflexivity].
    destruct (t <? today) eqn:L; [exact IH'|].
    apply Z.ltb_ge in L. rewrite (Sub_soon t today L).
    destruct (Hpre k sessb l t (or_introl eq_refl) D P) as [H|H]; [lia|].
    now rewrite (proj2 (Z.ltb_ge t (today + soonThreshold)) H).
Qed.

Lemma eventStartingSoon_open (E : env) (todayKey : string) (today : Z)
    (pre post : eventsBucket) (sid : string) (sessb : sessionBucket)
    (lastEv : timestampedEventInfo) (t : Z) (soon : bool) :
  (forall k kb l, In (k, kb) pre -> getMostRecentDetails kb = inr l ->
     parseTimeLocally E todayKey (StartTime (embeddedEventInfo l)) <> None) ->
  getMostRecentDetails sessb = inr lastEv ->
  parseTimeLocally E todayKey (StartTime (embeddedEventInfo lastEv)) = Some t ->
  today <= t < today + soonThreshold ->
  eventStartingSoon E todayKey today (pre ++ (sid, sessb) :: post) soon = true.
Proof.
  intros Hpre D P [Hle Hlt]. revert soon.
  induction pre as [|[k kb] pre IH]; intro soon; cbn [app eventStartingSoon].
  - rewrite D, P, (proj2 (Z.ltb_ge t today) Hle), (Sub_soon t today Hle),
      (proj2 (Z.ltb_lt t (today + soonThreshold)) Hlt).
    apply eventStartingSoon_true.
  - assert (IH' : forall s,
              eventStartingSoon E todayKey today (pre ++ (sid, sessb) :: post) s
              = true)
      by (apply IH; intros k0 kb0 l0 Hin HD;
          exact (Hpre k0 kb0 l0 (or_intror Hin) HD)).
    destruct (getMostRecentDetails kb) as [e|l] eqn:Dk; [apply IH'|].
    destruct (parseTimeLocally E todayKey (StartTime (embeddedEventInfo l)))
      as [t'|] eqn:Pk;
      [|exfalso; exact (Hpre k kb l (or_introl eq_refl) Dk Pk)].
    destruct (t' <? today); [apply IH'|].
    destruct (Sub t' today <? soonThreshold); apply IH'.
Qed.

(** X11.  The trigger is idle unless a session starts soon.  Take the first
    stored day at or after today's key and scan its sessions in key order
    up to the end, or up to the first session whose start time does not
    parse: if none of the scanned sessions has a latest snapshot that
    starts (on today's date) at or after now and less than five minutes
    from now, [checkIfEventsStartingSoon] fetches nothing and leaves the
    database as it is.  It is idle as well when there is no such day or
    the day has no events bucket. *)
Theorem checkIfEventsStartingSoon_idle (E : env) (db : database)
    (todayKey : string) (today : Z) :
  (forall b dayb later evs,
     Bolt.Seek String.compare todayKey db = (b, dayb) :: later ->
     events dayb = Some evs ->
     exists pre post,
       evs = pre ++ post
       /\ (forall sid sessb lastEv t,
             In (sid, sessb) pre -> getMostRecentDetails sessb = inr lastEv ->
             parseTimeLocally E todayKey (StartTime (embeddedEventInfo lastEv))
             = Some t ->
             t < today \/ today + soonThreshold <= t)
       /\ (post = []
           \/ exists sid sessb lastEv rest,
                post = (sid, sessb) :: rest
                /\ getMostRecentDetails sessb = inr lastEv
                /\ parseTimeLocally E todayKey
                     (StartTime (embeddedEventInfo lastEv)) = None)) ->
  checkIfEventsStartingSoon E db todayKey today = (db, [], None).
Proof.
  intro H. unfold checkIfEventsStartingSoon.
  destruct (Bolt.Seek String.compare todayKey db) as [|[b dayb] later];
    [reflexivity|].
  destruct (events dayb) as [evs|] eqn:Ev; [|reflexivity].
  destruct (H b dayb later evs eq_refl Ev) as (pre & post & -> & Hpre & Hpost).
  now rewrite (eventStartingSoon_idle E todayKey today pre post Hpre Hpost).
Qed.

Lemma checkIfEventsStartingSoon_idle_witness :
  let W := Sample.world Sample.listsS1 0 in
  let db := [("2024-03-01", Sample.dayWith Sample.seenOnce)] in
  let today := Sample.tenOClock - 3600 * Second in
  today + soonThreshold <= Sample.tenOClock
  /\ checkIfEventsStartingSoon W db "2024-03-01" today = (db, [], None).
Proof.
  intros W db today.
  assert (Hfar : today + soonThreshold <= Sample.tenOClock)
    by (unfold today, soonThreshold, Sample.tenOClock, Second; lia).
  split; [exact Hfar|].
  apply checkIfEventsStartingSoon_idle.
  intros b dayb later evs Hseek Hev. cbn in Hseek.
  injection Hseek as <- <- <-. cbn in Hev. injection Hev as <-.
  exists Sample.seenOnce, []. split; [reflexivity|]. split; [|now left].
  intros sid sessb lastEv t [[= <- <-]|[]] HD HP.
  cbn in HD. injection HD as <-. cbn in HP.
  change (Some Sample.tenOClock = Some t) in HP. injection HP as <-.
  now right.
Defined.

(** X12.  The trigger fires when a session starts soon.  If the first
    stored day at or after today's key has a session whose latest snapshot
    starts (its time of day read on today's date) at or after now and less
    than five minutes from now, and the start time of every session before
    it in key order parses, [checkIfEventsStartingSoon] refreshes that
    day's bucket with today's key as the day of the refresh, also when the
    bucket belongs to a later day; the refreshed bucket is stored unless
    the refresh fails, in which case the database stays as it was. *)
Theorem checkIfEventsStartingSoon_fires (E : env) (db later : database)
    (todayKey : string) (today : Z) (b : string) (dayb : dayBucket)
    (pre post : eventsBucket) (sid : string) (sessb : sessionBucket)
    (lastEv : timestampedEventInfo) (t : Z) :
  Bolt.Seek String.compare todayKey db = (b, dayb) :: later ->
  events dayb = Some (pre ++ (sid, sessb) :: post) ->
  (forall k kb l, In (k, kb) pre -> getMostRecentDetails kb = inr l ->
     parseTimeLocally E todayKey (StartTime (embeddedEventInfo l)) <> None) ->
  getMostRecentDetails sessb = inr lastEv ->
  parseTimeLocally E todayKey (StartTime (embeddedEventInfo lastEv)) = Some t ->
  today <= t < today + soonThreshold ->
  let res := checkIfEventsStartingSoon E db todayKey today in
  let refresh := checkEventsForDay E dayb {| Day := todayKey; Product := "" |} in
  snd (fst res) = snd (fst refresh)
  /\ snd res = snd refresh
  /\ fst (fst res) = match snd refresh with
                     | Some _ => db
                     | None => Bolt.Put String.compare b (fst (fst refresh)) db
                     end.
Proof.
  intros Hseek Hev Hpre D P Ht res refresh.
  unfold res, checkIfEventsStartingSoon. rewrite Hseek, Hev.
  rewrite (eventStartingSoon_open E todayKey today pre post sid sessb lastEv t
             false Hpre D P Ht).
  fold refresh. now destruct refresh as [[dayb' tr] [e|]].
Qed.

Lemma checkIfEventsStartingSoon_fires_witness :
  let W := Sample.world (Sample.listsS1With 3) (Sample.tenOClock - 120 * Second) in
  let db := [("2024-03-01", Sample.dayWith Sample.seenOnce)] in
  let today := Sample.tenOClock - 120 * Second in
  today <= Sample.tenOClock < today + soonThreshold
  /\ snd (checkIfEventsStartingSoon W db "2024-03-01" today) = None
  /\ written (snd (fst (checkIfEventsStartingSoon W db "2024-03-01" today)))
     = [Sample.snapshot "S1" "10:00:00" 3 today false].
Proof.
  intros W db today.
  assert (Ht : today <= Sample.tenOClock < today + soonThreshold)
    by (unfold today, soonThreshold, Sample.tenOClock, Second; lia).
  split; [exact Ht|].
  destruct (checkIfEventsStartingSoon_fires W db [] "2024-03-01" today
              "2024-03-01" (Sample.dayWith Sample.seenOnce) [] [] "S1"
              (Sample.oneSnapshot (Sample.snapshot "S1" "10:00:00" 5 0 false))
              (Sample.snapshot "S1" "10:00:00" 5 0 false) Sample.tenOClock
              eq_refl eq_refl (fun k kb l (H : In (k, kb) []) => match H with end)
              eq_refl eq_refl Ht) as (Htr & Herr & _).
  split; [rewrite Herr|rewrite Htr]; vm_compute; reflexivity.
Defined.

(* --------------------------------------------------------------------- *)
(** ** Adding days *)

Section AddDays.
Variable jsonString : string -> string.

(** One iteration, spelled out. *)
Lemma addDay_spec (db : database) (newKeys : list string) (ts : civil)
    (prods : goSlice ProductId) :
  let key := dayKey ts in
  let v := marshalProducts jsonString prods in
  let res := addDay jsonString (db, newKeys) (ts, prods) in
  snd res = true
  /\ (forall k, k <> key ->
        Bolt.Get String.compare k (fst (fst res)) = Bolt.Get String.compare k db)
  /\ (exists b', Bolt.Get String.compare key (fst (fst res)) = Some b'
                 /\ lenBytes (products b') = String.length v
                 /\ events b' = match Bolt.Get String.compare key db with
                                | Some b => events b
                                | None => None
                                end)
  /\ (forall b, Bolt.Get String.compare key db = Some b ->
                lenBytes (products b) = String.length v -> fst (fst res) = db)
  /\ snd (fst res) = match Bolt.Get String.compare key db with
                     | Some _ => newKeys
                     | None => newKeys ++ [key]
                     end.
Proof.
  intros key v res. unfold res, addDay. fold key v.
  pose proof (marshalProducts_length jsonString prods) as Hlen. fold v in Hlen.
  destruct (Bolt.Get String.compare key db) as [b|] eqn:G.
  - destruct (lenBytes (products b) =? String.length v)%nat eqn:L;
      cbn [negb fst snd].
    + apply Nat.eqb_eq in L. split; [reflexivity|]. split; [reflexivity|].
      split; [exists b; now repeat split|]. now split.
    + split; [reflexivity|].
      split; [intros k Hk; now apply database_Get_Put_other|].
      split; [eexists; split; [apply database_Get_Put_same|now split]|].
      split; [|reflexivity].
      intros b0 [= <-] E. apply Nat.eqb_neq in L. contradiction.
  - assert (Hne : (key =? "")%string = false)
      by (apply String.eqb_neq, dayKey_not_empty).
    rewrite !Hne. cbn [products lenBytes events].
    assert (L : (0 =? String.length v)%nat = false)
      by (apply Nat.eqb_neq; lia).
    rewrite !L. cbn [negb fst snd].
    split; [reflexivity|].
    split; [intros k Hk; now rewrite !database_Get_Put_other|].
    split; [eexists; split; [apply database_Get_Put_same|now split]|].
    split; [discriminate|reflexivity].
Qed.

Lemma addDaysLoop_facts (dwi : list (civil * goSlice ProductId)) :
  forall (db : database) (newKeys : list string),
    let res := addDaysLoop jsonString (db, newKeys) dwi in
    snd res = true
    /\ (forall k, ~ In k (dayKeys dwi) ->
          Bolt.Get String.compare k (fst (fst res))
          = Bolt.Get String.compare k db)
    /\ (forall k b, Bolt.Get String.compare k db = Some b ->
          exists b', Bolt.Get String.compare k (fst (fst res)) = Some b'
                     /\ events b' = events b)
    /\ (forall k, In k (dayKeys dwi) ->
          Bolt.Get String.compare k (fst (fst res)) <> None)
    /\ (forall k, In k (snd (fst res)) <->
          In k newKeys
          \/ (In k (dayKeys dwi) /\ Bolt.Get String.compare k db = None)).
Proof.
  induction dwi as [|[ts prods] dwi IH]; intros db newKeys; cbn [addDaysLoop].
  - cbn [fst snd dayKeys map]. split; [reflexivity|]. split; [reflexivity|].
    split; [intros k b G; now exists b|]. split; [intros k []|].
    intro k. cbn. tauto.
  - pose proof (addDay_spec db newKeys ts prods) as HS. cbv zeta in HS.
    destruct (addDay jsonString (db, newKeys) (ts, prods)) as [[db1 nk1] ok].
    cbn [fst snd] in HS.
    destruct HS as (-> & Hoth & (b1 & G1 & _ & Ev1) & _ & Hnk).
    specialize (IH db1 nk1). cbv zeta in IH.
    destruct (addDaysLoop jsonString (db1, nk1) dwi) as [[db' nk'] ok'].
    cbn [fst snd dayKeys map] in *.
    destruct IH as (-> & I2 & I3 & I4 & I5).
    split; [reflexivity|]. split; [|split; [|split]].
    + intros k Hk. rewrite I2 by (intro H; apply Hk; right; exact H).
      apply Hoth. intros ->. apply Hk. now left.
    + intros k b G. destruct (string_dec k (dayKey ts)) as [->|Hk].
      * rewrite G in Ev1. destruct (I3 _ _ G1) as (b' & G' & E').
        exists b'. split; [exact G'|congruence].
      * apply I3. now rewrite Hoth.
    + intros k [<-|Hk]; [|now apply I4].
      destruct (I3 _ _ G1) as (b' & G' & _). rewrite G'. discriminate.
    + intro k. rewrite I5, Hnk.
      destruct (string_dec k (dayKey ts)) as [->|Hk].
      * rewrite G1.
        destruct (Bolt.Get String.compare (dayKey ts) db) as [b|].
        -- split; [intros [H|[_ H]]; [now left|discriminate H]
                  |intros [H|[_ H]]; [now left|discriminate H]].
        -- rewrite in_app_iff. cbn. split; [intros _; right; tauto|].
           intros _. left. right. now left.
      * rewrite (Hoth k Hk).
        destruct (Bolt.Get String.compare (dayKey ts) db) as [b|];
          rewrite ?in_app_iff; cbn; intuition congruence.
Qed.

Lemma addDaysLoop_settles (dwi : list (civil * goSlice ProductId)) :
  NoDup (dayKeys dwi) ->
  forall (db : database) (newKeys : list string) ts prods,
    In (ts, prods) dwi ->
    exists b', Bolt.Get String.compare (dayKey ts)
                 (fst (fst (addDaysLoop jsonString (db, newKeys) dwi)))
               = Some b'
               /\ lenBytes (products b')
                  = String.length (marshalProducts jsonString prods).
Proof.
  induction dwi as [|[ts0 prods0] dwi IH]; intros Hnd db newKeys ts prods;
    [intros []|].
  cbn [dayKeys map] in Hnd. apply NoDup_cons_iff in Hnd as [Hnin Hnd].
  cbn [addDaysLoop].
  pose proof (addDay_spec db newKeys ts0 prods0) as HS. cbv zeta in HS.
  destruct (addDay jsonString (db, newKeys) (ts0, prods0)) as [[db1 nk1] ok].
  cbn [fst snd] in HS. destruct HS as (-> & _ & (b1 & G1 & L1 & _) & _).
  intros [[= <- <-]|Hin]; [|now apply IH].
  exists b1. split; [|exact L1].
  destruct (addDaysLoop_facts dwi db1 nk1) as (_ & H2 & _).
  now rewrite H2.
Qed.

Lemma addDaysLoop_fixed (dwi : list (civil * goSlice ProductId)) :
  forall (db : database) (newKeys : list string),
    (forall ts prods, In (ts, prods) dwi ->
       exists b, Bolt.Get String.compare (dayKey ts) db = Some b
                 /\ lenBytes (products b)
                    = String.length (marshalProducts jsonString prods)) ->
    addDaysLoop jsonString (db, newKeys) dwi = (db, newKeys, true).
Proof.
  induction dwi as [|[ts prods] dwi IH]; intros db newKeys Hall; [reflexivity|].
  cbn [addDaysLoop].
  destruct (Hall ts prods (or_introl eq_refl)) as (b & G & L).
  pose proof (addDay_spec db newKeys ts prods) as HS. cbv zeta in HS.
  destruct (addDay jsonString (db, newKeys) (ts, prods)) as [[db1 nk1] ok].
  cbn [fst snd] in HS. destruct HS as (-> & _ & _ & Hsame & Hnk).
  rewrite G in Hnk. subst nk1. rewrite (Hsame b G L).
  apply IH. intros ts' prods' Hin. apply Hall. now right.
Qed.
End AddDays.

(** X13.  [addDays] always succeeds.  The keys it reports as new are
    exactly the day keys of the scan that had no bucket before, and
    afterwards every day of the scan has a bucket. *)
Theorem addDays_creates_the_missing_days (jsonString : string -> string)
    (db : database) (dwi : list (civil * goSlice ProductId)) :
  let res := addDays jsonString db dwi in
  snd res = true
  /\ (forall k, In k (snd (fst res)) <->
        In k (dayKeys dwi) /\ Bolt.Get String.compare k db = None)
  /\ (forall k, In k (dayKeys dwi) ->
        Bolt.Get String.compare k (fst (fst res)) <> None).
Proof.
  intro res. unfold res, addDays.
  destruct (addDaysLoop_facts jsonString dwi db []) as (H1 & _ & _ & H4 & H5).
  destruct (addDaysLoop jsonString (db, []) dwi) as [[db' nk] ok].
  cbn [fst snd] in *. subst ok. cbn [fst snd].
  split; [reflexivity|]. split; [|exact H4].
  intro k. rewrite H5. cbn. tauto.
Qed.

(** X14.  [addDays] never removes a day and never touches the events of a
    day: every day stored before is stored afterwards with the same events
    bucket, and a day that the scan does not mention keeps its bucket as it
    is. *)
Theorem addDays_keeps_days_and_events (jsonString : string -> string)
    (db : database) (dwi : list (civil * goSlice ProductId)) (k : string)
    (b : dayBucket) :
  Bolt.Get String.compare k db = Some b ->
  let db' := fst (fst (addDays jsonString db dwi)) in
  (exists b', Bolt.Get String.compare k db' = Some b' /\ events b' = events b)
  /\ (~ In k (dayKeys dwi) -> Bolt.Get String.compare k db' = Some b).
Proof.
  intros G db'. unfold db', addDays.
  destruct (addDaysLoop_facts jsonString dwi db []) as (H1 & H2 & H3 & _).
  destruct (addDaysLoop jsonString (db, []) dwi) as [[db1 nk] ok].
  cbn [fst snd] in *. subst ok. cbn [fst].
  split; [now apply H3|]. intro Hk. now rewrite H2.
Qed.

Lemma addDays_keeps_days_and_events_witness :
  let db := [("2024-03-01", Sample.dayWith Sample.seenOnce)] in
  let db' := fst (fst (addDays Sample.plainJsonString db
                         [(Sample.firstOfMarch, Slice ["p1"; "p2"])])) in
  Bolt.Get String.compare "2024-03-01" db = Some (Sample.dayWith Sample.seenOnce)
  /\ exists b', Bolt.Get String.compare "2024-03-01" db' = Some b'
                /\ events b' = Some Sample.seenOnce.
Proof.
  intros db db'. split; [reflexivity|].
  exact (proj1 (addDays_keeps_days_and_events Sample.plainJsonString db
                  [(Sample.firstOfMarch, Slice ["p1"; "p2"])] "2024-03-01"
                  (Sample.dayWith Sample.seenOnce) eq_refl)).
Defined.

(** X15.  Adding the same days again changes nothing: when the entries of
    the scan have distinct day keys, a second [addDays] with the same scan
    leaves the database as the first one left it and reports no new key. *)
Theorem addDays_twice_adds_once (jsonString : string -> string)
    (db : database) (dwi : list (civil * goSlice ProductId)) :
  NoDup (dayKeys dwi) ->
  let db' := fst (fst (addDays jsonString db dwi)) in
  addDays jsonString db' dwi = (db', [], true).
Proof.
  intros Hnd db'.
  assert (Hdb' : db' = fst (fst (addDaysLoop jsonString (db, []) dwi))).
  { unfold db', addDays.
    destruct (addDaysLoop_facts jsonString dwi db []) as (H1 & _).
    destruct (addDaysLoop jsonString (db, []) dwi) as [[db1 nk] ok].
    cbn [fst snd] in *. now subst ok. }
  unfold addDays at 1.
  rewrite (addDaysLoop_fixed jsonString dwi db' []); [reflexivity|].
  intros ts prods Hin. rewrite Hdb'. now apply addDaysLoop_settles.
Qed.

Lemma addDays_twice_adds_once_witness :
  let dwi := [(Sample.firstOfMarch, Slice ["p1"; "p2"]);
              ({| year := 2024; month := 3; day := 2 |}, Slice ["p1"])] in
  let db' := fst (fst (addDays Sample.plainJsonString [] dwi)) in
  NoDup (dayKeys dwi)
  /\ Bolt.Keys db' = ["2024-03-01"; "2024-03-02"]
  /\ addDays Sample.plainJsonString db' dwi = (db', [], true).
Proof.
  intros dwi db'.
  assert (Hnd : NoDup (dayKeys dwi)).
  { repeat constructor; cbn; intuition discriminate. }
  split; [exact Hnd|]. split; [reflexivity|].
  exact (addDays_twice_adds_once Sample.plainJsonString [] dwi Hnd).
Defined.

(* --------------------------------------------------------------------- *)
(** ** base64 and the booking link *)

(** RFC 4648 test vectors for base64, here without padding; "fo" shows the
    alphabet is the same up to the last two characters, "??>" that those
    are the URL-safe ones; and the header of the bearer-token request. *)
Example base64url_vectors :
  map Base64.EncodeToString [""; "f"; "fo"; "foo"; "foob"; "fooba"; "foobar"; "??>"]
  = [""; "Zg"; "Zm8"; "Zm9v"; "Zm9vYg"; "Zm9vYmE"; "Zm9vYmFy"; "Pz8-"]
  /\ jwtHeader = "eyJhbGciOiJSUzI1NiIsInR5cCI6IkpXVCJ9".
Proof. split; reflexivity. Qed.

Section Base64Facts.
Import Base32 Base64.

Lemma sextets_bits_upto (n : nat) :
  forall bs : list bool, (List.length bs <= n)%nat ->
  exists k, (k <= 5)%nat /\ bitsOfSextets (sextets bs) = bs ++ repeat false k.
Proof.
  induction n as [n IH] using (well_founded_induction lt_wf).
  intros bs Hlen.
  destruct bs as [|a [|b [|c [|d [|e [|f rest]]]]]].
  - exists 0%nat; split; [lia|reflexivity].
  - exists 5%nat; split; [lia|reflexivity].
  - exists 4%nat; split; [lia|reflexivity].
  - exists 3%nat; split; [lia|reflexivity].
  - exists 2%nat; split; [lia|reflexivity].
  - exists 1%nat; split; [lia|reflexivity].
  - destruct (IH (List.length rest)) with (bs := rest) as (k & Hk & E).
    + cbn [List.length] in Hlen. lia.
    + lia.
    + exists k; split; [exact Hk|].
      cbn [sextets bitsOfSextets flat_map app].
      change (flat_map _ (sextets rest)) with (bitsOfSextets (sextets rest)).
      now rewrite E.
Qed.

Lemma sextets_inj (s1 s2 : string) :
  sextets (bitsOfString s1) = sextets (bitsOfString s2) -> s1 = s2.
Proof.
  intro H. apply bitsOfString_inj.
  destruct (sextets_bits_upto _ (bitsOfString s1) (le_n _)) as (k1 & H1 & E1).
  destruct (sextets_bits_upto _ (bitsOfString s2) (le_n _)) as (k2 & H2 & E2).
  rewrite H, E2 in E1.
  assert (L : List.length (bitsOfString s2 ++ repeat false k2)
              = List.length (bitsOfString s1 ++ repeat false k1)) by now rewrite E1.
  rewrite !length_app, !repeat_length, !bitsOfString_length in L.
  assert (Hs : List.length (bitsOfString s1) = List.length (bitsOfString s2))
    by (rewrite !bitsOfString_length; lia).
  symmetry. exact (app_same_length_head _ _ _ _ (eq_sym Hs) E1).
Qed.

Lemma base64_decode_encode (q : sextet) : decodeChar (Base64.encodeChar q) = q.
Proof. destruct q as [[[[[[] []] []] []] []] []]; reflexivity. Qed.

Lemma base64_char_safe (q : sextet) : isURLSafe (Base64.encodeChar q) = true.
Proof. destruct q as [[[[[[] []] []] []] []] []]; reflexivity. Qed.

Lemma base64_digits_inj (qs1 qs2 : list sextet) :
  map Base64.encodeChar qs1 = map Base64.encodeChar qs2 -> qs1 = qs2.
Proof.
  revert qs2; induction qs1 as [|q r IH]; intros [|q' r'] H;
    try discriminate H; [reflexivity|].
  cbn [map] in H. injection H as Hq H. f_equal; [|now apply IH].
  rewrite <- (base64_decode_encode q), <- (base64_decode_encode q').
  now rewrite Hq.
Qed.

Lemma base64_EncodeToString_inj (s1 s2 : string) :
  Base64.EncodeToString s1 = Base64.EncodeToString s2 -> s1 = s2.
Proof.
  unfold Base64.EncodeToString. intro H.
  apply stringOfList_inj, base64_digits_inj in H. now apply sextets_inj.
Qed.

Lemma base64_EncodeToString_length (s : string) :
  String.length (Base64.EncodeToString s) = ((8 * String.length s + 5) / 6)%nat.
Proof.
  unfold Base64.EncodeToString.
  assert (L1 : forall l, String.length (stringOfList l) = List.length l)
    by (induction l as [|c l IH]; cbn; congruence).
  rewrite L1, length_map.
  destruct (sextets_bits_upto _ (bitsOfString s) (le_n _)) as (k & Hk & E).
  assert (L2 : forall qs, List.length (bitsOfSextets qs) = (6 * List.length qs)%nat).
  { induction qs as [|[[[[[a b] c] d] e] f] qs IH]; [reflexivity|].
    cbn [bitsOfSextets flat_map]. rewrite length_app.
    change (flat_map _ qs) with (bitsOfSextets qs). rewrite IH. cbn. lia. }
  apply (f_equal (@List.length bool)) in E.
  rewrite L2, length_app, repeat_length, bitsOfString_length in E.
  apply Nat.div_unique with (r := (5 - k)%nat); lia.
Qed.
End Base64Facts.

Lemma string_app_inv_head (p a b : string) :
  (p ++ a)%string = (p ++ b)%string -> a = b.
Proof.
  induction p as [|c p IH]; cbn; [auto|]. intros [= H]. now apply IH.
Qed.

(** X16.  The booking link of a product identifies the product: two
    different product identifiers never get the same link (base64 with the
    URL-safe alphabet and without padding is injective), and the link is
    the fixed address of the booking page followed by four characters for
    every three bytes of the identifier, rounded up to whole characters. *)
Theorem makeProductLink_injective (p1 p2 : ProductId) :
  p1 <> p2 ->
  makeProductLink p1 <> makeProductLink p2
  /\ String.length (makeProductLink p1)
     = (String.length bookingDetailsUrl + (8 * String.length p1 + 5) / 6)%nat.
Proof.
  intro Hne. unfold makeProductLink. split.
  - intro H. apply Hne.
    now apply base64_EncodeToString_inj, (string_app_inv_head bookingDetailsUrl).
  - now rewrite string_length_append, base64_EncodeToString_length.
Qed.

Lemma makeProductLink_injective_witness :
  "p1" <> "p2"
  /\ makeProductLink "p1"
     = "https://bookings.national-ice-centre.com/booking/ice-sports-details!cDE"
  /\ makeProductLink "p1" <> makeProductLink "p2".
Proof.
  split; [discriminate|]. split; [reflexivity|].
  exact (proj1 (makeProductLink_injective "p1" "p2" ltac:(discriminate))).
Defined.

(* --------------------------------------------------------------------- *)
(** ** What a calendar sync attempts *)

(** X17.  One sync makes at most two requests and never retries: at most
    one update and at most one insert, and an insert only right after the
    update of the same event was found missing.  Without a client it does
    nothing at all, and when the snapshot does not convert to a calendar
    event (a start or end time that does not parse) it only logs that,
    without any request. *)
Theorem optionallyUpdateCalendar_attempts_at_most_once (E : env)
    (link : ProductId -> string) (stamp : Z -> string)
    (client : option calendarClient) (calendarId : string)
    (ev : EventInfo) (evCtx : EventContext) (ts : Z) :
  let tr := optionallyUpdateCalendar E link stamp client calendarId ev evCtx ts in
  (client = None -> tr = [])
  /\ (forall err, client <> None ->
        makeGCalEvent E link stamp ev evCtx ts = inl err ->
        tr = [LogCantConvert err])
  /\ (List.length (filter isUpdateAttempt tr) <= 1)%nat
  /\ (List.length (filter isInsertAttempt tr) <= 1)%nat
  /\ (forall cid calEv,
        In (InsertAttempt cid calEv) tr ->
        exists rest,
          tr = UpdateAttempt cid calEv :: LogNotFoundInserting
               :: InsertAttempt cid calEv :: rest).
Proof.
  intro tr. unfold tr, optionallyUpdateCalendar.
  destruct client as [c|].
  2:{ split; [reflexivity|]. split; [intros err H; now contradiction H|].
      split; [cbn; lia|]. split; [cbn; lia|]. intros cid calEv []. }
  split; [discriminate|].
  destruct (makeGCalEvent E link stamp ev evCtx ts) as [err|calEv].
  { split; [now intros e _ [= <-]|]. split; [cbn; lia|]. split; [cbn; lia|].
    intros cid calEv [H|[]]. discriminate H. }
  split; [discriminate|].
  destruct (isErrNotFound (updateCalendarEvent c calendarId calEv)).
  - destruct (insertCalendarEvent c calendarId calEv) as [e|];
      (split; [cbn; lia|]); (split; [cbn; lia|]); intros cid calEv' H;
      cbn in H; destruct H as [H|[H|[H|H]]]; try discriminate H;
      try (injection H as <- <-; eexists; reflexivity);
      destruct H as [H|[]] || destruct H; discriminate H.
  - destruct (updateCalendarEvent c calendarId calEv) as [e|];
      (split; [cbn; lia|]); (split; [cbn; lia|]); intros cid calEv' H;
      cbn in H; destruct H as [H|H]; try discriminate H;
      destruct H as [H|[]] || destruct H; discriminate H.
Qed.

(** X18.  Only a 404 answer to the update or an unreadable answer counts
    as a failure: when the update is answered with any other status and a
    body that decodes, the sync ends without an insert and without logging
    a failure; and after a 404 the insert counts as done whenever its
    answer decodes, whatever its status. *)
Theorem optionallyUpdateCalendar_trusts_any_decodable_answer (E : env)
    (link : ProductId -> string) (stamp : Z -> string) (c : calendarClient)
    (calendarId : string) (ev : EventInfo) (evCtx : EventContext) (ts : Z)
    (calEv : GCalEvent) (status : Z) :
  makeGCalEvent E link stamp ev evCtx ts = inr calEv ->
  let tr := optionallyUpdateCalendar E link stamp (Some c) calendarId ev evCtx ts in
  (status <> StatusNotFound ->
   doPut c calendarId calEv = Responded status true ->
   tr = [UpdateAttempt calendarId calEv])
  /\ (forall body,
        doPut c calendarId calEv = Responded StatusNotFound body ->
        doPost c calendarId calEv = Responded status true ->
        tr = [UpdateAttempt calendarId calEv; LogNotFoundInserting;
              InsertAttempt calendarId calEv]).
Proof.
  intros Hmk tr. unfold tr, optionallyUpdateCalendar. rewrite Hmk. split.
  - intros Hs Hput. unfold updateCalendarEvent. rewrite Hput.
    now rewrite (proj2 (Z.eqb_neq status StatusNotFound) Hs).
  - intros body Hput Hpost. unfold updateCalendarEvent, insertCalendarEvent.
    rewrite Hput, Hpost. now rewrite Z.eqb_refl.
Qed.

Lemma optionallyUpdateCalendar_trusts_any_decodable_answer_witness :
  let W := Sample.world Sample.nothingListed 0 in
  let ev := Sample.session "S1" "10:00:00" 5 in
  let unauthorized := {| doPut := fun _ _ => Responded 401 true;
                         doPost := fun _ _ => Responded 401 true |} in
  401 <> StatusNotFound
  /\ existsb isLogUpdateFailed
       (optionallyUpdateCalendar W Sample.noLink Sample.noStamp
          (Some unauthorized) "cal" ev Sample.ctx 0) = false.
Proof.
  intros W ev unauthorized.
  assert (Hs : 401 <> StatusNotFound) by discriminate.
  split; [exact Hs|].
  assert (Hmk : exists calEv,
             makeGCalEvent W Sample.noLink Sample.noStamp ev Sample.ctx 0
             = inr calEv).
  { let r := eval vm_compute in
      (makeGCalEvent W Sample.noLink Sample.noStamp ev Sample.ctx 0) in
    match r with inr ?c => exists c end.
    vm_compute. reflexivity. }
  destruct Hmk as (calEv & Hmk).
  rewrite (proj1 (optionallyUpdateCalendar_trusts_any_decodable_answer W
                    Sample.noLink Sample.noStamp unauthorized "cal" ev
                    Sample.ctx 0 calEv 401 Hmk) Hs eq_refl).
  reflexivity.
Defined.

(* --------------------------------------------------------------------- *)
(** ** The life of a bearer token *)

Lemma wrapInt_small (z : Z) : - 2 ^ 63 <= z < 2 ^ 63 -> wrapInt z = z.
Proof. intro H. unfold wrapInt. rewrite Z.mod_small; lia. Qed.

Lemma validToken_true_iff (ga : GAuthenticator) (now : Z) :
  validToken ga now = true <-> currentToken ga <> "" /\ now <= tokenValidity ga.
Proof.
  destruct (validToken ga now) eqn:V.
  - split; [intros _|reflexivity].
    assert (H : ~ (currentToken ga = "" \/ tokenValidity ga < now)).
    { intro H. apply validToken_false_iff in H. congruence. }
    split; [tauto|lia].
  - apply validToken_false_iff in V. split; [discriminate|].
    intros [H1 H2]. destruct V; [contradiction|lia].
Qed.

(** X19.  A renewed token is used until it expires.  When the token endpoint
    answers an invalid token's renewal with a non-empty Bearer token and
    no error, and the lifetime in nanoseconds fits an int64, the
    authenticator holds that token with expiry = time of renewal +
    lifetime, also when writing it to the token file failed (the request
    that triggered the renewal is then not forwarded).  From then on a
    request is forwarded with that token and without renewal exactly as
    long as the time of the request is not after the expiry. *)
Theorem RoundTrip_uses_renewed_token_until_expiry (ga : GAuthenticator)
    (now renewedAt : Z) (r : tokenResponse) (stored : bool) :
  validToken ga now = false ->
  Error r = "" ->
  TokenType r = "Bearer" ->
  AccessToken r <> "" ->
  - 2 ^ 63 <= ExpiresIn r * Second < 2 ^ 63 ->
  let res := RoundTrip ga now renewedAt (Answered r) stored in
  let ga' := fst (fst res) in
  (snd res = None <-> tokenFile ga = "" \/ stored = true)
  /\ (snd res = None ->
      snd (fst res) = [Renewal; Forward ("Bearer " ++ AccessToken r)%string])
  /\ currentToken ga' = AccessToken r
  /\ tokenValidity ga' = renewedAt + ExpiresIn r * Second
  /\ forall now2 renewedAt2 x2 stored2,
       (now2 <= renewedAt + ExpiresIn r * Second ->
        RoundTrip ga' now2 renewedAt2 x2 stored2
        = (ga', [Forward ("Bearer " ++ AccessToken r)%string], None))
       /\ (renewedAt + ExpiresIn r * Second < now2 ->
           exists rest, snd (fst (RoundTrip ga' now2 renewedAt2 x2 stored2))
                        = Renewal :: rest).
Proof.
  intros Hinv Herr Htype Htok Hrange res ga'.
  assert (Hga : ga' = {| currentToken := AccessToken r;
                         tokenValidity := renewedAt + ExpiresIn r * Second;
                         tokenFile := tokenFile ga |}
                /\ (snd res = None <-> tokenFile ga = "" \/ stored = true)
                /\ (snd res = None ->
                    snd (fst res)
                    = [Renewal; Forward ("Bearer " ++ AccessToken r)%string])).
  { unfold ga', res, RoundTrip, getToken.
    rewrite Hinv, Herr, Htype, (wrapInt_small _ Hrange). cbn [negb String.eqb].
    change ("Bearer" =? "Bearer")%string with true. cbn [negb].
    destruct (tokenFile ga =? "")%string eqn:F; cbn [negb andb].
    - apply String.eqb_eq in F. cbn. repeat split; auto.
    - apply String.eqb_neq in F. destruct stored; cbn.
      + repeat split; auto.
      + repeat split; try discriminate. intros [H|H]; [contradiction|discriminate]. }
  destruct Hga as (Hga & Hiff & Htr).
  split; [exact Hiff|]. split; [exact Htr|]. rewrite Hga. cbn [currentToken tokenValidity].
  split; [reflexivity|]. split; [reflexivity|].
  intros now2 renewedAt2 x2 stored2. unfold RoundTrip. split.
  - intro Hle.
    rewrite (proj2 (validToken_true_iff _ now2)) by (cbn; split; [exact Htok|lia]).
    reflexivity.
  - intro Hlt.
    rewrite (proj2 (validToken_false_iff _ now2)) by (cbn; right; lia).
    cbn [negb]. destruct (getToken _ renewedAt2 x2 stored2) as [g [e|]];
      eexists; reflexivity.
Qed.

Lemma RoundTrip_uses_renewed_token_until_expiry_witness :
  let ga' := {| currentToken := "new"; tokenValidity := 101 + 3600 * Second;
                tokenFile := "" |} in
  validToken Sample.expiresAt100 101 = false
  /\ RoundTrip ga' (101 + 3600 * Second) 0 SigningFailed false
     = (ga', [Forward "Bearer new"], None).
Proof.
  intro ga'. split; [reflexivity|].
  exact (proj1 (proj2 (proj2 (proj2 (proj2
           (RoundTrip_uses_renewed_token_until_expiry Sample.expiresAt100 101
              101
              {| AccessToken := "new"; ExpiresIn := 3600; TokenType := "Bearer";
                 Error := ""; ErrorDescription := "" |} true
              eq_refl eq_refl eq_refl ltac:(discriminate)
              ltac:(unfold Second; cbn; lia)))))
           (101 + 3600 * Second) 0 SigningFailed false)
          (Z.le_refl _)).
Defined.

(** X20.  A renewal that does not yield an error-free Bearer answer fails
    the request and leaves the authenticator as it was: nothing is
    forwarded and the old token and expiry stay.  An error reported by the
    endpoint is returned as such even when the token type is wrong too. *)
Theorem RoundTrip_refused_renewal_keeps_token (ga : GAuthenticator)
    (now renewedAt : Z) (x : exchange) (stored : bool) :
  validToken ga now = false ->
  (forall r, x = Answered r -> Error r <> "" \/ TokenType r <> "Bearer") ->
  let res := RoundTrip ga now renewedAt x stored in
  fst (fst res) = ga
  /\ snd (fst res) = [Renewal]
  /\ snd res <> None
  /\ (forall r, x = Answered r -> Error r <> "" ->
        snd res = Some (ErrNoAccessToken (Error r) (ErrorDescription r))).
Proof.
  intros Hinv Hbad res. unfold res, RoundTrip, getToken. rewrite Hinv.
  cbn [negb].
  destruct x as [| | | |r]; try (repeat split; try discriminate; fail).
  destruct (Error r =? "")%string eqn:Er; cbn [negb].
  - apply String.eqb_eq in Er.
    destruct (TokenType r =? "Bearer")%string eqn:Ty; cbn [negb].
    + apply String.eqb_eq in Ty. destruct (Hbad r eq_refl); contradiction.
    + repeat split; try discriminate. intros r0 [= <-] H. contradiction.
  - repeat split; try discriminate. now intros r0 [= <-] _.
Qed.

Lemma RoundTrip_refused_renewal_keeps_token_witness :
  let refused := Answered {| AccessToken := "x"; ExpiresIn := 3600;
                             TokenType := "MAC"; Error := "invalid_grant";
                             ErrorDescription := "bad signature" |} in
  validToken Sample.expiresAt100 101 = false
  /\ RoundTrip Sample.expiresAt100 101 101 refused true
     = (Sample.expiresAt100, [Renewal],
        Some (ErrNoAccessToken "invalid_grant" "bad signature")).
Proof.
  intro refused. split; [reflexivity|].
  destruct (RoundTrip_refused_renewal_keeps_token Sample.expiresAt100 101 101
              refused true eq_refl) as (H1 & H2 & _ & H4).
  { intros r [= <-]. left. discriminate. }
  specialize (H4 _ eq_refl ltac:(discriminate)).
  destruct (RoundTrip Sample.expiresAt100 101 101 refused true) as [[g tr] e].
  cbn [fst snd] in *. now subst.
Defined.

(* --------------------------------------------------------------------- *)
(** ** Dates of the ice calendar *)

(** The date of the comment of [parseJSDate], dates with other timezone
    digits and with text around them, and strings that do not match. *)
Example parseJSDate_examples :
  map parseJSDate
    ["/Date(1551398400000+0000)/"; "/Date(1551398400999+0100)/";
     "at /Date(0+0000)/ or so"; "/Date(+0000)/"; "/Date(12+000)/";
     "/Date(99999999999999999999+0000)/"; "/Date(12-0000)/"; ""]
  = [Some (1551398400 * Second); Some (1551398400 * Second); Some 0;
     None; None; None; None; None].
Proof. reflexivity. Qed.

Lemma plus_not_digit : isDigit "+"%char = false.
Proof. reflexivity. Qed.

Lemma spanDigits_run (ds rest : string) :
  allDigits ds = true ->
  spanDigits (ds ++ String "+" rest)%string = (ds, String "+" rest).
Proof.
  induction ds as [|c ds IH]; cbn [allDigits append spanDigits].
  - intros _. now rewrite plus_not_digit.
  - intros [Hc Hds]%andb_prop. now rewrite Hc, (IH Hds).
Qed.

(** X21.  [parseJSDate] reads the milliseconds of a date in the calendar's
    format and ignores everything else: for a non-empty run of digits, any
    four timezone digits and any text after the closing `/`, the result is
    the instant of the milliseconds cut down to whole seconds, and an error
    exactly when the number does not fit an int64.  The timezone digits
    and the trailing text have no influence. *)
Theorem parseJSDate_reads_milliseconds (ds rest : string) (z1 z2 z3 z4 : ascii) :
  ds <> "" -> allDigits ds = true ->
  isDigit z1 && isDigit z2 && isDigit z3 && isDigit z4 = true ->
  parseJSDate ("/Date(" ++ ds ++ "+"
               ++ String z1 (String z2 (String z3 (String z4 (")/" ++ rest)))))
  = if digitsValue 0 ds <=? 2 ^ 63 - 1
    then Some (Z.quot (digitsValue 0 ds) 1000 * Second)
    else None.
Proof.
  intros Hne Hds Hz. unfold parseJSDate.
  assert (Hm : matchDateHere
                 ("/Date(" ++ ds ++ "+"
                  ++ String z1 (String z2 (String z3 (String z4 (")/" ++ rest)))))
               = Some (ds, String z1 (String z2 (String z3 (String z4 ""))))).
  { cbn [append matchDateHere]. rewrite (spanDigits_run ds _ Hds).
    destruct ds as [|c ds]; [contradiction|]. now rewrite Hz. }
  assert (Hf : findDate
                 ("/Date(" ++ ds ++ "+"
                  ++ String z1 (String z2 (String z3 (String z4 (")/" ++ rest)))))
               = Some (ds, String z1 (String z2 (String z3 (String z4 ""))))).
  { cbn [append] in *. cbn [findDate]. now rewrite Hm. }
  rewrite Hf. unfold ParseInt64.
  now destruct (digitsValue 0 ds <=? 2 ^ 63 - 1).
Qed.

Lemma parseJSDate_reads_milliseconds_witness :
  allDigits "1551398400000" = true
  /\ parseJSDate "/Date(1551398400000+0100)/ (UTC)"
     = Some (1551398400 * Second).
Proof.
  split; [reflexivity|].
  exact (parseJSDate_reads_milliseconds "1551398400000" " (UTC)"
           "0" "1" "0" "0" ltac:(discriminate) eq_refl eq_refl).
Defined.

(* --------------------------------------------------------------------- *)
(** ** The summary views *)

Lemma string_ltb_asym (a b : string) :
  (a <? b)%string = true -> (b <? a)%string = false.
Proof.
  unfold String.ltb. rewrite (String.compare_antisym a b).
  now destruct (b ?= a)%string.
Qed.

Lemma insertStable_Permutation (x : Summary.summary) (l : list Summary.summary) :
  Permutation (insertStable x l) (x :: l).
Proof.
  induction l as [|y r IH]; cbn; [reflexivity|].
  destruct (Summary.StartTime y <? Summary.StartTime x)%string; [|reflexivity].
  rewrite IH. apply perm_swap.
Qed.

Lemma sortStable_Permutation (l : list Summary.summary) :
  Permutation (sortStable l) l.
Proof.
  induction l as [|x r IH]; cbn; [reflexivity|].
  rewrite insertStable_Permutation. now constructor.
Qed.

Lemma insertStable_sorted (x : Summary.summary) (l : list Summary.summary) :
  byStartTime l -> byStartTime (insertStable x l).
Proof.
  unfold byStartTime. induction 1 as [|y r Hr IH Hhd]; cbn.
  - repeat constructor.
  - destruct (Summary.StartTime y <? Summary.StartTime x)%string eqn:C.
    + constructor; [exact IH|].
      destruct r as [|z r']; cbn.
      * constructor. now apply string_ltb_asym.
      * destruct (Summary.StartTime z <? Summary.StartTime x)%string.
        -- constructor. now inversion Hhd.
        -- constructor. now apply string_ltb_asym.
    + constructor; [now constructor|]. now constructor.
Qed.

Lemma sortStable_sorted (l : list Summary.summary) : byStartTime (sortStable l).
Proof.
  induction l as [|x r IH]; cbn; [constructor|]. now apply insertStable_sorted.
Qed.

Section SummaryFacts.
Variable unmarshalEventInfo : string -> option EventInfo.

Lemma todaysEvents_In (evs : eventsBucket) (sid : string) (sessb : sessionBucket)
    (ev : EventInfo) :
  In (sid, sessb) evs -> lastEventInfo unmarshalEventInfo sessb = Some ev ->
  In (summaryOf ev) (todaysEvents unmarshalEventInfo evs).
Proof.
  intros Hin Hl. induction evs as [|[k kb] r IH]; [contradiction|].
  cbn [todaysEvents]. destruct Hin as [[= -> ->]|Hin].
  - rewrite Hl. now left.
  - destruct (lastEventInfo unmarshalEventInfo kb); [right|]; now apply IH.
Qed.

Lemma todaysEvents_length (evs : eventsBucket) :
  (List.length (todaysEvents unmarshalEventInfo evs) <= List.length evs)%nat.
Proof.
  induction evs as [|[k kb] r IH]; cbn [todaysEvents List.length]; [lia|].
  destruct (lastEventInfo unmarshalEventInfo kb); cbn [List.length]; lia.
Qed.

Lemma summaryLines_length (day : string) (l : list Summary.summary) :
  List.length (summaryLines day l) = List.length l.
Proof.
  revert day; induction l as [|x r IH]; intro day; cbn; [reflexivity|].
  now rewrite IH.
Qed.

(** X22.  The summary of a day has one line for every session whose last
    stored value decodes, cancelled sessions included, and the lines are in
    ascending order of start time: the entries behind the lines are a
    permutation of the sessions' entries, sorted by start time, and contain
    the entry of every session whose last value is a snapshot written by
    [updateEvent].  A session without a decodable last value gets no
    line, so there are at most as many lines as sessions. *)
Theorem summariseDay_lists_every_session_by_start_time (evs : eventsBucket)
    (day : string) :
  let entries := sortStable (todaysEvents unmarshalEventInfo evs) in
  summariseDay unmarshalEventInfo evs day = summaryLines day entries
  /\ byStartTime entries
  /\ Permutation entries (todaysEvents unmarshalEventInfo evs)
  /\ (List.length (summariseDay unmarshalEventInfo evs day)
      <= List.length evs)%nat
  /\ forall sid sessb key tev,
       In (sid, sessb) evs ->
       Bolt.Last (snapshots sessb) = Some (key, Json tev) ->
       In (summaryOf (embeddedEventInfo tev)) entries.
Proof.
  intro entries. split; [reflexivity|]. split; [apply sortStable_sorted|].
  split; [apply sortStable_Permutation|]. split.
  - unfold summariseDay. rewrite summaryLines_length.
    rewrite (Permutation_length (sortStable_Permutation _)).
    apply todaysEvents_length.
  - intros sid sessb key tev Hin HL.
    apply (Permutation_in _ (Permutation_sym (sortStable_Permutation _))).
    apply (todaysEvents_In evs sid sessb); [exact Hin|].
    unfold lastEventInfo. now rewrite HL.
Qed.

Lemma showDays_all (count : Z) (days : list (string * dayBucket)) :
  showDays unmarshalEventInfo false count days
  = flat_map (summaryOfDay unmarshalEventInfo) days.
Proof. induction days as [|e r IH]; cbn; [reflexivity|now rewrite IH]. Qed.

(** X23.  What the summary commands cover.  The full summary goes
    through every stored day, the summary from today through every stored
    day from today's key on, and the brief summary through the first two
    stored days from today's key on, whether or not these are today and
    tomorrow and whether or not they have events; each writes the header
    and then the lines of those days in order.  Ending tomorrow without
    starting today shows the first stored day only. *)
Theorem showSummary_covers (db : database) (todayKey : string) :
  let days := flat_map (summaryOfDay unmarshalEventInfo) in
  showSummary unmarshalEventInfo db false false todayKey
  = summaryHeader :: days db
  /\ showSummary unmarshalEventInfo db true false todayKey
     = summaryHeader :: days (Bolt.Seek String.compare todayKey db)
  /\ showSummary unmarshalEventInfo db true true todayKey
     = summaryHeader :: days (firstn 2 (Bolt.Seek String.compare todayKey db))
  /\ showSummary unmarshalEventInfo db false true todayKey
     = summaryHeader :: days (firstn 1 db).
Proof.
  intro days. unfold showSummary, days. cbn [andb]. rewrite !showDays_all.
  split; [reflexivity|]. split; [reflexivity|]. split; f_equal.
  - destruct (Bolt.Seek String.compare todayKey db) as [|e1 [|e2 r]];
      cbn; now rewrite ?app_nil_r.
  - destruct db as [|e1 r]; cbn; now rewrite ?app_nil_r.
Qed.
End SummaryFacts.

(* --------------------------------------------------------------------- *)
(** ** Stores stay well-formed *)

Lemma ascii_compare_trans_lt (a b c : ascii) :
  (a ?= b)%char = Lt -> (b ?= c)%char = Lt -> (a ?= c)%char = Lt.
Proof.
  unfold Ascii.compare. rewrite !N.compare_lt_iff. lia.
Qed.

Lemma string_compare_trans_lt (a b c : string) :
  (a ?= b)%string = Lt -> (b ?= c)%string = Lt -> (a ?= c)%string = Lt.
Proof.
  revert b c; induction a as [|x a IH]; intros [|y b] [|z c]; cbn;
    try discriminate; auto.
  destruct (x ?= y)%char eqn:XY; try discriminate;
    destruct (y ?= z)%char eqn:YZ; try discriminate; intros H1 H2.
  - apply Ascii.compare_eq_iff in XY, YZ. subst.
    assert (R : (z ?= z)%char = Eq)
      by (pose proof (Ascii.compare_antisym z z) as A;
          now destruct (z ?= z)%char).
    rewrite R. eapply IH; eauto.
  - apply Ascii.compare_eq_iff in XY. subst. now rewrite YZ.
  - apply Ascii.compare_eq_iff in YZ. subst. now rewrite XY.
  - now rewrite (ascii_compare_trans_lt _ _ _ XY YZ).
Qed.

Section AscendingPut.
Context {V : Type}.

Lemma Put_In (k : string) (v : V) (b : Bolt.bucket (K := string) (V := V))
    (x : string * V) :
  In x (Bolt.Put String.compare k v b) -> x = (k, v) \/ In x b.
Proof.
  induction b as [|[k' v'] r IH]; cbn.
  - intros [H|[]]. now left.
  - destruct (k ?= k')%string; cbn.
    + intros [H|H]; [now left|right; now right].
    + intros [H|H]; [now left|now right].
    + intros [H|H]; [right; now left|].
      destruct (IH H) as [?|?]; [now left|right; now right].
Qed.

Lemma ascending_Put (k : string) (v : V)
    (b : Bolt.bucket (K := string) (V := V)) :
  Bolt.ascending String.compare b ->
  Bolt.ascending String.compare (Bolt.Put String.compare k v b).
Proof.
  induction b as [|[k' v'] r IH]; cbn [Bolt.Put]; [now cbn|].
  intros [Hall Hr]. destruct (k ?= k')%string eqn:C.
  - apply string_compare_eq in C. subst k'. now split.
  - split; [|now split]. constructor; [exact C|].
    eapply Forall_impl; [|exact Hall]. intros [k2 v2] H. cbn in *.
    exact (string_compare_trans_lt _ _ _ C H).
  - split; [|now apply IH].
    apply Forall_forall. intros x Hx.
    destruct (Put_In k v r x Hx) as [->|Hin].
    + cbn. rewrite string_compare_antisym, C. reflexivity.
    + rewrite Forall_forall in Hall. now apply Hall.
Qed.

Lemma ascending_Get (k : string) (v : V)
    (b : Bolt.bucket (K := string) (V := V)) :
  Bolt.ascending String.compare b -> In (k, v) b ->
  Bolt.Get String.compare k b = Some v.
Proof.
  induction b as [|[k' v'] r IH]; cbn; [contradiction|].
  intros [Hall Hr] [[= -> ->]|Hin].
  - now rewrite (proj2 (string_compare_eq k k) eq_refl).
  - rewrite Forall_forall in Hall. pose proof (Hall _ Hin) as Hlt. cbn in Hlt.
    rewrite string_compare_antisym, Hlt. cbn. now apply IH.
Qed.
End AscendingPut.

Lemma updateEvent_ascending (evb : eventsBucket) (evCtx : EventContext)
    (ev : timestampedEventInfo) :
  Bolt.ascending String.compare evb ->
  Bolt.ascending String.compare (store (updateEvent evb evCtx ev)).
Proof.
  intro Hasc. unfold updateEvent, CreateBucketIfNotExists.
  destruct (SessionId (embeddedEventInfo ev) =? "")%string; [exact Hasc|].
  destruct (Bolt.Get String.compare (SessionId (embeddedEventInfo ev)) evb)
    as [b|].
  - destruct (getMostRecentDetails b) as [e|l]; [|destruct (sameDetails ev l)];
      try destruct (NextSequence b) as [id b1]; cbn [store];
      auto using ascending_Put.
  - destruct (getMostRecentDetails emptySession) as [e|l];
      [|destruct (sameDetails ev l)];
      try destruct (NextSequence emptySession) as [id b1]; cbn [store];
      auto using ascending_Put.
Qed.

Lemma updateEvent_wellFormed (evb : eventsBucket) (evCtx : EventContext)
    (ev : timestampedEventInfo) :
  wellFormedEvents evb -> wellFormedEvents (store (updateEvent evb evCtx ev)).
Proof.
  intros [Ha Hk].
  split; [now apply updateEvent_ascending|now apply updateEvent_wellKeyed_always].
Qed.

Section WellFormedPass.
Variable E : env.

Lemma addEvents_wellFormed (evCtx : EventContext) (now : Z)
    (evs : list EventInfo) :
  forall evb seen, wellFormedEvents evb ->
    wellFormedEvents (store (fst (addEvents evCtx now evs evb seen))).
Proof.
  induction evs as [|ev rest IH]; intros evb seen Hwf; cbn [addEvents];
    [exact Hwf|].
  pose proof (updateEvent_wellFormed evb evCtx
                {| embeddedEventInfo := ev; UpdatedAt := now;
                   Cancelled := false |} Hwf) as H1.
  destruct (failure (updateEvent evb evCtx _)); [exact H1|].
  specialize (IH _ (seen ++ [SessionId ev]) H1).
  now destruct (addEvents evCtx now rest _ _).
Qed.

Lemma pollProducts_wellFormed (day : string) (pids : list ProductId) :
  forall evb seen, wellFormedEvents evb ->
    wellFormedEvents (store (fst (pollProducts E day pids evb seen))).
Proof.
  induction pids as [|pid rest IH]; intros evb seen Hwf; cbn [pollProducts];
    [exact Hwf|].
  destruct (getEventsInfo E day pid) as [evs|]; [|exact Hwf].
  pose proof (addEvents_wellFormed {| Day := day; Product := pid |}
                (pollTime E day pid) evs evb seen Hwf) as H1.
  destruct (addEvents _ _ evs evb seen) as [r seen1]. cbn [fst] in H1.
  destruct (failure r); [exact H1|].
  specialize (IH (store r) seen1 H1).
  now destruct (pollProducts E day rest (store r) seen1).
Qed.

Lemma inferCancellations_wellFormed (evCtx : EventContext) (now : Z)
    (seen : list string) (evb : eventsBucket) :
  wellFormedEvents evb ->
  wellFormedEvents (store (inferCancellations E evCtx now seen evb)).
Proof.
  intros [Ha Hk]. unfold inferCancellations. split.
  - eapply ascending_Keys; [|exact Ha]. now apply cancelScan_Keys.
  - now apply cancelScan_wellKeyed.
Qed.

Lemma checkEventsForDay_wellFormed (b : dayBucket) (evCtx : EventContext) :
  wellFormedEvents (eventsOfDay b) ->
  wellFormedEvents (eventsOfDay (fst (fst (checkEventsForDay E b evCtx)))).
Proof.
  intro Hwf. unfold checkEventsForDay.
  destruct (match products b with
            | Some raw => unmarshalProducts E raw
            | None => None
            end) as [pids|]; [|exact Hwf].
  pose proof (pollProducts_wellFormed (Day evCtx) pids (eventsOfDay b) [] Hwf)
    as H1. unfold eventsOfDay in H1 at 1.
  destruct (pollProducts E (Day evCtx) pids _ []) as [r seen]. cbn [fst] in H1.
  destruct (failure r); [exact H1|].
  cbn [fst eventsOfDay events]. now apply inferCancellations_wellFormed.
Qed.

Lemma wellFormedDatabase_Put (db : database) (day : string) (b : dayBucket) :
  wellFormedDatabase db -> wellFormedEvents (eventsOfDay b) ->
  wellFormedDatabase (Bolt.Put String.compare day b db).
Proof.
  intros [Ha Hd] Hb. split; [now apply ascending_Put|].
  intros k b' G. destruct (string_dec k day) as [->|Hk].
  - rewrite database_Get_Put_same in G. now injection G as <-.
  - rewrite database_Get_Put_other in G by exact Hk. exact (Hd _ _ G).
Qed.

Lemma checkDays_wellFormed (onlyToday : bool) (days : list (string * dayBucket)) :
  forall db, wellFormedDatabase db ->
    wellFormedDatabase (fst (fst (checkDays E onlyToday days db))).
Proof.
  induction days as [|[d b0] days IH]; intros db Hwf; cbn [checkDays];
    [exact Hwf|].
  destruct (Bolt.Get String.compare d db) as [b|] eqn:G; [|now apply IH].
  pose proof (checkEventsForDay_wellFormed b {| Day := d; Product := "" |}
                (proj2 Hwf _ _ G)) as Hb.
  destruct (checkEventsForDay E b {| Day := d; Product := "" |})
    as [[b' tr] err]. cbn [fst] in Hb.
  pose proof (wellFormedDatabase_Put db d b' Hwf Hb) as Hdb.
  destruct err as [e|]; [exact Hdb|].
  destruct onlyToday; [exact Hdb|].
  specialize (IH _ Hdb).
  now destruct (checkDays E false days (Bolt.Put String.compare d b' db))
    as [[db'' log] err'].
Qed.
End WellFormedPass.

Lemma wellFormedDatabase_empty : wellFormedDatabase [].
Proof. split; [exact I|]. intros day b H. discriminate H. Qed.

(** X24.  The refresh keeps the store well-formed: if the day keys of the
    database ascend and in every day the session keys ascend and every
    session bucket's latest snapshot is filed under its own session
    identifier, the same holds after [checkForEvents], in either mode and
    whether or not it fails.  These are the conditions under which the
    cancellation pass was shown to spare started sessions and to be
    idempotent. *)
Theorem checkForEvents_keeps_store_well_formed (E : env) (db : database)
    (todayKey : string) (onlyToday : bool) :
  wellFormedDatabase db ->
  wellFormedDatabase (fst (fst (checkForEvents E db todayKey onlyToday))).
Proof.
  intro Hwf. unfold checkForEvents.
  pose proof (checkDays_wellFormed E onlyToday
                (Bolt.Seek String.compare todayKey db) db Hwf) as H.
  now destruct (checkDays E onlyToday _ db) as [[db' log] [e|]].
Qed.

Lemma wellFormedDatabase_threeDays : wellFormedDatabase Sample.threeDays.
Proof.
  split; [cbn; repeat split; repeat constructor|].
  intros day b. cbn.
  repeat (match goal with
          | |- context [(day ?= ?k)%string] => destruct (day ?= k)%string
          end; try discriminate;
          try (intros [= <-]; split; [exact I|apply wellKeyed_nil])).
Qed.

Lemma checkForEvents_keeps_store_well_formed_witness :
  wellFormedDatabase Sample.threeDays
  /\ wellFormedDatabase
       (fst (fst (checkForEvents (Sample.world Sample.listsS1 0)
                    Sample.threeDays "2024-03-01" false))).
Proof.
  split; [exact wellFormedDatabase_threeDays|].
  exact (checkForEvents_keeps_store_well_formed (Sample.world Sample.listsS1 0)
           Sample.threeDays "2024-03-01" false wellFormedDatabase_threeDays).
Defined.

Section WellFormedAddDays.
Variable jsonString : string -> string.

Lemma addDay_wellFormed (db : database) (newKeys : list string)
    (entry : civil * goSlice ProductId) :
  wellFormedDatabase db ->
  wellFormedDatabase (fst (fst (addDay jsonString (db, newKeys) entry))).
Proof.
  intro Hwf. destruct entry as [ts prods]. unfold addDay.
  destruct (Bolt.Get String.compare (dayKey ts) db) as [b|] eqn:G.
  - destruct (negb _); cbn [fst]; [|exact Hwf].
    apply wellFormedDatabase_Put; [exact Hwf|]. exact (proj2 Hwf _ _ G).
  - destruct (dayKey ts =? "")%string; [exact Hwf|].
    assert (H0 : wellFormedEvents (eventsOfDay {| products := None; events := None |}))
      by (split; [exact I|apply wellKeyed_nil]).
    destruct (negb _); cbn [fst].
    + apply wellFormedDatabase_Put; [now apply wellFormedDatabase_Put|exact H0].
    + now apply wellFormedDatabase_Put.
Qed.

Lemma addDaysLoop_wellFormed (dwi : list (civil * goSlice ProductId)) :
  forall (db : database) (newKeys : list string),
    wellFormedDatabase db ->
    wellFormedDatabase (fst (fst (addDaysLoop jsonString (db, newKeys) dwi))).
Proof.
  induction dwi as [|entry dwi IH]; intros db newKeys Hwf; cbn [addDaysLoop];
    [exact Hwf|].
  pose proof (addDay_wellFormed db newKeys entry Hwf) as H1.
  destruct (addDay jsonString (db, newKeys) entry) as [[db1 nk1] [|]];
    cbn [fst] in *; [now apply IH|exact H1].
Qed.
End WellFormedAddDays.

(** X25.  [addDays] keeps the store well-formed, and it builds a
    well-formed store from nothing: starting from the empty database, any
    sequence of calendar scans leaves the day keys ascending and every day
    with a well-formed (at first empty) events bucket. *)
Theorem addDays_keeps_store_well_formed (jsonString : string -> string)
    (db : database) (dwi : list (civil * goSlice ProductId)) :
  wellFormedDatabase db ->
  wellFormedDatabase (fst (fst (addDays jsonString db dwi))).
Proof.
  intro Hwf. unfold addDays.
  pose proof (addDaysLoop_wellFormed jsonString dwi db [] Hwf) as H.
  now destruct (addDaysLoop jsonString (db, []) dwi) as [[db' nk] [|]].
Qed.

Lemma addDays_keeps_store_well_formed_witness :
  let dwi := [({| year := 2024; month := 3; day := 9 |}, Slice ["p1"]);
              (Sample.firstOfMarch, Slice ["p1"; "p2"])] in
  wellFormedDatabase []
  /\ wellFormedDatabase (fst (fst (addDays Sample.plainJsonString [] dwi)))
  /\ Bolt.Keys (fst (fst (addDays Sample.plainJsonString [] dwi)))
     = ["2024-03-01"; "2024-03-09"].
Proof.
  intro dwi. split; [exact wellFormedDatabase_empty|].
  split; [|reflexivity].
  exact (addDays_keeps_store_well_formed Sample.plainJsonString [] dwi
           wellFormedDatabase_empty).
Defined.

(** X26.  The "starting soon" trigger keeps the store well-formed as
    well. *)
Theorem checkIfEventsStartingSoon_keeps_store_well_formed (E : env)
    (db : database) (todayKey : string) (today : Z) :
  wellFormedDatabase db ->
  wellFormedDatabase (fst (fst (checkIfEventsStartingSoon E db todayKey today))).
Proof.
  intro Hwf. unfold checkIfEventsStartingSoon.
  destruct (Bolt.Seek String.compare todayKey db) as [|[b dayb] later] eqn:S;
    [exact Hwf|].
  destruct (events dayb) as [evs|] eqn:Ev; [|exact Hwf].
  destruct (eventStartingSoon E todayKey today evs false); [|exact Hwf].
  assert (G : Bolt.Get String.compare b db = Some dayb).
  { apply ascending_Get; [exact (proj1 Hwf)|].
    apply (Seek_incl todayKey). rewrite S. now left. }
  pose proof (checkEventsForDay_wellFormed E dayb
                {| Day := todayKey; Product := "" |} (proj2 Hwf _ _ G)) as Hb.
  destruct (checkEventsForDay E dayb _) as [[dayb' tr] [e|]]; cbn [fst] in *;
    [exact Hwf|]. now apply wellFormedDatabase_Put.
Qed.

Lemma checkIfEventsStartingSoon_keeps_store_well_formed_witness :
  wellFormedDatabase Sample.threeDays
  /\ wellFormedDatabase
       (fst (fst (checkIfEventsStartingSoon (Sample.world Sample.listsS1 0)
                    Sample.threeDays "2024-03-01" 0))).
Proof.
  split; [exact wellFormedDatabase_threeDays|].
  exact (checkIfEventsStartingSoon_keeps_store_well_formed
           (Sample.world Sample.listsS1 0) Sample.threeDays "2024-03-01" 0
           wellFormedDatabase_threeDays).
Defined.


(* --------------------------------------------------------------------- *)
(** ** A second pass over the same listing *)

Lemma roomy_sequenced (b : sessionBucket) : roomy b -> sequenced b.
Proof. intros [H1 H2]. split; [lia|exact H2]. Qed.

Lemma upToDate_ext (evb evb' : eventsBucket) (ev : EventInfo) :
  Bolt.Get String.compare (SessionId ev) evb'
  = Bolt.Get String.compare (SessionId ev) evb ->
  upToDate evb ev -> upToDate evb' ev.
Proof.
  intros HG [Hne (cur & Hl & Hs)]. split; [exact Hne|]. exists cur.
  split; [|exact Hs]. unfold latestSnapshot in *. now rewrite HG.
Qed.

Lemma listedSessions_listedEvents (E : env) (day : string)
    (pids : list ProductId) :
  listedSessions E day pids = map SessionId (listedEvents E day pids).
Proof.
  unfold listedSessions, listedEvents.
  induction pids as [|pid rest IH]; [reflexivity|].
  cbn [flat_map]. rewrite map_app, IH.
  now destruct (getEventsInfo E day pid).
Qed.

Lemma NoDup_app_parts {A : Type} (l1 l2 : list A) :
  NoDup (l1 ++ l2) ->
  NoDup l1 /\ NoDup l2 /\ forall a, In a l1 -> ~ In a l2.
Proof.
  induction l1 as [|x l1 IH]; cbn [app].
  - intro H. split; [constructor|]. split; [exact H|]. intros a [].
  - intro H. apply NoDup_cons_iff in H as [Hx H].
    destruct (IH H) as (H1 & H2 & H3). split.
    + constructor; [|exact H1]. intro Hin. apply Hx, in_or_app. now left.
    + split; [exact H2|]. intros a [<-|Ha].
      * intro Hin. apply Hx, in_or_app. now right.
      * now apply H3.
Qed.

(** One [updateEvent] of the product loop brings the session up to date
    and leaves its counter with room for one more snapshot. *)
Lemma updateEvent_settles (evb : eventsBucket) (evCtx : EventContext)
    (ev : EventInfo) (now : Z) :
  (forall b, Bolt.Get String.compare (SessionId ev) evb = Some b -> roomy b) ->
  let r := updateEvent evb evCtx
             {| embeddedEventInfo := ev; UpdatedAt := now; Cancelled := false |} in
  failure r = None ->
  upToDate (store r) ev
  /\ forall b', Bolt.Get String.compare (SessionId ev) (store r) = Some b' ->
                sequenced b'.
Proof.
  intros Hroom r Hf.
  set (tev := {| embeddedEventInfo := ev; UpdatedAt := now; Cancelled := false |})
    in *.
  assert (Hne : SessionId ev <> "").
  { intro He. unfold r, updateEvent, CreateBucketIfNotExists in Hf.
    change (SessionId (embeddedEventInfo tev)) with (SessionId ev) in Hf.
    rewrite He in Hf. discriminate Hf. }
  destruct (Bolt.Get String.compare (SessionId ev) evb) as [b|] eqn:G.
  - destruct (updateEvent_present evb evCtx tev b Hne G)
      as [(lastEv & D & S & Hr)|(line & _ & Hr)]; unfold r; rewrite Hr;
      cbn [store].
    + split.
      * split; [exact Hne|]. exists lastEv. unfold latestSnapshot.
        rewrite G, D. split; [reflexivity|exact S].
      * rewrite G. intros b' [= <-]. apply roomy_sequenced. now apply Hroom.
    + pose proof (Hroom b eq_refl) as Hb.
      rewrite (write_appends b (Json tev) (roomy_sequenced b Hb)).
      change (SessionId (embeddedEventInfo tev)) with (SessionId ev).
      split.
      * split; [exact Hne|]. exists tev. unfold latestSnapshot.
        rewrite events_Get_Put_same. unfold getMostRecentDetails.
        cbn [snapshots]. rewrite Last_snoc. split; [reflexivity|].
        apply sameDetails_spec. repeat split.
      * rewrite events_Get_Put_same. intros b' [= <-].
        destruct Hb as [Hs Hk]. split; cbn [sequence snapshots]; [lia|].
        apply Forall_app. split.
        -- eapply Forall_impl; [|exact Hk]. intros [k0 v0] Hk0. cbn in *. lia.
        -- constructor; [cbn; lia|constructor].
  - unfold r. rewrite (updateEvent_created evb evCtx tev Hne G). cbn [store].
    change (SessionId (embeddedEventInfo tev)) with (SessionId ev).
    split.
    + split; [exact Hne|]. exists tev. unfold latestSnapshot.
      rewrite events_Get_Put_same. split; [reflexivity|].
      apply sameDetails_spec. repeat split.
    + rewrite events_Get_Put_same. intros b' [= <-].
      split; cbn [sequence snapshots]; [lia|].
      constructor; [cbn; lia|constructor].
Qed.

Section SecondPass.
Variable E : env.

Lemma addEvents_settles (evCtx : EventContext) (now : Z) (evs : list EventInfo) :
  forall evb seen,
    (forall ev b, In ev evs ->
       Bolt.Get String.compare (SessionId ev) evb = Some b -> roomy b) ->
    NoDup (map SessionId evs) ->
    let res := addEvents evCtx now evs evb seen in
    failure (fst res) = None ->
    (forall ev, In ev evs -> upToDate (store (fst res)) ev)
    /\ (forall k, ~ In k (map SessionId evs) ->
          Bolt.Get String.compare k (store (fst res))
          = Bolt.Get String.compare k evb)
    /\ (forall ev b, In ev evs ->
          Bolt.Get String.compare (SessionId ev) (store (fst res)) = Some b ->
          sequenced b).
Proof.
  induction evs as [|ev rest IH]; intros evb seen Hroom Hnd;
    cbn [addEvents map].
  - cbn [fst store]. intros _. split; [intros ev []|].
    split; [reflexivity|intros ev b []].
  - apply NoDup_cons_iff in Hnd as [Hnin Hnd].
    pose proof (updateEvent_settles evb evCtx ev now
                  (fun b => Hroom ev b (or_introl eq_refl))) as Hstep.
    cbv zeta in Hstep.
    assert (Hoth : forall k, k <> SessionId ev ->
              Bolt.Get String.compare k
                (store (updateEvent evb evCtx
                          {| embeddedEventInfo := ev; UpdatedAt := now;
                             Cancelled := false |}))
              = Bolt.Get String.compare k evb)
      by (intros k Hk; now apply updateEvent_other).
    destruct (failure (updateEvent evb evCtx _)) eqn:F;
      [cbn [fst failure]; discriminate|].
    destruct (Hstep eq_refl) as [Hup Hseq].
    assert (Hroom' : forall e b, In e rest ->
              Bolt.Get String.compare (SessionId e)
                (store (updateEvent evb evCtx
                          {| embeddedEventInfo := ev; UpdatedAt := now;
                             Cancelled := false |})) = Some b -> roomy b).
    { intros e b Hin HG. apply (Hroom e b); [now right|].
      rewrite <- Hoth; [exact HG|]. intro Heq. apply Hnin.
      rewrite <- Heq. now apply in_map. }
    specialize (IH _ (seen ++ [SessionId ev]) Hroom' Hnd).
    destruct (addEvents evCtx now rest _ (seen ++ [SessionId ev]))
      as [r' seen'].
    cbn [fst store failure] in *. intro Hf.
    destruct (IH Hf) as (I1 & I2 & I3).
    split; [|split].
    + intros e [<-|Hin]; [|now apply I1].
      eapply upToDate_ext; [|exact Hup]. now apply I2.
    + intros k Hk. rewrite I2 by (intro; apply Hk; now right).
      apply Hoth. intro; apply Hk; now left.
    + intros e b [<-|Hin] HG; [|now apply (I3 e)].
      rewrite I2 in HG by exact Hnin. now apply Hseq.
Qed.

Lemma pollProducts_settles (day : string) (pids : list ProductId) :
  forall evb seen,
    (forall k b, In k (listedSessions E day pids) ->
       Bolt.Get String.compare k evb = Some b -> roomy b) ->
    NoDup (listedSessions E day pids) ->
    let res := pollProducts E day pids evb seen in
    failure (fst res) = None ->
    (forall ev, In ev (listedEvents E day pids) -> upToDate (store (fst res)) ev)
    /\ (forall k, ~ In k (listedSessions E day pids) ->
          Bolt.Get String.compare k (store (fst res))
          = Bolt.Get String.compare k evb)
    /\ (forall k b, In k (listedSessions E day pids) ->
          Bolt.Get String.compare k (store (fst res)) = Some b ->
          sequenced b).
Proof.
  induction pids as [|pid rest IH]; intros evb seen Hroom Hnd;
    cbn [pollProducts].
  - cbn [fst store]. intros _. split; [intros ev []|].
    split; [reflexivity|intros k b []].
  - unfold listedSessions, listedEvents in *. cbn [flat_map] in *.
    fold (listedSessions E day rest) in *. fold (listedEvents E day rest) in *.
    destruct (getEventsInfo E day pid) as [evs|] eqn:G;
      [|cbn [fst failure]; discriminate].
    destruct (NoDup_app_parts _ _ Hnd) as (Hnd1 & Hnd2 & Hdis).
    pose proof (addEvents_settles {| Day := day; Product := pid |}
                  (pollTime E day pid) evs evb seen) as HA.
    destruct (addEvents _ _ evs evb seen) as [r seen1]. cbn [fst] in HA.
    destruct (failure r) eqn:F; [cbn [fst]; rewrite F; discriminate|].
    destruct HA as (A1 & A2 & A3); [|exact Hnd1|reflexivity|].
    { intros ev b Hin HG. apply (Hroom (SessionId ev) b); [|exact HG].
      apply in_or_app. left. now apply in_map. }
    assert (Hroom' : forall k b, In k (listedSessions E day rest) ->
              Bolt.Get String.compare k (store r) = Some b -> roomy b).
    { intros k b Hin HG. apply (Hroom k b); [apply in_or_app; now right|].
      rewrite <- A2; [exact HG|]. intro Hk. exact (Hdis k Hk Hin). }
    specialize (IH (store r) seen1 Hroom' Hnd2).
    destruct (pollProducts E day rest (store r) seen1) as [r' seen2].
    cbn [fst store failure] in *. intro Hf.
    destruct (IH Hf) as (I1 & I2 & I3).
    split; [|split].
    + intros ev [Hin|Hin]%in_app_or; [|now apply I1].
      eapply upToDate_ext; [|exact (A1 ev Hin)].
      apply I2. apply Hdis. now apply in_map.
    + intros k Hk. rewrite I2 by (intro; apply Hk, in_or_app; now right).
      apply A2. intro; apply Hk, in_or_app; now left.
    + intros k b [Hin|Hin]%in_app_or HG; [|now apply (I3 k)].
      rewrite I2 in HG by now apply Hdis.
      apply in_map_iff in Hin as (ev & <- & Hin). now apply (A3 ev).
Qed.

Lemma addEvents_quiet (evCtx : EventContext) (now : Z) (evs : list EventInfo) :
  forall evb seen,
    (forall ev, In ev evs -> upToDate evb ev) ->
    addEvents evCtx now evs evb seen
    = ({| store := evb; trace := []; failure := None |},
       seen ++ map SessionId evs).
Proof.
  induction evs as [|ev rest IH]; intros evb seen Hup; cbn [addEvents map].
  - now rewrite app_nil_r.
  - destruct (Hup ev (or_introl eq_refl)) as [Hne (cur & Hl & Hs)].
    unfold latestSnapshot in Hl.
    destruct (Bolt.Get String.compare (SessionId ev) evb) as [b|] eqn:G;
      [|discriminate].
    destruct (getMostRecentDetails b) as [e|l] eqn:D; [discriminate|].
    injection Hl as ->.
    rewrite (updateEvent_unchanged evb evCtx
               {| embeddedEventInfo := ev; UpdatedAt := now; Cancelled := false |}
               cur b Hne G D Hs).
    cbn [failure store trace].
    rewrite IH by (intros e He; apply Hup; now right).
    now rewrite <- app_assoc.
Qed.

Lemma pollProducts_quiet (pollTime' : string -> ProductId -> Z)
    (scanTime' : string -> Z) (day : string) (pids : list ProductId) :
  forall evb seen,
    (forall pid, In pid pids -> getEventsInfo E day pid <> None) ->
    (forall ev, In ev (listedEvents E day pids) -> upToDate evb ev) ->
    pollProducts (retimed E pollTime' scanTime') day pids evb seen
    = ({| store := evb; trace := []; failure := None |},
       seen ++ listedSessions E day pids).
Proof.
  induction pids as [|pid rest IH]; intros evb seen Hans Hup;
    cbn [pollProducts].
  - cbn. now rewrite app_nil_r.
  - unfold listedSessions, listedEvents in *. cbn [flat_map] in *.
    fold (listedSessions E day rest) in *. fold (listedEvents E day rest) in *.
    cbn [getEventsInfo retimed].
    pose proof (Hans pid (or_introl eq_refl)) as Hpid.
    destruct (getEventsInfo E day pid) as [evs|]; [|now contradiction Hpid].
    rewrite addEvents_quiet by (intros e He; apply Hup, in_or_app; now left).
    cbn [failure store trace].
    rewrite IH; [now rewrite <- app_assoc| |].
    + intros p Hp. apply Hans. now right.
    + intros e He. apply Hup, in_or_app. now right.
Qed.

Lemma cancelScan_retimed (pollTime' : string -> ProductId -> Z)
    (scanTime' : string -> Z) (evCtx : EventContext) (now : Z)
    (seen sids : list string) :
  forall evb,
    cancelScan (retimed E pollTime' scanTime') evCtx now seen sids evb
    = cancelScan E evCtx now seen sids evb.
Proof.
  induction sids as [|sid rest IH]; intro evb; [reflexivity|].
  cbn [cancelScan]. cbn [parseTimeLocally retimed].
  destruct (Bolt.Get String.compare sid evb) as [sessb|]; [|apply IH].
  destruct (getMostRecentDetails sessb) as [e|lastEv]; [reflexivity|].
  destruct (parseTimeLocally E (Day evCtx) (StartTime (embeddedEventInfo lastEv)))
    as [t|]; [|apply IH].
  destruct (t <? now); [reflexivity|].
  destruct (isSessionInList seen sid); [apply IH|].
  destruct (failure (updateEvent evb evCtx _)); [reflexivity|].
  now rewrite IH.
Qed.
End SecondPass.

(** X27.  A second pass over an unchanged listing is silent.  Take a day
    whose events bucket is well-formed and whose session counters have
    room, and a booking site that lists no session twice for the day.  If
    a pass over the day returns without error, a further pass against the
    same listing, polled at any times and scanned no earlier than the
    first, writes nothing, syncs nothing to the calendar, logs nothing and
    leaves the day's bucket exactly as the first pass left it. *)
Theorem checkEventsForDay_twice_writes_once (E : env) (b : dayBucket)
    (evCtx : EventContext) (pids : list ProductId)
    (pollTime' : string -> ProductId -> Z) (scanTime' : string -> Z) :
  productsOfDay E b = Some pids ->
  wellFormedEvents (eventsOfDay b) ->
  (forall sid sessb, Bolt.Get String.compare sid (eventsOfDay b) = Some sessb ->
     roomy sessb) ->
  NoDup (listedSessions E (Day evCtx) pids) ->
  scanTime E (Day evCtx) <= scanTime' (Day evCtx) ->
  let first := checkEventsForDay E b evCtx in
  snd first = None ->
  checkEventsForDay (retimed E pollTime' scanTime') (fst (fst first)) evCtx
  = (fst (fst first), [], None).
Proof.
  intros Hp Hwf Hroom Hnd Hle first. unfold first, checkEventsForDay.
  unfold productsOfDay in Hp. rewrite Hp.
  fold (eventsOfDay b).
  pose proof (pollProducts_settles E (Day evCtx) pids (eventsOfDay b) []
                (fun k sb _ => Hroom k sb) Hnd) as HS.
  pose proof (pollProducts_facts E (Day evCtx) pids (eventsOfDay b) [])
    as (_ & _ & HF & _).
  pose proof (pollProducts_wellFormed E (Day evCtx) pids (eventsOfDay b) [] Hwf)
    as [Hasc Hwk].
  destruct (pollProducts E (Day evCtx) pids (eventsOfDay b) []) as [r seen].
  cbn [fst snd] in *.
  destruct (failure r) eqn:F; [cbn [snd]; discriminate|].
  destruct (HS eq_refl) as (S1 & S2 & S3).
  destruct (HF eq_refl) as [Hseen Hans]. cbn [app] in Hseen. subst seen.
  cbn [fst snd]. intro Hf.
  cbn [products events unmarshalProducts retimed]. rewrite Hp.
  set (ctxL := lastProduct evCtx pids).
  set (r1 := inferCancellations E ctxL (scanTime E (Day evCtx))
               (listedSessions E (Day evCtx) pids) (store r)) in *.
  assert (Hsp : forall k, In k (listedSessions E (Day evCtx) pids) ->
            Bolt.Get String.compare k (store r1)
            = Bolt.Get String.compare k (store r)).
  { intros k Hk. unfold r1, inferCancellations.
    now apply cancelScan_spares_listed. }
  rewrite (pollProducts_quiet E pollTime' scanTime' (Day evCtx) pids
             (store r1) [] Hans).
  2:{ intros ev Hev. eapply upToDate_ext; [|exact (S1 ev Hev)].
      apply Hsp. rewrite listedSessions_listedEvents. now apply in_map. }
  cbn [failure store trace app scanTime retimed].
  unfold inferCancellations. rewrite cancelScan_retimed.
  assert (HK : Bolt.Keys (store r1) = Bolt.Keys (store r))
    by (unfold r1, inferCancellations; now apply cancelScan_Keys).
  rewrite HK. fold ctxL. subst r1. unfold inferCancellations.
  rewrite (cancelScan_settled E ctxL (listedSessions E (Day evCtx) pids)
             (scanTime E (Day evCtx)) (scanTime' (Day evCtx))
             (Bolt.Keys (store r)) Hle (store r)).
  - reflexivity.
  - eapply ascending_NoDup; [apply string_compare_eq|exact Hasc].
  - exact Hwk.
  - intros k sb _ HG.
    destruct (in_dec string_dec k (listedSessions E (Day evCtx) pids))
      as [Hin|Hnin].
    + now apply (S3 k).
    + rewrite S2 in HG by exact Hnin. apply roomy_sequenced.
      now apply (Hroom k).
Qed.


Lemma checkEventsForDay_twice_writes_once_witness :
  let E := Sample.world (Sample.listsS1With 3)
             (Sample.tenOClock - 3600 * Second) in
  let evCtx := {| Day := "2024-03-01"; Product := "" |} in
  let first := checkEventsForDay E (Sample.dayWith Sample.laterSessions) evCtx in
  snd first = None
  /\ map (fun x => (SessionId (embeddedEventInfo x), Cancelled x))
       (written (snd (fst first)))
     = [("S1", false); ("B", true); ("C", true)]
  /\ checkEventsForDay
       (retimed E (fun _ _ => Sample.tenOClock) (fun _ => Sample.tenOClock))
       (fst (fst first)) evCtx
     = (fst (fst first), [], None).
Proof.
  intros E evCtx first. split; [reflexivity|]. split; [reflexivity|].
  apply (checkEventsForDay_twice_writes_once E
           (Sample.dayWith Sample.laterSessions) evCtx ["p1"]).
  - reflexivity.
  - split.
    + cbn. repeat split; repeat constructor.
    + repeat (apply wellKeyed_cons;
              [discriminate
              |intros lastEv H; cbn in H; injection H as <-; reflexivity|]).
      apply wellKeyed_nil.
  - intros sid sessb. cbn.
    repeat (match goal with
            | |- context [(sid ?= ?k)%string] => destruct (sid ?= k)%string
            end; try discriminate;
            try (intros [= <-]; split; [cbn; lia|repeat constructor; cbn; lia])).
  - cbn. repeat constructor. intros [].
  - cbn. unfold Sample.tenOClock, Second. lia.
  - reflexivity.
Defined.


(* --------------------------------------------------------------------- *)
(** ** Every stored session has a snapshot *)

Lemma snapshotted_nil : snapshotted [].
Proof. intros sid sessb []. Qed.

Lemma snapshotted_Put (evb : eventsBucket) (sid : string) (b : sessionBucket) :
  snapshotted evb ->
  (exists lastEv, getMostRecentDetails b = inr lastEv) ->
  snapshotted (Bolt.Put String.compare sid b evb).
Proof.
  intros Hs Hb k kb Hin. destruct (Put_In sid b evb (k, kb) Hin) as [[= -> ->]|H].
  - exact Hb.
  - exact (Hs k kb H).
Qed.

(** A write leaves a bucket whose latest snapshot decodes, if the bucket
    was new or its latest snapshot decoded before. *)
Lemma putSnapshot_decodes (b : sessionBucket) (ev : timestampedEventInfo) :
  snapshots b = [] \/ (exists lastEv, getMostRecentDetails b = inr lastEv) ->
  exists lastEv,
    getMostRecentDetails
      (putSnapshot (fst (NextSequence b)) (Json ev) (snd (NextSequence b)))
    = inr lastEv.
Proof.
  intro Hb. unfold getMostRecentDetails, putSnapshot, NextSequence in *.
  cbn [fst snd snapshots sequence].
  destruct Hb as [Hb|Hb]; [rewrite Hb; now exists ev|].
  destruct (Last_Put Z.compare ((sequence b + 1) mod 2 ^ 64) (Json ev)
              (snapshots b)) as [H|H]; rewrite H; [now exists ev|exact Hb].
Qed.

Lemma updateEvent_snapshotted (evb : eventsBucket) (evCtx : EventContext)
    (ev : timestampedEventInfo) :
  snapshotted evb -> snapshotted (store (updateEvent evb evCtx ev)).
Proof.
  intro Hs.
  destruct (string_dec (SessionId (embeddedEventInfo ev)) "") as [He|Hne].
  { unfold updateEvent, CreateBucketIfNotExists. now rewrite He. }
  destruct (Bolt.Get String.compare (SessionId (embeddedEventInfo ev)) evb)
    as [b|] eqn:G.
  - destruct (updateEvent_present evb evCtx ev b Hne G)
      as [(lastEv & _ & _ & ->)|(line & _ & ->)]; cbn [store]; [exact Hs|].
    apply snapshotted_Put; [exact Hs|]. apply putSnapshot_decodes. right.
    apply (Hs (SessionId (embeddedEventInfo ev))).
    exact (Get_Some_In _ string_compare_eq _ _ _ G).
  - rewrite (updateEvent_created evb evCtx ev Hne G). cbn [store].
    apply snapshotted_Put; [exact Hs|]. now exists ev.
Qed.

Section SnapshottedPass.
Variable E : env.

Lemma addEvents_snapshotted (evCtx : EventContext) (now : Z)
    (evs : list EventInfo) :
  forall evb seen, snapshotted evb ->
    snapshotted (store (fst (addEvents evCtx now evs evb seen))).
Proof.
  induction evs as [|ev rest IH]; intros evb seen Hs; cbn [addEvents];
    [exact Hs|].
  pose proof (updateEvent_snapshotted evb evCtx
                {| embeddedEventInfo := ev; UpdatedAt := now;
                   Cancelled := false |} Hs) as H1.
  destruct (failure (updateEvent evb evCtx _)); [exact H1|].
  specialize (IH _ (seen ++ [SessionId ev]) H1).
  now destruct (addEvents evCtx now rest _ _).
Qed.

Lemma pollProducts_snapshotted (day : string) (pids : list ProductId) :
  forall evb seen, snapshotted evb ->
    snapshotted (store (fst (pollProducts E day pids evb seen))).
Proof.
  induction pids as [|pid rest IH]; intros evb seen Hs; cbn [pollProducts];
    [exact Hs|].
  destruct (getEventsInfo E day pid) as [evs|]; [|exact Hs].
  pose proof (addEvents_snapshotted {| Day := day; Product := pid |}
                (pollTime E day pid) evs evb seen Hs) as H1.
  destruct (addEvents _ _ evs evb seen) as [r seen1]. cbn [fst] in H1.
  destruct (failure r); [exact H1|].
  specialize (IH (store r) seen1 H1).
  now destruct (pollProducts E day rest (store r) seen1).
Qed.

(** On a store in which every session has a snapshot, the scan as coded is
    the scan as specified, and it keeps the store that way. *)
Lemma cancelScan_as_specified (evCtx : EventContext) (now : Z)
    (seen sids : list string) :
  forall evb, snapshotted evb ->
    cancelScan E evCtx now seen sids evb
    = cancelScanAsSpecified E evCtx now seen sids evb
    /\ snapshotted (store (cancelScan E evCtx now seen sids evb)).
Proof.
  induction sids as [|sid rest IH]; intros evb Hs;
    cbn [cancelScan cancelScanAsSpecified]; [now split|].
  destruct (Bolt.Get String.compare sid evb) as [sessb|] eqn:G; [|now apply IH].
  destruct (Hs sid sessb (Get_Some_In _ string_compare_eq _ _ _ G))
    as (lastEv & ->).
  destruct (parseTimeLocally E (Day evCtx) (StartTime (embeddedEventInfo lastEv)))
    as [t|]; [|now apply IH].
  destruct (t <? now); [now split|].
  destruct (isSessionInList seen sid); [now apply IH|].
  pose proof (updateEvent_snapshotted evb evCtx
                {| embeddedEventInfo := embeddedEventInfo lastEv;
                   UpdatedAt := now; Cancelled := true |} Hs) as H1.
  cbv zeta. destruct (failure (updateEvent evb evCtx _)); [now split|].
  destruct (IH _ H1) as [<- H2]. now split.
Qed.

Lemma checkEventsForDay_snapshotted (b : dayBucket) (evCtx : EventContext) :
  snapshotted (eventsOfDay b) ->
  snapshotted (eventsOfDay (fst (fst (checkEventsForDay E b evCtx)))).
Proof.
  intro Hs. unfold checkEventsForDay.
  destruct (match products b with
            | Some raw => unmarshalProducts E raw
            | None => None
            end) as [pids|]; [|exact Hs].
  pose proof (pollProducts_snapshotted (Day evCtx) pids (eventsOfDay b) [] Hs)
    as H1. unfold eventsOfDay in H1 at 1.
  destruct (pollProducts E (Day evCtx) pids _ []) as [r seen]. cbn [fst] in H1.
  destruct (failure r); [exact H1|].
  cbn [fst eventsOfDay events]. unfold inferCancellations.
  now apply cancelScan_as_specified.
Qed.

Lemma snapshottedDatabase_Put (db : database) (day : string) (b : dayBucket) :
  snapshottedDatabase db -> snapshotted (eventsOfDay b) ->
  snapshottedDatabase (Bolt.Put String.compare day b db).
Proof.
  intros Hd Hb k kb Hin. destruct (Put_In day b db (k, kb) Hin) as [[= -> ->]|H].
  - exact Hb.
  - exact (Hd k kb H).
Qed.

Lemma checkDays_snapshotted (onlyToday : bool)
    (days : list (string * dayBucket)) :
  forall db, snapshottedDatabase db ->
    snapshottedDatabase (fst (fst (checkDays E onlyToday days db))).
Proof.
  induction days as [|[d b0] days IH]; intros db Hd; cbn [checkDays];
    [exact Hd|].
  destruct (Bolt.Get String.compare d db) as [b|] eqn:G; [|now apply IH].
  pose proof (checkEventsForDay_snapshotted b {| Day := d; Product := "" |}
                (Hd d b (Get_Some_In _ string_compare_eq _ _ _ G))) as Hb.
  destruct (checkEventsForDay E b {| Day := d; Product := "" |})
    as [[b' tr] err]. cbn [fst] in Hb.
  pose proof (snapshottedDatabase_Put db d b' Hd Hb) as Hdb.
  destruct err as [e|]; [exact Hdb|].
  destruct onlyToday; [exact Hdb|].
  specialize (IH _ Hdb).
  now destruct (checkDays E false days (Bolt.Put String.compare d b' db))
    as [[db'' log] err'].
Qed.

Lemma checkForEvents_snapshotted (db : database) (todayKey : string)
    (onlyToday : bool) :
  snapshottedDatabase db ->
  snapshottedDatabase (fst (fst (checkForEvents E db todayKey onlyToday))).
Proof.
  intro Hd. unfold checkForEvents.
  pose proof (checkDays_snapshotted onlyToday
                (Bolt.Seek String.compare todayKey db) db Hd) as H.
  now destruct (checkDays E onlyToday _ db) as [[db' log] [e|]].
Qed.

Lemma checkIfEventsStartingSoon_snapshotted (db : database)
    (todayKey : string) (today : Z) :
  snapshottedDatabase db ->
  snapshottedDatabase (fst (fst (checkIfEventsStartingSoon E db todayKey today))).
Proof.
  intro Hd. unfold checkIfEventsStartingSoon.
  destruct (Bolt.Seek String.compare todayKey db) as [|[b dayb] later] eqn:S;
    [exact Hd|].
  destruct (events dayb) as [evs|] eqn:Ev; [|exact Hd].
  destruct (eventStartingSoon E todayKey today evs false); [|exact Hd].
  assert (Hin : In (b, dayb) db)
    by (apply (Seek_incl todayKey); rewrite S; now left).
  pose proof (checkEventsForDay_snapshotted dayb
                {| Day := todayKey; Product := "" |} (Hd b dayb Hin)) as Hb.
  destruct (checkEventsForDay E dayb _) as [[dayb' tr] [e|]]; cbn [fst] in *;
    [exact Hd|]. now apply snapshottedDatabase_Put.
Qed.
End SnapshottedPass.

Section SnapshottedAddDays.
Variable jsonString : string -> string.

Lemma addDay_snapshotted (db : database) (newKeys : list string)
    (entry : civil * goSlice ProductId) :
  snapshottedDatabase db ->
  snapshottedDatabase (fst (fst (addDay jsonString (db, newKeys) entry))).
Proof.
  intro Hd. destruct entry as [ts prods]. unfold addDay.
  destruct (Bolt.Get String.compare (dayKey ts) db) as [b|] eqn:G.
  - destruct (negb _); cbn [fst]; [|exact Hd].
    apply snapshottedDatabase_Put; [exact Hd|].
    exact (Hd _ _ (Get_Some_In _ string_compare_eq _ _ _ G)).
  - destruct (dayKey ts =? "")%string; [exact Hd|].
    destruct (negb _); cbn [fst].
    + apply snapshottedDatabase_Put;
        [apply snapshottedDatabase_Put; [exact Hd|]|]; exact snapshotted_nil.
    + apply snapshottedDatabase_Put; [exact Hd|exact snapshotted_nil].
Qed.

Lemma addDays_snapshotted (db : database)
    (dwi : list (civil * goSlice ProductId)) :
  snapshottedDatabase db ->
  snapshottedDatabase (fst (fst (addDays jsonString db dwi))).
Proof.
  intro Hd. unfold addDays.
  assert (H : forall (l : list (civil * goSlice ProductId)) (d : database)
                     (nk : list string),
             snapshottedDatabase d ->
             snapshottedDatabase (fst (fst (addDaysLoop jsonString (d, nk) l)))).
  { induction l as [|entry l IH]; intros d nk Hdd; cbn [addDaysLoop];
      [exact Hdd|].
    pose proof (addDay_snapshotted d nk entry Hdd) as H1.
    destruct (addDay jsonString (d, nk) entry) as [[d1 nk1] [|]];
      cbn [fst] in *; [now apply IH|exact H1]. }
  specialize (H dwi db [] Hd).
  now destruct (addDaysLoop jsonString (db, []) dwi) as [[db' nk] [|]].
Qed.
End SnapshottedAddDays.

Lemma snapshottedDatabase_empty : snapshottedDatabase [].
Proof. intros day b []. Qed.




(** X28.  Every session bucket the program stores has a latest snapshot
    that decodes: if that holds of every day of the database, it holds
    after [checkForEvents] (in either mode), after
    [checkIfEventsStartingSoon] and after [addDays], whatever the booking
    site answers and whether or not the command fails.  It holds of the
    empty database, so it holds of every database these commands build. *)
Theorem every_stored_session_has_a_snapshot (E : env)
    (jsonString : string -> string) (db : database) (todayKey : string)
    (onlyToday : bool) (today : Z) (dwi : list (civil * goSlice ProductId)) :
  snapshottedDatabase db ->
  snapshottedDatabase (fst (fst (checkForEvents E db todayKey onlyToday)))
  /\ snapshottedDatabase
       (fst (fst (checkIfEventsStartingSoon E db todayKey today)))
  /\ snapshottedDatabase (fst (fst (addDays jsonString db dwi))).
Proof.
  intro Hd. split; [now apply checkForEvents_snapshotted|].
  split; [now apply checkIfEventsStartingSoon_snapshotted
         |now apply addDays_snapshotted].
Qed.

Lemma snapshottedDatabase_threeDays : snapshottedDatabase Sample.threeDays.
Proof.
  intros day b [[= <- <-]|[[= <- <-]|[[= <- <-]|[]]]]; exact snapshotted_nil.
Qed.

Lemma every_stored_session_has_a_snapshot_witness :
  let W := Sample.world Sample.listsS1 0 in
  let db' := fst (fst (checkForEvents W Sample.threeDays "2024-03-01" false)) in
  snapshottedDatabase Sample.threeDays
  /\ map (fun kb => Bolt.Keys (eventsOfDay (snd kb))) db'
     = [[]; ["S1"]; ["S1"]]
  /\ snapshottedDatabase db'.
Proof.
  intros W db'. split; [exact snapshottedDatabase_threeDays|].
  split; [reflexivity|].
  exact (proj1 (every_stored_session_has_a_snapshot W Sample.plainJsonString
                  Sample.threeDays "2024-03-01" false 0 []
                  snapshottedDatabase_threeDays)).
Defined.
